(** * Grid wave simulator: fluid.c, gridfluid.c, realfluid.c

    A shallow embedding of the three programs of the repository.

    - The C [float] is IEEE-754 binary32, modelled by [spec_float] of the
      standard library with precision 24 and maximal exponent 128; every
      operation rounds to nearest-even and expressions are evaluated in
      single precision.  [cosf] and [expf] are parameters.
    - The two heap buffers of a [FluidGrid] are lists of floats indexed by
      [y * GRID_WIDTH + x].  An access outside the allocated buffer and a
      float to integer conversion out of range have no defined behaviour
      in C: the functions return [option], [None] standing for them.
    - The macros [GRID_WIDTH] and [GRID_HEIGHT] (800 x 600, 1200 x 800 and
      400 x 300 cells in the three programs) are parameters.
    - [int] arithmetic that can overflow is written with its wrap-around. *)

From Stdlib Require Import ZArith Lia Bool.
From Stdlib Require Import Floats.SpecFloat.
From stdpp Require Import base option list.

Local Open Scope Z_scope.

(** ** Single-precision arithmetic *)

Module F32.

Definition prec : Z := 24.
Definition emax : Z := 128.

Definition float : Type := spec_float.

Definition add : float -> float -> float := SFadd prec emax.
Definition sub : float -> float -> float := SFsub prec emax.
Definition mul : float -> float -> float := SFmul prec emax.
Definition div : float -> float -> float := SFdiv prec emax.
Definition sqrtf : float -> float := SFsqrt prec emax.
Definition opp : float -> float := SFopp.
Definition fabsf : float -> float := SFabs.
Definition ltb : float -> float -> bool := SFltb.
Definition leb : float -> float -> bool := SFleb.

#[global] Arguments add : simpl never.
#[global] Arguments sub : simpl never.
#[global] Arguments mul : simpl never.
#[global] Arguments div : simpl never.
#[global] Arguments sqrtf : simpl never.

Definition is_nan (x : float) : bool :=
  match x with S754_nan => true | _ => false end.

(** [fmaxf] and [fminf] of the C library: a NaN argument is treated as
    missing data, the other argument is returned. *)
Definition fmaxf (x y : float) : float :=
  if is_nan x then y else if is_nan y then x else if ltb x y then y else x.

Definition fminf (x y : float) : float :=
  if is_nan x then y else if is_nan y then x else if ltb y x then y else x.

(** Conversion of a C integer to [float] (rounds when the integer has
    more than 24 significant bits). *)
Definition of_int (z : Z) : float := binary_normalize prec emax z 0 false.

(** The integer part of a float, rounding toward zero; no value for NaN
    and the infinities. *)
Definition trunc (x : float) : option Z :=
  match x with
  | S754_zero _ => Some 0
  | S754_finite s m e => Some (cond_Zopp s (Z.shiftl (Zpos m) e))
  | S754_infinity _ | S754_nan => None
  end.

(** Conversion of a float to an integer type with values [lo .. hi]:
    defined by C only when the truncated value is representable. *)
Definition to_integer (lo hi : Z) (x : float) : option Z :=
  z ← trunc x; if decide (lo <= z <= hi) then Some z else None.

Definition to_int : float -> option Z := to_integer (- 2 ^ 31) (2 ^ 31 - 1).
Definition to_uint32 : float -> option Z := to_integer 0 (2 ^ 32 - 1).
Definition to_uint8 : float -> option Z := to_integer 0 255.

(** A decimal literal [n/d] written with suffix [f]: both [n] and [d]
    are exactly representable, the correctly rounded quotient is the
    binary32 number nearest to the literal. *)
Definition dec (n d : Z) : float := div (of_int n) (of_int d).

Definition zero : float := S754_zero false.
Definition c0_1 : float := Eval vm_compute in dec 1 10.
Definition c0_2 : float := Eval vm_compute in dec 2 10.
Definition c0_25 : float := Eval vm_compute in dec 25 100.
Definition c0_3 : float := Eval vm_compute in dec 3 10.
Definition c0_4 : float := Eval vm_compute in dec 4 10.
Definition c0_5 : float := Eval vm_compute in dec 5 10.
Definition c0_8 : float := Eval vm_compute in dec 8 10.
Definition c0_99 : float := Eval vm_compute in dec 99 100.
Definition c1 : float := Eval vm_compute in of_int 1.
Definition c1_5 : float := Eval vm_compute in dec 15 10.
Definition c2 : float := Eval vm_compute in of_int 2.
Definition c3 : float := Eval vm_compute in of_int 3.
Definition c4 : float := Eval vm_compute in of_int 4.
Definition c255 : float := Eval vm_compute in of_int 255.

End F32.

Abbreviation float := F32.float.

(** ** C integers *)

(** Two's complement wrap-around of [int] arithmetic. *)
Definition wrap_int (z : Z) : Z := (z + 2 ^ 31) mod 2 ^ 32 - 2 ^ 31.

(** ** Buffers and loops *)

Section Memory.
Context {A : Type}.

Definition load (buf : list A) (i : Z) : option A :=
  if decide (0 <= i) then buf !! Z.to_nat i else None.

Definition store (buf : list A) (i : Z) (v : A) : option (list A) :=
  if decide (0 <= i < Z.of_nat (length buf))
  then Some (<[Z.to_nat i := v]> buf) else None.
End Memory.

Section Loops.
Context {S : Type}.

Fixpoint for_iter (n : nat) (i : Z) (body : Z -> S -> option S) (s : S)
  : option S :=
  match n with
  | O => Some s
  | Datatypes.S n' => s' ← body i s; for_iter n' (i + 1) body s'
  end.

(** [for (int i = lo; i < hi; i++) body] *)
Definition for_loop (lo hi : Z) (body : Z -> S -> option S) (s : S)
  : option S :=
  for_iter (Z.to_nat (hi - lo)) lo body s.
End Loops.

(** [calloc (n, sizeof (float))] *)
Definition calloc (n : Z) : list float := replicate (Z.to_nat n) F32.zero.

Record FluidGrid : Type := mkFluidGrid
  { current : list float;
    previous : list float;
    damping : float }.

(** ** gridfluid.c *)

Module Gridfluid.
Section Grid.
Variables GRID_WIDTH GRID_HEIGHT : Z.

Definition init_fluid : FluidGrid :=
  {| current := calloc (GRID_WIDTH * GRID_HEIGHT);
     previous := calloc (GRID_WIDTH * GRID_HEIGHT);
     damping := F32.c0_99 |}.

Definition update_cell (idx : Z) (fluid : FluidGrid) : option FluidGrid :=
  pl ← load (previous fluid) (idx - 1);
  pr ← load (previous fluid) (idx + 1);
  pu ← load (previous fluid) (idx - GRID_WIDTH);
  pd ← load (previous fluid) (idx + GRID_WIDTH);
  pc ← load (previous fluid) idx;
  let laplacian :=
    F32.sub (F32.add (F32.add (F32.add pl pr) pu) pd) (F32.mul F32.c4 pc) in
  c ← load (current fluid) idx;
  cur1 ← store (current fluid) idx
    (F32.add (F32.sub (F32.mul F32.c2 pc) c) (F32.mul laplacian F32.c0_25));
  v ← load cur1 idx;
  cur2 ← store cur1 idx (F32.mul v (damping fluid));
  Some {| current := cur2; previous := previous fluid;
          damping := damping fluid |}.

Definition update_loop (fluid : FluidGrid) : option FluidGrid :=
  for_loop 1 (GRID_HEIGHT - 1) (fun y =>
    for_loop 1 (GRID_WIDTH - 1) (fun x =>
      update_cell (y * GRID_WIDTH + x))) fluid.

Definition swap (fluid : FluidGrid) : FluidGrid :=
  let temp := current fluid in
  {| current := previous fluid; previous := temp;
     damping := damping fluid |}.

Definition update_fluid (fluid : FluidGrid) : option FluidGrid :=
  swap <$> update_loop fluid.

Definition add_disturbance (fluid : FluidGrid) (x y : Z) (intensity : float)
  : option FluidGrid :=
  if decide (x >= 1 /\ x < GRID_WIDTH - 1 /\ y >= 1 /\ y < GRID_HEIGHT - 1)
  then
    let idx := y * GRID_WIDTH + x in
    p ← load (previous fluid) idx;
    prev' ← store (previous fluid) idx (F32.add p intensity);
    Some {| current := current fluid; previous := prev';
            damping := damping fluid |}
  else Some fluid.

(** The [int] coordinate [(int)(a + d * t)] of a sample on the segment. *)
Definition sample (a : Z) (d t : float) : option Z :=
  F32.to_int (F32.add (F32.of_int a) (F32.mul d t)).

Definition add_continuous_wave (fluid : FluidGrid) (x1 y1 x2 y2 : Z)
    (intensity : float) : option FluidGrid :=
  let dx := F32.of_int (wrap_int (x2 - x1)) in
  let dy := F32.of_int (wrap_int (y2 - y1)) in
  let distance := F32.sqrtf (F32.add (F32.mul dx dx) (F32.mul dy dy)) in
  if F32.ltb distance F32.c1 then add_disturbance fluid x1 y1 intensity
  else
    n ← F32.to_int (F32.mul distance F32.c2);
    let steps := wrap_int (n + 1) in
    for_loop 0 (steps + 1) (fun i fluid =>
      let t := F32.div (F32.of_int i) (F32.of_int steps) in
      cx ← sample x1 dx t;
      cy ← sample y1 dy t;
      let current_intensity :=
        F32.mul intensity (F32.sub F32.c1 (F32.mul t F32.c0_3)) in
      for_loop (-2) 3 (fun dy =>
        for_loop (-2) 3 (fun dx fluid =>
          let dist := F32.sqrtf (F32.of_int (dx * dx + dy * dy)) in
          if F32.leb dist F32.c2 then
            let falloff := F32.sub F32.c1 (F32.div dist F32.c2) in
            add_disturbance fluid (wrap_int (cx + dx)) (wrap_int (cy + dy))
              (F32.mul (F32.mul current_intensity falloff) F32.c0_5)
          else Some fluid)) fluid) fluid.

(** [cosf] of the C library, not specified by IEEE-754: a parameter. *)
Variable cosf : float -> float.

Definition wave (dx dy : Z) : float :=
  let dist := F32.sqrtf (F32.of_int (dx * dx + dy * dy)) in
  F32.mul (cosf (F32.mul dist F32.c0_8))
          (F32.sub F32.c1 (F32.div dist F32.c3)).

Definition add_velocity_field (fluid : FluidGrid) (x y : Z)
    (intensity : float) : option FluidGrid :=
  if decide (x >= 2 /\ x < GRID_WIDTH - 2 /\ y >= 2 /\ y < GRID_HEIGHT - 2)
  then
    for_loop (-3) 4 (fun dy =>
      for_loop (-3) 4 (fun dx fluid =>
        let dist := F32.sqrtf (F32.of_int (dx * dx + dy * dy)) in
        if F32.leb dist F32.c3 then
          add_disturbance fluid (x + dx) (y + dy)
            (F32.mul intensity (wave dx dy))
        else Some fluid)) fluid
  else Some fluid.

End Grid.
End Gridfluid.

(** ** realfluid.c *)

Module Realfluid.
Section Grid.
Variables GRID_WIDTH GRID_HEIGHT : Z.

Definition init_fluid : FluidGrid :=
  {| current := calloc (GRID_WIDTH * GRID_HEIGHT);
     previous := calloc (GRID_WIDTH * GRID_HEIGHT);
     damping := F32.c0_99 |}.

Definition update_cell (idx : Z) (fluid : FluidGrid) : option FluidGrid :=
  pl ← load (previous fluid) (idx - 1);
  pr ← load (previous fluid) (idx + 1);
  pu ← load (previous fluid) (idx - GRID_WIDTH);
  pd ← load (previous fluid) (idx + GRID_WIDTH);
  pc ← load (previous fluid) idx;
  let laplacian :=
    F32.sub (F32.add (F32.add (F32.add pl pr) pu) pd) (F32.mul F32.c4 pc) in
  c ← load (current fluid) idx;
  cur' ← store (current fluid) idx
    (F32.mul
       (F32.add (F32.sub (F32.mul F32.c2 pc) c) (F32.mul laplacian F32.c0_25))
       (damping fluid));
  Some {| current := cur'; previous := previous fluid;
          damping := damping fluid |}.

Definition update_loop (fluid : FluidGrid) : option FluidGrid :=
  for_loop 1 (GRID_HEIGHT - 1) (fun y =>
    let row_start := y * GRID_WIDTH in
    for_loop 1 (GRID_WIDTH - 1) (fun x =>
      update_cell (row_start + x))) fluid.

Definition swap (fluid : FluidGrid) : FluidGrid :=
  let temp := current fluid in
  {| current := previous fluid; previous := temp;
     damping := damping fluid |}.

Definition update_fluid (fluid : FluidGrid) : option FluidGrid :=
  swap <$> update_loop fluid.

Definition add_disturbance (fluid : FluidGrid) (x y : Z) (intensity : float)
  : option FluidGrid :=
  if decide (x >= 1 /\ x < GRID_WIDTH - 1 /\ y >= 1 /\ y < GRID_HEIGHT - 1)
  then
    let idx := y * GRID_WIDTH + x in
    p ← load (previous fluid) idx;
    prev' ← store (previous fluid) idx (F32.add p intensity);
    Some {| current := current fluid; previous := prev';
            damping := damping fluid |}
  else Some fluid.

Definition sample (a : Z) (d t : float) : option Z :=
  F32.to_int (F32.add (F32.of_int a) (F32.mul d t)).

Definition add_continuous_wave (fluid : FluidGrid) (x1 y1 x2 y2 : Z)
    (intensity : float) : option FluidGrid :=
  let dx := F32.of_int (wrap_int (x2 - x1)) in
  let dy := F32.of_int (wrap_int (y2 - y1)) in
  let distance := F32.sqrtf (F32.add (F32.mul dx dx) (F32.mul dy dy)) in
  if F32.ltb distance F32.c1 then add_disturbance fluid x1 y1 intensity
  else
    n ← F32.to_int (F32.mul distance F32.c1_5);
    let steps := wrap_int (n + 1) in
    let inv_steps := F32.div F32.c1 (F32.of_int steps) in
    for_loop 0 (steps + 1) (fun i fluid =>
      let t := F32.mul (F32.of_int i) inv_steps in
      cx ← sample x1 dx t;
      cy ← sample y1 dy t;
      let current_intensity :=
        F32.mul intensity (F32.sub F32.c1 (F32.mul t F32.c0_3)) in
      if decide (cx >= 2 /\ cx < GRID_WIDTH - 2 /\
                 cy >= 2 /\ cy < GRID_HEIGHT - 2)
      then add_disturbance fluid cx cy current_intensity
      else Some fluid) fluid.

(** [expf] and [cosf] of the C library: parameters. *)
Variables expf cosf : float -> float.

Definition add_water_drop (fluid : FluidGrid) (x y : Z) (intensity : float)
  : option FluidGrid :=
  if decide (x >= 3 /\ x < GRID_WIDTH - 3 /\ y >= 3 /\ y < GRID_HEIGHT - 3)
  then
    for_loop (-3) 4 (fun dy =>
      for_loop (-3) 4 (fun dx fluid =>
        let dist := F32.sqrtf (F32.of_int (dx * dx + dy * dy)) in
        if F32.leb dist F32.c3 then
          let falloff :=
            expf (F32.mul (F32.mul (F32.opp dist) dist) F32.c0_3) in
          let wave := F32.mul (cosf (F32.mul dist F32.c1_5)) falloff in
          add_disturbance fluid (x + dx) (y + dy) (F32.mul intensity wave)
        else Some fluid)) fluid
  else Some fluid.

End Grid.

(** [fminf (fmaxf (v, 0.0f), 1.0f)] *)
Definition clamp01 (v : float) : float :=
  F32.fminf (F32.fmaxf v F32.zero) F32.c1.

(** The three clamped channels of [water_color], before packing. *)
Definition water_rgb (height : float) : float * float * float :=
  let base_r := F32.c0_1 in
  let base_g := F32.c0_2 in
  let base_b := F32.c0_4 in
  let wave_intensity := F32.mul (F32.fabsf height) F32.c2 in
  let foam := F32.mul (F32.fmaxf F32.zero (F32.sub height F32.c0_3)) F32.c3 in
  let foam := F32.fminf foam F32.c1 in
  let light := F32.mul (F32.fmaxf F32.zero height) F32.c1_5 in
  let light := F32.fminf light F32.c0_8 in
  let r := F32.add (F32.add base_r foam) (F32.mul light F32.c0_3) in
  let g := F32.add (F32.add base_g (F32.mul foam F32.c0_8))
                   (F32.mul light F32.c0_4) in
  let b := F32.add (F32.add base_b foam) (F32.mul light F32.c0_2) in
  (clamp01 r, clamp01 g, clamp01 b).

Definition water_color (height x y : float) (time : Z) : option Z :=
  let '(r, g, b) := water_rgb height in
  cr ← F32.to_uint32 (F32.mul r F32.c255);
  cg ← F32.to_uint32 (F32.mul g F32.c255);
  cb ← F32.to_uint32 (F32.mul b F32.c255);
  Some (Z.lor (Z.lor (Z.lor (Z.shiftl cr 16 mod 2 ^ 32)
                            (Z.shiftl cg 8 mod 2 ^ 32)) cb) 0xFF000000).

Definition bw_water_color (height : float) : option Z :=
  let intensity := F32.mul (F32.fabsf height) F32.c3 in
  let intensity :=
    if F32.ltb F32.c0_2 height then
      let foam := F32.mul (F32.sub height F32.c0_2) F32.c4 in
      F32.sub intensity (F32.mul foam F32.c0_5)
    else intensity in
  let intensity := clamp01 intensity in
  value ← F32.to_uint8 (F32.mul (F32.sub F32.c1 intensity) F32.c255);
  Some (Z.lor (Z.lor (Z.lor (wrap_int (Z.shiftl 0xFF 24))
                            (Z.shiftl value 16)) (Z.shiftl value 8)) value
        mod 2 ^ 32).

(** Only the pixel buffer of a [FluidRenderer] matters to the core. *)
Definition update_fluid_texture (GRID_WIDTH GRID_HEIGHT : Z)
    (pixels : list Z) (fluid : FluidGrid) (time : Z) : option (list Z) :=
  for_loop 0 GRID_HEIGHT (fun y =>
    for_loop 0 GRID_WIDTH (fun x pixels =>
      let idx := y * GRID_WIDTH + x in
      height ← load (current fluid) idx;
      c ← water_color height (F32.of_int x) (F32.of_int y) time;
      store pixels idx c)) pixels.

End Realfluid.

(** ** fluid.c *)

Module Fluid.
Section Grid.
Variables GRID_WIDTH GRID_HEIGHT : Z.

Definition init_fluid : FluidGrid :=
  {| current := calloc (GRID_WIDTH * GRID_HEIGHT);
     previous := calloc (GRID_WIDTH * GRID_HEIGHT);
     damping := F32.c0_99 |}.

(** The text of [update_fluid] is that of gridfluid.c. *)
Definition update_fluid : FluidGrid -> option FluidGrid :=
  Gridfluid.update_fluid GRID_WIDTH GRID_HEIGHT.

Definition add_disturbance (fluid : FluidGrid) (x y : Z) (intensity : float)
  : option FluidGrid :=
  if decide (x >= 1 /\ x < GRID_WIDTH - 1 /\ y >= 1 /\ y < GRID_HEIGHT - 1)
  then
    let idx := y * GRID_WIDTH + x in
    p ← load (previous fluid) idx;
    prev0 ← store (previous fluid) idx (F32.add p intensity);
    prev' ← for_loop (-1) 2 (fun dy =>
      for_loop (-1) 2 (fun dx prev =>
        if decide (dx = 0 /\ dy = 0) then Some prev
        else
          let nidx := (y + dy) * GRID_WIDTH + (x + dx) in
          q ← load prev nidx;
          store prev nidx (F32.add q (F32.mul intensity F32.c0_5)))) prev0;
    Some {| current := current fluid; previous := prev';
            damping := damping fluid |}
  else Some fluid.

End Grid.
End Fluid.

(** ** Binary32 data *)

(** [x] is a datum of the binary32 format: a zero, an infinity, NaN, or a
    finite number whose mantissa and exponent are the canonical ones. *)
Definition valid (x : float) : Prop :=
  valid_binary F32.prec F32.emax x = true.

(** [x] is zero or a positive finite number [m * 2^e <= n] with [e <= 0]. *)
Definition at_most (n : Z) (x : float) : Prop :=
  match x with
  | S754_zero _ => True
  | S754_finite s m e => s = false /\ e <= 0 /\ Z.pos m <= n * 2 ^ (- e)
  | _ => False
  end.

(** A binary32 number of the interval [0, 1]. *)
Definition unit_interval (v : float) : Prop := valid v /\ at_most 1 v.

(** ** Vocabulary of the specification *)

Section Vocabulary.
Variables W H : Z.

(** Both buffers hold exactly [W * H] cells. *)
Definition wf (g : FluidGrid) : Prop :=
  Z.of_nat (length (current g)) = W * H /\
  Z.of_nat (length (previous g)) = W * H.

Definition in_grid (x y : Z) : Prop := 0 <= x < W /\ 0 <= y < H.

Definition interior (x y : Z) : Prop :=
  1 <= x <= W - 2 /\ 1 <= y <= H - 2.

Definition border (x y : Z) : Prop :=
  in_grid x y /\ (x = 0 \/ x = W - 1 \/ y = 0 \/ y = H - 1).

#[global] Instance in_grid_dec x y : Decision (in_grid x y).
Proof. unfold in_grid. apply _. Defined.

#[global] Instance interior_dec x y : Decision (interior x y).
Proof. unfold interior. apply _. Defined.

#[global] Instance border_dec x y : Decision (border x y).
Proof. unfold border. apply _. Defined.

(** The accessor [at (buffer, x, y)] of the specification. *)
Definition cell (buf : list float) (x y : Z) : float :=
  default F32.zero (load buf (y * W + x)).

Definition laplacian (prev : list float) (x y : Z) : float :=
  F32.sub
    (F32.add
       (F32.add (F32.add (cell prev (x - 1) y) (cell prev (x + 1) y))
                (cell prev x (y - 1)))
       (cell prev x (y + 1)))
    (F32.mul F32.c4 (cell prev x y)).

(** [damping * (2*previous[x,y] - current[x,y] + 0.25*laplacian)] *)
Definition stencil (g : FluidGrid) (x y : Z) : float :=
  F32.mul (damping g)
    (F32.add
       (F32.sub (F32.mul F32.c2 (cell (previous g) x y))
                (cell (current g) x y))
       (F32.mul F32.c0_25 (laplacian (previous g) x y))).

(** No border cell of either buffer is non-zero. *)
Definition border_zero (g : FluidGrid) : Prop :=
  forall x y, border x y ->
    cell (current g) x y = F32.zero /\ cell (previous g) x y = F32.zero.

(** Cells already rewritten when the row-major sweep of [update_fluid]
    is about to visit [(x, y)]. *)
Definition swept (x y x' y' : Z) : Prop :=
  interior x' y' /\ (y' < y \/ (y' = y /\ x' < x)).

#[global] Instance swept_dec x y x' y' : Decision (swept x y x' y').
Proof. unfold swept. apply _. Defined.

Definition sweep_inv (g0 : FluidGrid) (x y : Z) (g : FluidGrid) : Prop :=
  previous g = previous g0 /\ damping g = damping g0 /\
  length (current g) = length (current g0) /\
  forall x' y', in_grid x' y' ->
    cell (current g) x' y' =
      if decide (swept x y x' y') then stencil g0 x' y'
      else cell (current g0) x' y'.
End Vocabulary.

(** ** Frames of the simulation loop *)

(** What one frame of [main] does to the field: point injections requested
    by the input events, then one call of [update_fluid]. *)
Inductive op : Type :=
  | Point (x y : Z) (intensity : float)
  | Step.

Section Run.
Variable inject : FluidGrid -> Z -> Z -> float -> option FluidGrid.
Variable step : FluidGrid -> option FluidGrid.

Definition exec (o : op) (g : FluidGrid) : option FluidGrid :=
  match o with
  | Point x y intensity => inject g x y intensity
  | Step => step g
  end.

Fixpoint run (ops : list op) (g : FluidGrid) : option FluidGrid :=
  match ops with
  | [] => Some g
  | o :: ops' => g' ← exec o g; run ops' g'
  end.
End Run.

(** The end-to-end scenario: a zero 10 x 10 field, one point injection of
    intensity 10 at (5,5), one step. *)
Definition scenario : option FluidGrid :=
  run (Gridfluid.add_disturbance 10 10) (Gridfluid.update_fluid 10 10)
      [Point 5 5 (F32.of_int 10); Step] (Gridfluid.init_fluid 10 10).

(** A 3 x 3 field with pairwise different cells, for examples. *)
Definition sample_grid : FluidGrid :=
  {| current := F32.of_int <$> [1; 2; 3; 4; 5; 6; 7; 8; 9];
     previous := F32.of_int <$> [90; 80; 70; 60; 50; 40; 30; 20; 10];
     damping := F32.c0_99 |}.

(** ** Vocabulary of the further properties *)

(** The value [add_water_drop] injects at offset [(dx, dy)], before the
    multiplication by the intensity. *)
Definition drop_wave (expf cosf : float -> float) (dx dy : Z) : float :=
  let dist := F32.sqrtf (F32.of_int (dx * dx + dy * dy)) in
  let falloff := expf (F32.mul (F32.mul (F32.opp dist) dist) F32.c0_3) in
  F32.mul (cosf (F32.mul dist F32.c1_5)) falloff.

(** [g'] is [g] with some interior cells of [previous] rewritten: what
    every injection does to the field. *)
Definition injected (W H : Z) (g g' : FluidGrid) : Prop :=
  wf W H g' /\ current g' = current g /\ damping g' = damping g /\
  forall x y, in_grid W H x y -> ~ interior W H x y ->
    cell W (previous g') x y = cell W (previous g) x y.

(** The injection points of a list of frames operations, and its number of
    steps. *)
Fixpoint points (ops : list op) : list (Z * Z) :=
  match ops with
  | [] => []
  | Point x y _ :: ops' => (x, y) :: points ops'
  | Step :: ops' => points ops'
  end.

Fixpoint steps (ops : list op) : Z :=
  match ops with
  | [] => 0
  | Point _ _ _ :: ops' => steps ops'
  | Step :: ops' => 1 + steps ops'
  end.

(** The cell [(x, y)] is more than [k] moves (left, right, up, down) away
    from every point of [ps]. *)
Definition beyond (ps : list (Z * Z)) (k x y : Z) : Prop :=
  forall p, p ∈ ps -> Z.abs (x - p.1) + Z.abs (y - p.2) > k.

(** Both buffers are [+0] at every cell that is [beyond ps k]. *)
Definition calm_beyond (W H : Z) (ps : list (Z * Z)) (k : Z) (g : FluidGrid)
  : Prop :=
  forall x y, in_grid W H x y -> beyond ps k x y ->
    cell W (current g) x y = F32.zero /\ cell W (previous g) x y = F32.zero.

(** Every cell of the grid holds a binary32 datum, and so does [damping]. *)
Definition cells_valid (W H : Z) (g : FluidGrid) : Prop :=
  valid (damping g) /\
  forall x y, in_grid W H x y ->
    valid (cell W (current g) x y) /\ valid (cell W (previous g) x y).

(** [x] is a zero or a finite number of magnitude below [2^k]. *)
Definition mag (k : Z) (x : float) : Prop :=
  match x with
  | S754_zero _ => True
  | S754_finite _ m e => Zdigits2 (Z.pos m) + e <= k
  | _ => False
  end.

(** [x] is a zero or a positive finite number. *)
Definition nonneg (x : float) : Prop :=
  match x with
  | S754_zero _ => True
  | S754_finite s _ _ => s = false
  | _ => False
  end.

(** ** The event loops of [main] *)

(** Constants of the SDL2 headers. *)
Definition SDL_BUTTON_LEFT : Z := 1.
Definition SDL_BUTTON_LMASK : Z := 1.
Definition SDLK_SPACE : Z := 32.
Definition SDLK_r : Z := 114.
Definition SDLK_ESCAPE : Z := 27.

(** The fields of an [SDL_Event] that the programs read; events of any
    other type are [SDL_OTHER]. *)
Inductive SDL_Event : Type :=
  | SDL_QUIT
  | SDL_MOUSEBUTTONDOWN (button x y : Z)
  | SDL_MOUSEMOTION (state x y : Z)
  | SDL_MOUSEBUTTONUP (button : Z)
  | SDL_KEYDOWN (sym : Z)
  | SDL_OTHER.

(** The variables of [main] and the two statics; [rand_calls] counts the
    calls of [rand ()] made so far. *)
Record App : Type := mkApp
  { fluid : FluidGrid;
    running : Z;
    mouse_down : Z;
    prev_mouse_x : Z;
    prev_mouse_y : Z;
    rand_calls : nat }.

Module GridfluidMain.
Definition CELL_SIZE : Z := 1.

Section Main.
Variables GRID_WIDTH GRID_HEIGHT : Z.
Variable cosf : float -> float.
(** [rand n] is the value of the [n]-th call of [rand ()]; the arguments of
    a call are evaluated from left to right. *)
Variable rand : nat -> Z.

Definition handle_event (event : SDL_Event) (s : App) : option App :=
  match event with
  | SDL_QUIT =>
      Some {| fluid := fluid s; running := 0; mouse_down := mouse_down s;
              prev_mouse_x := prev_mouse_x s; prev_mouse_y := prev_mouse_y s;
              rand_calls := rand_calls s |}
  | SDL_MOUSEBUTTONDOWN button x y =>
      if decide (button = SDL_BUTTON_LEFT) then
        let px := Z.quot x CELL_SIZE in
        let py := Z.quot y CELL_SIZE in
        f ← Gridfluid.add_velocity_field GRID_WIDTH GRID_HEIGHT cosf
              (fluid s) px py (F32.of_int 25);
        Some {| fluid := f; running := running s; mouse_down := 1;
                prev_mouse_x := px; prev_mouse_y := py;
                rand_calls := rand_calls s |}
      else Some s
  | SDL_MOUSEMOTION state x y =>
      if decide (mouse_down s <> 0 /\ Z.land state SDL_BUTTON_LMASK <> 0) then
        let current_x := Z.quot x CELL_SIZE in
        let current_y := Z.quot y CELL_SIZE in
        f ← (if decide (prev_mouse_x s <> -1 /\ prev_mouse_y s <> -1) then
               f1 ← Gridfluid.add_continuous_wave GRID_WIDTH GRID_HEIGHT
                      (fluid s) (prev_mouse_x s) (prev_mouse_y s)
                      current_x current_y (F32.of_int 20);
               Gridfluid.add_velocity_field GRID_WIDTH GRID_HEIGHT cosf
                 f1 current_x current_y (F32.of_int 15)
             else Some (fluid s));
        Some {| fluid := f; running := running s; mouse_down := mouse_down s;
                prev_mouse_x := current_x; prev_mouse_y := current_y;
                rand_calls := rand_calls s |}
      else Some s
  | SDL_MOUSEBUTTONUP button =>
      if decide (button = SDL_BUTTON_LEFT) then
        Some {| fluid := fluid s; running := running s; mouse_down := 0;
                prev_mouse_x := -1; prev_mouse_y := -1;
                rand_calls := rand_calls s |}
      else Some s
  | SDL_KEYDOWN sym =>
      if decide (sym = SDLK_SPACE) then
        if decide (GRID_WIDTH - 4 = 0 \/ GRID_HEIGHT - 4 = 0) then None
        else
          let x := Z.rem (rand (rand_calls s)) (GRID_WIDTH - 4) + 2 in
          let y := Z.rem (rand (S (rand_calls s))) (GRID_HEIGHT - 4) + 2 in
          f ← Gridfluid.add_velocity_field GRID_WIDTH GRID_HEIGHT cosf
                (fluid s) x y (F32.of_int 30);
          Some {| fluid := f; running := running s;
                  mouse_down := mouse_down s;
                  prev_mouse_x := prev_mouse_x s;
                  prev_mouse_y := prev_mouse_y s;
                  rand_calls := S (S (rand_calls s)) |}
      else if decide (sym = SDLK_r) then
        Some {| fluid := Gridfluid.init_fluid GRID_WIDTH GRID_HEIGHT;
                running := running s; mouse_down := mouse_down s;
                prev_mouse_x := prev_mouse_x s;
                prev_mouse_y := prev_mouse_y s;
                rand_calls := rand_calls s |}
      else if decide (sym = SDLK_ESCAPE) then
        Some {| fluid := fluid s; running := 0; mouse_down := mouse_down s;
                prev_mouse_x := prev_mouse_x s;
                prev_mouse_y := prev_mouse_y s;
                rand_calls := rand_calls s |}
      else Some s
  | SDL_OTHER => Some s
  end.

(** [while (SDL_PollEvent (&event))] on the events that are pending. *)
Fixpoint poll_events (events : list SDL_Event) (s : App) : option App :=
  match events with
  | [] => Some s
  | event :: events' => s' ← handle_event event s; poll_events events' s'
  end.

(** One turn of [while (running)]; the rendering reads the field only. *)
Definition frame (events : list SDL_Event) (s : App) : option App :=
  s1 ← poll_events events s;
  f ← Gridfluid.update_fluid GRID_WIDTH GRID_HEIGHT (fluid s1);
  Some {| fluid := f; running := running s1; mouse_down := mouse_down s1;
          prev_mouse_x := prev_mouse_x s1; prev_mouse_y := prev_mouse_y s1;
          rand_calls := rand_calls s1 |}.

(** [while (running)], fed with the events pending at each turn. *)
Fixpoint main_loop (frames : list (list SDL_Event)) (s : App) : option App :=
  match frames with
  | [] => Some s
  | events :: frames' =>
      if decide (running s <> 0) then s' ← frame events s; main_loop frames' s'
      else Some s
  end.

Definition main (frames : list (list SDL_Event)) : option App :=
  main_loop frames
    {| fluid := Gridfluid.init_fluid GRID_WIDTH GRID_HEIGHT;
       running := 1; mouse_down := 0;
       prev_mouse_x := -1; prev_mouse_y := -1; rand_calls := 0 |}.

End Main.
End GridfluidMain.

(** The pointer positions of the events stay within 32768 pixels of the
    window's origin. *)
Definition in_reach (event : SDL_Event) : Prop :=
  match event with
  | SDL_MOUSEBUTTONDOWN _ x y | SDL_MOUSEMOTION _ x y =>
      Z.abs x <= 32768 /\ Z.abs y <= 32768
  | _ => True
  end.

(** What the event loops keep true of their variables. *)
Definition app_inv (W H : Z) (s : App) : Prop :=
  wf W H (fluid s) /\ border_zero W H (fluid s) /\
  Z.abs (prev_mouse_x s) <= 32768 /\ Z.abs (prev_mouse_y s) <= 32768 /\
  (mouse_down s = 0 -> prev_mouse_x s = -1 /\ prev_mouse_y s = -1).

Module RealfluidMain.
Definition CELL_SIZE : Z := 1.

Section Main.
Variables GRID_WIDTH GRID_HEIGHT : Z.
Variables expf cosf : float -> float.
Variable rand : nat -> Z.

Definition handle_event (event : SDL_Event) (s : App) : option App :=
  match event with
  | SDL_QUIT =>
      Some {| fluid := fluid s; running := 0; mouse_down := mouse_down s;
              prev_mouse_x := prev_mouse_x s; prev_mouse_y := prev_mouse_y s;
              rand_calls := rand_calls s |}
  | SDL_MOUSEBUTTONDOWN button x y =>
      if decide (button = SDL_BUTTON_LEFT) then
        let px := Z.quot x CELL_SIZE in
        let py := Z.quot y CELL_SIZE in
        f ← Realfluid.add_water_drop GRID_WIDTH GRID_HEIGHT expf cosf
              (fluid s) px py (F32.of_int 20);
        Some {| fluid := f; running := running s; mouse_down := 1;
                prev_mouse_x := px; prev_mouse_y := py;
                rand_calls := rand_calls s |}
      else Some s
  | SDL_MOUSEMOTION state x y =>
      if decide (mouse_down s <> 0 /\ Z.land state SDL_BUTTON_LMASK <> 0) then
        let current_x := Z.quot x CELL_SIZE in
        let current_y := Z.quot y CELL_SIZE in
        f ← (if decide (prev_mouse_x s <> -1 /\ prev_mouse_y s <> -1) then
               Realfluid.add_continuous_wave GRID_WIDTH GRID_HEIGHT
                 (fluid s) (prev_mouse_x s) (prev_mouse_y s)
                 current_x current_y (F32.of_int 15)
             else Some (fluid s));
        Some {| fluid := f; running := running s; mouse_down := mouse_down s;
                prev_mouse_x := current_x; prev_mouse_y := current_y;
                rand_calls := rand_calls s |}
      else Some s
  | SDL_MOUSEBUTTONUP button =>
      if decide (button = SDL_BUTTON_LEFT) then
        Some {| fluid := fluid s; running := running s; mouse_down := 0;
                prev_mouse_x := -1; prev_mouse_y := -1;
                rand_calls := rand_calls s |}
      else Some s
  | SDL_KEYDOWN sym =>
      if decide (sym = SDLK_SPACE) then
        if decide (GRID_WIDTH - 6 = 0 \/ GRID_HEIGHT - 6 = 0) then None
        else
          let x := Z.rem (rand (rand_calls s)) (GRID_WIDTH - 6) + 3 in
          let y := Z.rem (rand (S (rand_calls s))) (GRID_HEIGHT - 6) + 3 in
          f ← Realfluid.add_water_drop GRID_WIDTH GRID_HEIGHT expf cosf
                (fluid s) x y (F32.of_int 25);
          Some {| fluid := f; running := running s;
                  mouse_down := mouse_down s;
                  prev_mouse_x := prev_mouse_x s;
                  prev_mouse_y := prev_mouse_y s;
                  rand_calls := S (S (rand_calls s)) |}
      else if decide (sym = SDLK_r) then
        Some {| fluid := Realfluid.init_fluid GRID_WIDTH GRID_HEIGHT;
                running := running s; mouse_down := mouse_down s;
                prev_mouse_x := prev_mouse_x s;
                prev_mouse_y := prev_mouse_y s;
                rand_calls := rand_calls s |}
      else if decide (sym = SDLK_ESCAPE) then
        Some {| fluid := fluid s; running := 0; mouse_down := mouse_down s;
                prev_mouse_x := prev_mouse_x s;
                prev_mouse_y := prev_mouse_y s;
                rand_calls := rand_calls s |}
      else Some s
  | SDL_OTHER => Some s
  end.

Fixpoint poll_events (events : list SDL_Event) (s : App) : option App :=
  match events with
  | [] => Some s
  | event :: events' => s' ← handle_event event s; poll_events events' s'
  end.

(** One turn of [while (running)]: the events, the physics, the texture.
    [current_time] is the value of [SDL_GetTicks () - start_time]. *)
Definition frame (current_time : Z) (events : list SDL_Event)
    (s : App * list Z) : option (App * list Z) :=
  s1 ← poll_events events s.1;
  f ← Realfluid.update_fluid GRID_WIDTH GRID_HEIGHT (fluid s1);
  pixels ← Realfluid.update_fluid_texture GRID_WIDTH GRID_HEIGHT s.2 f
             current_time;
  Some ({| fluid := f; running := running s1; mouse_down := mouse_down s1;
           prev_mouse_x := prev_mouse_x s1; prev_mouse_y := prev_mouse_y s1;
           rand_calls := rand_calls s1 |}, pixels).

Fixpoint main_loop (frames : list (Z * list SDL_Event)) (s : App * list Z)
  : option (App * list Z) :=
  match frames with
  | [] => Some s
  | (current_time, events) :: frames' =>
      if decide (running s.1 <> 0)
      then s' ← frame current_time events s; main_loop frames' s'
      else Some s
  end.

(** [pixels] is the buffer that [init_fluid_renderer] allocates. *)
Definition main (pixels : list Z) (frames : list (Z * list SDL_Event))
  : option (App * list Z) :=
  main_loop frames
    ({| fluid := Realfluid.init_fluid GRID_WIDTH GRID_HEIGHT;
        running := 1; mouse_down := 0;
        prev_mouse_x := -1; prev_mouse_y := -1; rand_calls := 0 |}, pixels).

End Main.
End RealfluidMain.

(** The pixel buffer shows the field [g]: every pixel is the colour of its
    cell of [current]. *)
Definition shows (W H : Z) (pixels : list Z) (g : FluidGrid) : Prop :=
  forall x y, in_grid W H x y ->
    exists r gr b, 0 <= r <= 255 /\ 0 <= gr <= 255 /\ 0 <= b <= 255 /\
      load pixels (y * W + x) = Some (0xFF000000 + r * 65536 + gr * 256 + b) /\
      forall fx fy time,
        Realfluid.water_color (cell W (current g) x y) fx fy time
        = Some (0xFF000000 + r * 65536 + gr * 256 + b).

Module FluidMain.
Definition CELL_SIZE : Z := 2.

(** The variables of [main] of fluid.c, which has no [prev_mouse_x] and
    [prev_mouse_y]. *)
Record App : Type := mkApp
  { fluid : FluidGrid;
    running : Z;
    mouse_down : Z;
    rand_calls : nat }.

Section Main.
Variables GRID_WIDTH GRID_HEIGHT : Z.
Variable rand : nat -> Z.

Definition handle_event (event : SDL_Event) (s : App) : option App :=
  match event with
  | SDL_QUIT =>
      Some {| fluid := fluid s; running := 0; mouse_down := mouse_down s;
              rand_calls := rand_calls s |}
  | SDL_MOUSEBUTTONDOWN button x y =>
      if decide (button = SDL_BUTTON_LEFT) then
        let mouse_x := Z.quot x CELL_SIZE in
        let mouse_y := Z.quot y CELL_SIZE in
        f ← Fluid.add_disturbance GRID_WIDTH GRID_HEIGHT (fluid s)
              mouse_x mouse_y (F32.of_int 15);
        Some {| fluid := f; running := running s; mouse_down := 1;
                rand_calls := rand_calls s |}
      else
        Some {| fluid := fluid s; running := running s; mouse_down := 1;
                rand_calls := rand_calls s |}
  | SDL_MOUSEMOTION state x y =>
      if decide (mouse_down s <> 0 /\ Z.land state SDL_BUTTON_LMASK <> 0) then
        let mouse_x := Z.quot x CELL_SIZE in
        let mouse_y := Z.quot y CELL_SIZE in
        f ← for_loop (-2) 3 (fun dy =>
              for_loop (-2) 3 (fun dx fluid =>
                let dist := F32.sqrtf (F32.of_int (dx * dx + dy * dy)) in
                if F32.leb dist (F32.of_int 2) then
                  Fluid.add_disturbance GRID_WIDTH GRID_HEIGHT fluid
                    (mouse_x + dx) (mouse_y + dy)
                    (F32.mul (F32.of_int 8)
                       (F32.sub F32.c1 (F32.div dist F32.c2)))
                else Some fluid)) (fluid s);
        Some {| fluid := f; running := running s; mouse_down := mouse_down s;
                rand_calls := rand_calls s |}
      else Some s
  | SDL_MOUSEBUTTONUP button =>
      Some {| fluid := fluid s; running := running s; mouse_down := 0;
              rand_calls := rand_calls s |}
  | SDL_KEYDOWN sym =>
      if decide (sym = SDLK_SPACE) then
        if decide (GRID_WIDTH - 2 = 0 \/ GRID_HEIGHT - 2 = 0) then None
        else
          let x := Z.rem (rand (rand_calls s)) (GRID_WIDTH - 2) + 1 in
          let y := Z.rem (rand (S (rand_calls s))) (GRID_HEIGHT - 2) + 1 in
          f ← Fluid.add_disturbance GRID_WIDTH GRID_HEIGHT (fluid s) x y
                (F32.of_int 20);
          Some {| fluid := f; running := running s;
                  mouse_down := mouse_down s;
                  rand_calls := S (S (rand_calls s)) |}
      else if decide (sym = SDLK_ESCAPE) then
        Some {| fluid := fluid s; running := 0; mouse_down := mouse_down s;
                rand_calls := rand_calls s |}
      else Some s
  | SDL_OTHER => Some s
  end.

Fixpoint poll_events (events : list SDL_Event) (s : App) : option App :=
  match events with
  | [] => Some s
  | event :: events' => s' ← handle_event event s; poll_events events' s'
  end.

Definition frame (events : list SDL_Event) (s : App) : option App :=
  s1 ← poll_events events s;
  f ← Fluid.update_fluid GRID_WIDTH GRID_HEIGHT (fluid s1);
  Some {| fluid := f; running := running s1; mouse_down := mouse_down s1;
          rand_calls := rand_calls s1 |}.

Fixpoint main_loop (frames : list (list SDL_Event)) (s : App) : option App :=
  match frames with
  | [] => Some s
  | events :: frames' =>
      if decide (running s <> 0) then s' ← frame events s; main_loop frames' s'
      else Some s
  end.

Definition main (frames : list (list SDL_Event)) : option App :=
  main_loop frames
    {| fluid := Fluid.init_fluid GRID_WIDTH GRID_HEIGHT;
       running := 1; mouse_down := 0; rand_calls := 0 |}.

End Main.
End FluidMain.

(** Values for examples: a sequence of results of [rand ()], and the
    variables of [main] on entry to the loop, on a 12 x 12 grid. *)
Definition sample_rand (n : nat) : Z := Z.of_nat n + 41.

Definition sample_app : App :=
  {| fluid := Gridfluid.init_fluid 12 12; running := 1; mouse_down := 0;
     prev_mouse_x := -1; prev_mouse_y := -1; rand_calls := 0 |}.

Definition sample_fluid_app : FluidMain.App :=
  {| FluidMain.fluid := Fluid.init_fluid 12 12; FluidMain.running := 1;
     FluidMain.mouse_down := 0; FluidMain.rand_calls := 0 |}.

(** * Properties *)

(** ** Buffers *)

Section MemoryFacts.
Context {A : Type}.
Implicit Types (buf : list A) (i j : Z) (v : A).

Lemma load_in_range buf i :
  0 <= i < Z.of_nat (length buf) -> exists v, load buf i = Some v.
Proof.
  intros Hi. unfold load. rewrite decide_True by lia.
  destruct (lookup_lt_is_Some_2 buf (Z.to_nat i)) as [v Hv]; [lia|eauto].
Qed.

Lemma load_Some_range buf i v :
  load buf i = Some v -> 0 <= i < Z.of_nat (length buf).
Proof.
  unfold load. case_decide; [|discriminate].
  intros Hv%lookup_lt_Some. lia.
Qed.

Lemma store_in_range buf i v :
  0 <= i < Z.of_nat (length buf) ->
  store buf i v = Some (<[Z.to_nat i := v]> buf).
Proof. intros Hi. unfold store. by rewrite decide_True. Qed.

Lemma store_length buf buf' i v :
  store buf i v = Some buf' -> length buf' = length buf.
Proof.
  unfold store. case_decide; [|discriminate].
  intros [= <-]. apply length_insert.
Qed.

Lemma load_store_eq buf buf' i v :
  store buf i v = Some buf' -> load buf' i = Some v.
Proof.
  unfold store, load. case_decide as Hi; [|discriminate].
  intros [= <-]. rewrite decide_True by lia.
  apply list_lookup_insert_eq. lia.
Qed.

Lemma load_store_ne buf buf' i j v :
  store buf i v = Some buf' -> i <> j -> load buf' j = load buf j.
Proof.
  unfold store, load. case_decide as Hi; [|discriminate].
  intros [= <-] Hne. case_decide; [|done].
  apply list_lookup_insert_ne. lia.
Qed.

Lemma store_None buf i v w : store buf i v = None -> store buf i w = None.
Proof. unfold store. by case_decide. Qed.

Lemma store_store buf buf1 i v w :
  store buf i v = Some buf1 -> store buf1 i w = store buf i w.
Proof.
  unfold store. case_decide as Hi; [|discriminate].
  intros [= <-]. rewrite length_insert.
  rewrite decide_True by done. by rewrite list_insert_insert_eq.
Qed.
End MemoryFacts.

(** ** Loops *)

Section LoopFacts.
Context {S : Type}.
Implicit Types (body : Z -> S -> option S) (s : S).

Lemma for_iter_ext body1 body2 n i s :
  (forall j t, body1 j t = body2 j t) ->
  for_iter n i body1 s = for_iter n i body2 s.
Proof.
  intros Hb. revert i s. induction n as [|n IH]; intros i s; [done|].
  simpl. rewrite Hb. destruct (body2 i s); simpl; [apply IH|done].
Qed.

Lemma for_loop_ext body1 body2 lo hi s :
  (forall j t, body1 j t = body2 j t) ->
  for_loop lo hi body1 s = for_loop lo hi body2 s.
Proof. apply for_iter_ext. Qed.

Lemma for_loop_empty body lo hi s : hi <= lo -> for_loop lo hi body s = Some s.
Proof.
  intros Hle. unfold for_loop. by replace (Z.to_nat (hi - lo)) with O by lia.
Qed.

(** The loop rule: an invariant indexed by the loop counter, kept by every
    iteration, holds at exit, and the loop does exit with a state. *)
Lemma for_loop_inv (P : Z -> S -> Prop) body lo hi s :
  P lo s ->
  (forall i t, lo <= i < hi -> P i t ->
               exists t', body i t = Some t' /\ P (i + 1) t') ->
  exists s', for_loop lo hi body s = Some s' /\ P (Z.max lo hi) s'.
Proof.
  unfold for_loop. remember (Z.to_nat (hi - lo)) as n eqn:Hn.
  revert lo s Hn. induction n as [|n IH]; intros lo s Hn Hlo Hstep.
  - exists s. split; [done|]. by replace (Z.max lo hi) with lo by lia.
  - destruct (Hstep lo s) as (t & Hb & Ht); [lia|done|].
    destruct (IH (lo + 1) t) as (s' & Hs' & HP); [lia|done| |].
    + intros i u Hi. apply Hstep. lia.
    + exists s'. simpl. rewrite Hb. simpl. split; [done|].
      by replace (Z.max lo hi) with (Z.max (lo + 1) hi) by lia.
Qed.

(** The rule for a row-major double loop, the invariant indexed by the
    position about to be visited. *)
Lemma sweep_2d (P : Z -> Z -> S -> Prop) (body : Z -> Z -> S -> option S)
    xlo xhi ylo yhi s :
  xlo <= xhi ->
  P xlo ylo s ->
  (forall x y t, xlo <= x < xhi -> ylo <= y < yhi -> P x y t ->
                 exists t', body y x t = Some t' /\ P (x + 1) y t') ->
  (forall y t, ylo <= y < yhi -> P xhi y t -> P xlo (y + 1) t) ->
  exists s', for_loop ylo yhi (fun y => for_loop xlo xhi (body y)) s = Some s'
             /\ P xlo (Z.max ylo yhi) s'.
Proof.
  intros Hx Hinit Hcell Hrow.
  apply (for_loop_inv (fun y => P xlo y)); [done|].
  intros y t Hy Ht.
  destruct (for_loop_inv (fun x => P x y) (body y) xlo xhi t)
    as (t' & Hrun & Hpost); [done| |].
  - intros x u Hxr Hu. by apply Hcell.
  - exists t'. split; [done|]. apply Hrow; [done|].
    by replace (Z.max xlo xhi) with xhi in Hpost by lia.
Qed.
End LoopFacts.

(** ** Arithmetic *)

Lemma F32_mul_comm (x y : float) : F32.mul x y = F32.mul y x.
Proof.
  unfold F32.mul.
  destruct x as [sx|sx| |sx mx ex], y as [sy|sy| |sy my ey]; simpl;
    rewrite ?(xorb_comm sx sy); try reflexivity.
  by rewrite Pos.mul_comm, Z.add_comm.
Qed.

(** ** The integrator *)

Section StepFacts.
Variables W H : Z.

Lemma cell_load buf x y :
  0 <= y * W + x < Z.of_nat (length buf) ->
  load buf (y * W + x) = Some (cell W buf x y).
Proof.
  intros Hr. unfold cell.
  by destruct (load_in_range buf _ Hr) as [v ->].
Qed.

Lemma index_in_range x y : in_grid W H x y -> 0 <= y * W + x < W * H.
Proof. unfold in_grid. nia. Qed.

Lemma index_inj x y x' y' :
  0 <= x < W -> 0 <= x' < W -> y * W + x = y' * W + x' -> x = x' /\ y = y'.
Proof.
  intros Hx Hx' Heq.
  assert (y = y') as -> by (destruct (Z.lt_trichotomy y y') as [?|[?|?]]; nia).
  lia.
Qed.

Lemma interior_in_grid x y : interior W H x y -> in_grid W H x y.
Proof. unfold interior, in_grid. lia. Qed.

(** The two-statement update of gridfluid.c and fluid.c stores the same
    value as the single expression of realfluid.c. *)
Lemma update_cell_same idx g :
  Gridfluid.update_cell W idx g = Realfluid.update_cell W idx g.
Proof.
  unfold Gridfluid.update_cell, Realfluid.update_cell.
  repeat (match goal with
          | |- context [load ?b ?i] => destruct (load b i) as [?|]
          end; simpl; [|done]).
  match goal with
  | |- context [store (current g) idx ?v] =>
      destruct (store (current g) idx v) as [cur1|] eqn:Hst; simpl
  end.
  - rewrite (load_store_eq _ _ _ _ Hst). simpl.
    by rewrite (store_store _ _ _ _ _ Hst).
  - by rewrite (store_None _ _ _ _ Hst).
Qed.

Lemma update_loop_same g :
  Gridfluid.update_loop W H g = Realfluid.update_loop W H g.
Proof.
  unfold Gridfluid.update_loop, Realfluid.update_loop.
  apply for_loop_ext. intros y t. apply for_loop_ext. intros x u.
  apply update_cell_same.
Qed.

Lemma cell_insert_eq buf x y v :
  0 <= y * W + x < Z.of_nat (length buf) ->
  cell W (<[Z.to_nat (y * W + x) := v]> buf) x y = v.
Proof.
  intros Hr. unfold cell, load. rewrite decide_True by lia.
  rewrite list_lookup_insert_eq by lia. done.
Qed.

Lemma cell_insert_ne buf i x y v :
  0 <= i -> i <> y * W + x ->
  cell W (<[Z.to_nat i := v]> buf) x y = cell W buf x y.
Proof.
  intros Hi Hne. unfold cell, load. case_decide; [|done].
  rewrite list_lookup_insert_ne by lia. done.
Qed.

Lemma update_cell_step g0 x y g :
  wf W H g0 -> interior W H x y -> sweep_inv W H g0 x y g ->
  exists g', Realfluid.update_cell W (y * W + x) g = Some g' /\
             sweep_inv W H g0 (x + 1) y g'.
Proof.
  intros [Hlc Hlp] Hxy (Hp & Hd & Hl & Hc).
  pose proof Hxy as [Hx Hy].
  unfold Realfluid.update_cell. rewrite Hp.
  replace (y * W + x - 1) with (y * W + (x - 1)) by lia.
  replace (y * W + x - W) with ((y - 1) * W + x) by lia.
  replace (y * W + x + W) with ((y + 1) * W + x) by lia.
  replace (y * W + x + 1) with (y * W + (x + 1)) by lia.
  assert (forall a b, in_grid W H a b -> 0 <= b * W + a < W * H) as Hidx
    by apply index_in_range.
  rewrite !cell_load by (rewrite ?Hl, ?Hlp, ?Hlc; apply Hidx; split; lia).
  simpl.
  rewrite (Hc x y) by (by apply interior_in_grid).
  rewrite decide_False by (unfold swept; lia).
  rewrite store_in_range by (rewrite Hl, Hlc; apply Hidx; split; lia).
  simpl.
  eexists. split; [done|]. repeat split; simpl; try done.
  - by rewrite length_insert.
  - intros x' y' Hin. destruct (decide (x' = x /\ y' = y)) as [[-> ->]|Hne].
    + rewrite cell_insert_eq by (rewrite Hl, Hlc; apply Hidx; split; lia).
      rewrite decide_True by (unfold swept, interior; lia).
      unfold stencil, laplacian. rewrite Hd.
      rewrite (F32_mul_comm (damping g0)).
      by rewrite (F32_mul_comm F32.c0_25).
    + rewrite cell_insert_ne; [|apply Hidx; split; lia|].
      * rewrite (Hc x' y' Hin). unfold swept, interior.
        repeat case_decide; try done; exfalso; lia.
      * intros Heq. apply Hne. destruct Hin.
        symmetry in Heq. apply index_inj in Heq; lia.
Qed.

Lemma update_row g0 y g :
  wf W H g0 -> 1 <= y <= H - 2 -> sweep_inv W H g0 1 y g ->
  exists g', for_loop 1 (W - 1) (fun x => Realfluid.update_cell W (y * W + x)) g
             = Some g' /\ sweep_inv W H g0 1 (y + 1) g'.
Proof.
  intros Hwf Hy Hinv.
  destruct (for_loop_inv (fun x => sweep_inv W H g0 x y)
              (fun x => Realfluid.update_cell W (y * W + x)) 1 (W - 1) g)
    as (g' & Hrun & Hpost); [done| |].
  - intros x t Hx Ht. apply update_cell_step; [done| |done].
    unfold interior. lia.
  - exists g'. split; [done|].
    destruct Hpost as (Hp & Hd & Hl & Hc). repeat split; try done.
    intros x' y' Hin. rewrite (Hc x' y' Hin). unfold swept, interior.
    repeat case_decide; try done; exfalso; lia.
Qed.

(** The sweep of one step: it returns, leaves [previous] and [damping]
    alone, and rewrites exactly the interior cells of [current]. *)
Lemma update_loop_spec g :
  wf W H g ->
  exists g', Realfluid.update_loop W H g = Some g' /\
    previous g' = previous g /\ damping g' = damping g /\
    length (current g') = length (current g) /\
    forall x y, in_grid W H x y ->
      cell W (current g') x y =
        if decide (interior W H x y) then stencil W g x y
        else cell W (current g) x y.
Proof.
  intros Hwf.
  destruct (for_loop_inv (fun y => sweep_inv W H g 1 y)
              (fun y => for_loop 1 (W - 1)
                          (fun x => Realfluid.update_cell W (y * W + x)))
              1 (H - 1) g)
    as (g' & Hrun & Hpost).
  - repeat split; try done. intros x y Hin.
    rewrite decide_False; [done|]. unfold swept, interior. lia.
  - intros y t Hy Ht. apply update_row; [done|lia|done].
  - exists g'. split; [done|].
    destruct Hpost as (Hp & Hd & Hl & Hc). repeat split; try done.
    intros x y Hin. rewrite (Hc x y Hin). unfold swept, interior.
    repeat case_decide; try done; exfalso; lia.
Qed.

Lemma update_fluid_same g :
  Gridfluid.update_fluid W H g = Realfluid.update_fluid W H g.
Proof.
  unfold Gridfluid.update_fluid, Realfluid.update_fluid.
  by rewrite update_loop_same.
Qed.
End StepFacts.

(** ** Point injection *)

Section InjectionFacts.
Variables W H : Z.

Lemma add_disturbance_same g x y i :
  Realfluid.add_disturbance W H g x y i = Gridfluid.add_disturbance W H g x y i.
Proof. reflexivity. Qed.

Lemma add_disturbance_outside g x y i :
  ~ interior W H x y -> Gridfluid.add_disturbance W H g x y i = Some g.
Proof.
  intros Hout. unfold Gridfluid.add_disturbance.
  rewrite decide_False; [done|]. unfold interior in Hout. lia.
Qed.

(** A point injection returns and changes at most the target cell of
    [previous], and that only when the target is interior. *)
Lemma add_disturbance_spec g x y i :
  wf W H g ->
  exists g', Gridfluid.add_disturbance W H g x y i = Some g' /\
    current g' = current g /\ damping g' = damping g /\
    length (previous g') = length (previous g) /\
    forall x' y', in_grid W H x' y' ->
      cell W (previous g') x' y' =
        if decide (interior W H x y /\ x' = x /\ y' = y)
        then F32.add (cell W (previous g) x y) i
        else cell W (previous g) x' y'.
Proof.
  intros [Hlc Hlp]. destruct (decide (interior W H x y)) as [Hin|Hout].
  - pose proof (index_in_range W H x y (interior_in_grid W H x y Hin)) as Hr.
    unfold Gridfluid.add_disturbance.
    rewrite decide_True by (unfold interior in Hin; lia). simpl.
    rewrite cell_load by lia. simpl.
    rewrite store_in_range by lia. simpl.
    eexists. split; [done|]. repeat split; simpl; try done.
    + by rewrite length_insert.
    + intros x' y' Hin'. case_decide as Hd.
      * destruct Hd as (_ & -> & ->). apply cell_insert_eq. lia.
      * apply cell_insert_ne; [lia|]. intros Heq. apply Hd.
        split; [done|]. destruct Hin' as [Hx' _]. unfold interior in Hin.
        symmetry in Heq. apply index_inj in Heq; lia.
  - rewrite add_disturbance_outside by done.
    exists g. repeat split; try done.
    intros x' y' _. rewrite decide_False; [done|]. tauto.
Qed.

Lemma add_disturbance_wf g g' x y i :
  wf W H g -> Gridfluid.add_disturbance W H g x y i = Some g' -> wf W H g'.
Proof.
  intros Hwf Hrun. destruct (add_disturbance_spec g x y i Hwf)
    as (g1 & Hrun1 & Hc & _ & Hl & _).
  rewrite Hrun in Hrun1. injection Hrun1 as <-.
  destruct Hwf. split; congruence.
Qed.
End InjectionFacts.

(** ** Radial injection of gridfluid.c *)

Section RadialFacts.
Variables (W H : Z) (cosf : float -> float).

(** On the 7 x 7 square of offsets the single-precision test
    [sqrtf (dx*dx + dy*dy) <= 3.0f] is the exact test of the disk. *)
Lemma disk3 dx dy :
  -3 <= dx <= 3 -> -3 <= dy <= 3 ->
  F32.leb (F32.sqrtf (F32.of_int (dx * dx + dy * dy))) F32.c3
  = bool_decide (dx * dx + dy * dy <= 9).
Proof.
  intros Hdx Hdy.
  assert (dx = -3 \/ dx = -2 \/ dx = -1 \/ dx = 0 \/ dx = 1 \/ dx = 2 \/ dx = 3)
    as Hx by lia.
  assert (dy = -3 \/ dy = -2 \/ dy = -1 \/ dy = 0 \/ dy = 1 \/ dy = 2 \/ dy = 3)
    as Hy by lia.
  clear Hdx Hdy.
  repeat (destruct Hx as [->|Hx]); try subst dx;
    repeat (destruct Hy as [->|Hy]); try subst dy; vm_compute; reflexivity.
Qed.

Lemma disk3_square a b :
  a * a + b * b <= 9 -> -3 <= a <= 3 /\ -3 <= b <= 3.
Proof. nia. Qed.

Lemma add_velocity_field_spec g x y i :
  wf W H g ->
  x >= 2 /\ x < W - 2 /\ y >= 2 /\ y < H - 2 ->
  exists g', Gridfluid.add_velocity_field W H cosf g x y i = Some g' /\
    wf W H g' /\ current g' = current g /\ damping g' = damping g /\
    forall x' y', in_grid W H x' y' ->
      cell W (previous g') x' y' =
        if decide (interior W H x' y' /\
                   (x' - x) * (x' - x) + (y' - y) * (y' - y) <= 9)
        then F32.add (cell W (previous g) x' y')
                     (F32.mul i (Gridfluid.wave cosf (x' - x) (y' - y)))
        else cell W (previous g) x' y'.
Proof.
  intros Hwf Hguard. unfold Gridfluid.add_velocity_field.
  rewrite decide_True by done.
  pose (P := fun dx dy (t : FluidGrid) =>
    wf W H t /\ current t = current g /\ damping t = damping g /\
    forall x' y', in_grid W H x' y' ->
      cell W (previous t) x' y' =
        if decide (interior W H x' y' /\
                   (x' - x) * (x' - x) + (y' - y) * (y' - y) <= 9 /\
                   -3 <= x' - x <= 3 /\ -3 <= y' - y <= 3 /\
                   (y' - y < dy \/ (y' - y = dy /\ x' - x < dx)))
        then F32.add (cell W (previous g) x' y')
                     (F32.mul i (Gridfluid.wave cosf (x' - x) (y' - y)))
        else cell W (previous g) x' y').
  destruct (sweep_2d P
    (fun dy dx fluid =>
       if F32.leb (F32.sqrtf (F32.of_int (dx * dx + dy * dy))) F32.c3
       then Gridfluid.add_disturbance W H fluid (x + dx) (y + dy)
              (F32.mul i (Gridfluid.wave cosf dx dy))
       else Some fluid) (-3) 4 (-3) 4 g) as (g' & Hrun & Hpost).
  - lia.
  - do 3 (split; [done|]).
    intros x' y' _. rewrite decide_False; [done|]. lia.
  - intros dx dy t Hdx Hdy (Hwt & Hct & Hdt & Hcell).
    rewrite disk3 by lia. case_bool_decide as Hdisk.
    + destruct (decide (interior W H (x + dx) (y + dy))) as [Hint|Hout].
      * destruct (add_disturbance_spec W H t (x + dx) (y + dy)
                    (F32.mul i (Gridfluid.wave cosf dx dy)) Hwt)
          as (t' & Hrun & Hc' & Hd' & Hl' & Hcell').
        exists t'. split; [done|]. repeat split; try congruence.
        -- rewrite Hc'. apply Hwt.
        -- destruct Hwt. lia.
        -- intros x' y' Hin. rewrite (Hcell' x' y' Hin).
           case_decide as Hhit.
           ++ destruct Hhit as (_ & -> & ->).
              rewrite (Hcell (x + dx) (y + dy) Hin).
              rewrite decide_False by lia.
              rewrite decide_True by (split; [done|lia]).
              by replace (x + dx - x) with dx by lia;
                 replace (y + dy - y) with dy by lia.
           ++ rewrite (Hcell x' y' Hin). unfold interior in *.
              repeat case_decide; try done; exfalso; lia.
      * rewrite add_disturbance_outside by done.
        exists t. split; [done|]. do 3 (split; [done|]).
        intros x' y' Hin. rewrite (Hcell x' y' Hin). unfold interior in *.
        repeat case_decide; try done; exfalso; lia.
    + exists t. split; [done|]. do 3 (split; [done|]).
      intros x' y' Hin. rewrite (Hcell x' y' Hin). unfold interior in *.
      repeat case_decide; try done; exfalso;
        (assert (x' - x = dx /\ y' - y = dy) as [Hex Hey] by lia);
        rewrite Hex, Hey in *; lia.
  - intros dy t Hdy (Hwt & Hct & Hdt & Hcell). do 3 (split; [done|]).
    intros x' y' Hin. rewrite (Hcell x' y' Hin). unfold interior in *.
    repeat case_decide; try done; exfalso; lia.
  - exists g'. split; [done|]. destruct Hpost as (Hwt & Hct & Hdt & Hcell).
    do 3 (split; [done|]).
    intros x' y' Hin. rewrite (Hcell x' y' Hin). unfold interior in *.
    repeat case_decide; try done; exfalso;
      try match goal with
          | Hd : _ /\ ?a * ?a + ?b * ?b <= 9 |- _ =>
              pose proof (disk3_square a b (proj2 Hd))
          end; lia.
Qed.
End RadialFacts.

(** ** Wide point injection of fluid.c *)

Section WideFacts.
Variables W H : Z.

Lemma wide_add_disturbance_spec g x y i :
  wf W H g -> interior W H x y ->
  exists g', Fluid.add_disturbance W H g x y i = Some g' /\
    wf W H g' /\ current g' = current g /\ damping g' = damping g /\
    forall x' y', in_grid W H x' y' ->
      cell W (previous g') x' y' =
        if decide (x' = x /\ y' = y)
        then F32.add (cell W (previous g) x y) i
        else if decide (-1 <= x' - x <= 1 /\ -1 <= y' - y <= 1)
        then F32.add (cell W (previous g) x' y') (F32.mul i F32.c0_5)
        else cell W (previous g) x' y'.
Proof.
  intros [Hlc Hlp] Hxy. pose proof Hxy as [Hx Hy].
  assert (forall a b, in_grid W H a b -> 0 <= b * W + a < W * H) as Hidx
    by apply index_in_range.
  unfold Fluid.add_disturbance.
  rewrite decide_True by lia. simpl.
  rewrite cell_load by (rewrite Hlp; apply Hidx; split; lia). simpl.
  rewrite store_in_range by (rewrite Hlp; apply Hidx; split; lia). simpl.
  set (p0 := <[Z.to_nat (y * W + x) := F32.add (cell W (previous g) x y) i]>
               (previous g)).
  pose (P := fun dx dy (prev : list float) =>
    length prev = length (previous g) /\
    forall x' y', in_grid W H x' y' ->
      cell W prev x' y' =
        if decide (x' = x /\ y' = y)
        then F32.add (cell W (previous g) x y) i
        else if decide (-1 <= x' - x <= 1 /\ -1 <= y' - y <= 1 /\
                        (y' - y < dy \/ (y' - y = dy /\ x' - x < dx)))
        then F32.add (cell W (previous g) x' y') (F32.mul i F32.c0_5)
        else cell W (previous g) x' y').
  destruct (sweep_2d P
    (fun dy dx prev =>
       if decide (dx = 0 /\ dy = 0) then Some prev
       else
         q ← load prev ((y + dy) * W + (x + dx));
         store prev ((y + dy) * W + (x + dx))
           (F32.add q (F32.mul i F32.c0_5))) (-1) 2 (-1) 2 p0)
    as (p' & Hrun & Hlen & Hcell).
  - lia.
  - split; [apply length_insert|]. intros x' y' Hin.
    case_decide as Hc.
    + destruct Hc as [-> ->]. apply cell_insert_eq.
      rewrite Hlp. by apply Hidx.
    + rewrite decide_False by lia. apply cell_insert_ne.
      * apply Hidx. split; lia.
      * intros Heq. apply Hc. destruct Hin.
        symmetry in Heq. apply index_inj in Heq; lia.
  - intros dx dy prev Hdx Hdy [Hl Hc]. case_decide as Hz.
    + exists prev. split; [done|]. split; [done|].
      intros x' y' Hin. rewrite (Hc x' y' Hin).
      repeat case_decide; try done; exfalso; lia.
    + assert (in_grid W H (x + dx) (y + dy)) as Hn by (split; lia).
      rewrite cell_load by (rewrite Hl, Hlp; by apply Hidx). simpl.
      rewrite store_in_range by (rewrite Hl, Hlp; by apply Hidx).
      eexists. split; [done|]. split; [by rewrite length_insert|].
      intros x' y' Hin.
      destruct (decide (x' = x + dx /\ y' = y + dy)) as [[-> ->]|Hne].
      * rewrite cell_insert_eq by (rewrite Hl, Hlp; by apply Hidx).
        rewrite (Hc _ _ Hn).
        repeat case_decide; try done; exfalso; lia.
      * rewrite cell_insert_ne.
        -- rewrite (Hc x' y' Hin).
           repeat case_decide; try done; exfalso; lia.
        -- apply Hidx in Hn. lia.
        -- intros Heq. apply Hne. destruct Hin, Hn.
           symmetry in Heq. apply index_inj in Heq; lia.
  - intros dy prev Hdy [Hl Hc]. split; [done|].
    intros x' y' Hin. rewrite (Hc x' y' Hin).
    repeat case_decide; try done; exfalso; lia.
  - rewrite Hrun. simpl. eexists. split; [done|].
    split; [split; simpl; lia|]. do 2 (split; [done|]). simpl.
    intros x' y' Hin. rewrite (Hcell x' y' Hin).
    repeat case_decide; try done; exfalso; lia.
Qed.
End WideFacts.

(** ** Binary32 rounding

    Integer facts about the rounding functions of [SpecFloat], enough to
    bound what the colour mappers compute. *)

Section Digits.

Lemma digits2_size (p : positive) : digits2_pos p = Pos.size p.
Proof. induction p as [p IH|p IH|]; simpl; by rewrite ?IH. Qed.

Lemma digits2_bounds (p : positive) :
  2 ^ (Z.pos (digits2_pos p) - 1) <= Z.pos p < 2 ^ Z.pos (digits2_pos p).
Proof.
  rewrite digits2_size. split.
  - pose proof (Pos.size_le p) as Hle.
    assert (2 ^ Z.pos (Pos.size p) <= 2 * Z.pos p) as Hz.
    { change 2 with (Z.pos 2) at 1. rewrite <- Pos2Z.inj_pow. 
      change (2 * Z.pos p) with (Z.pos p~0). by apply Pos2Z.pos_le_pos. }
    replace (Z.pos (Pos.size p)) with (Z.succ (Z.pos (Pos.size p) - 1)) in Hz
      by lia.
    rewrite Z.pow_succ_r in Hz by lia. lia.
  - pose proof (Pos.size_gt p) as Hgt.
    change 2 with (Z.pos 2). rewrite <- Pos2Z.inj_pow. by apply Pos2Z.pos_lt_pos.
Qed.

Lemma Zdigits2_bounds (m : Z) :
  0 < m -> 2 ^ (Zdigits2 m - 1) <= m < 2 ^ Zdigits2 m.
Proof. destruct m as [|p|p]; try lia. intros _. apply digits2_bounds. Qed.

Lemma Zdigits2_pos (m : Z) : 0 < m -> 0 < Zdigits2 m.
Proof. destruct m; simpl; lia. Qed.

Lemma Zdigits2_unique (m d : Z) :
  2 ^ (d - 1) <= m < 2 ^ d -> 0 < m -> Zdigits2 m = d.
Proof.
  intros [Hlo Hhi] Hm. pose proof (Zdigits2_bounds m Hm) as [Hlo' Hhi'].
  pose proof (Zdigits2_pos m Hm) as Hd.
  destruct (Z.lt_trichotomy (Zdigits2 m) d) as [Hlt|[Heq|Hgt]]; [|done|].
  - assert (2 ^ Zdigits2 m <= 2 ^ (d - 1)) by (apply Z.pow_le_mono_r; lia). lia.
  - assert (d < 0 \/ 0 <= d) as [Hn|Hn] by lia.
    + rewrite (Z.pow_neg_r 2 d) in Hhi by lia. lia.
    + assert (2 ^ d <= 2 ^ (Zdigits2 m - 1)) by (apply Z.pow_le_mono_r; lia). lia.
Qed.

Lemma Zdigits2_shiftr (m k : Z) :
  0 < m -> 0 <= k < Zdigits2 m -> Zdigits2 (m / 2 ^ k) = Zdigits2 m - k.
Proof.
  intros Hm Hk. pose proof (Zdigits2_bounds m Hm) as [Hlo Hhi].
  assert (0 < 2 ^ k) as Hp by (apply Z.pow_pos_nonneg; lia).
  assert (2 ^ (Zdigits2 m - 1) = 2 ^ (Zdigits2 m - k - 1) * 2 ^ k) as E1
    by (rewrite <- Z.pow_add_r by lia; f_equal; lia).
  assert (2 ^ Zdigits2 m = 2 ^ (Zdigits2 m - k) * 2 ^ k) as E2
    by (rewrite <- Z.pow_add_r by lia; f_equal; lia).
  assert (2 ^ (Zdigits2 m - k - 1) <= m / 2 ^ k).
  { apply Z.div_le_lower_bound; [done|]. lia. }
  assert (m / 2 ^ k < 2 ^ (Zdigits2 m - k)).
  { apply Z.div_lt_upper_bound; [done|]. lia. }
  assert (0 < 2 ^ (Zdigits2 m - k - 1)) by (apply Z.pow_pos_nonneg; lia).
  apply Zdigits2_unique; lia.
Qed.

Lemma shiftr_small (m k : Z) : 0 <= m -> Zdigits2 m <= k -> m / 2 ^ k = 0.
Proof.
  intros Hm Hk. destruct (Z.eq_dec m 0) as [->|Hne].
  - apply Z.div_0_l. assert (0 <= k) by (simpl in Hk; lia).
    apply Z.pow_nonzero; lia.
  - assert (0 < m) as Hp by lia. pose proof (Zdigits2_bounds m Hp) as [_ Hhi].
    pose proof (Zdigits2_pos m Hp).
    apply Z.div_small. split; [lia|].
    assert (2 ^ Zdigits2 m <= 2 ^ k) by (apply Z.pow_le_mono_r; lia). lia.
Qed.

Lemma Zdigits2_succ (m : Z) :
  0 < m ->
  Zdigits2 (m + 1) = Zdigits2 m \/
  (m + 1 = 2 ^ Zdigits2 m /\ Zdigits2 (m + 1) = Zdigits2 m + 1).
Proof.
  intros Hm. pose proof (Zdigits2_bounds m Hm) as [Hlo Hhi].
  pose proof (Zdigits2_pos m Hm) as Hd.
  destruct (Z.eq_dec (m + 1) (2 ^ Zdigits2 m)) as [Heq|Hne].
  - right. split; [done|]. apply Zdigits2_unique; [|lia].
    replace (Zdigits2 m + 1 - 1) with (Zdigits2 m) by lia.
    rewrite Z.pow_add_r by lia. lia.
  - left. apply Zdigits2_unique; lia.
Qed.

End Digits.

Section Rounding.

Lemma fexp32 (x : Z) : fexp F32.prec F32.emax x = Z.max (x - 24) (-149).
Proof. reflexivity. Qed.

Lemma shr_1_m (r : shr_record) : 0 <= shr_m r -> shr_m (shr_1 r) = shr_m r / 2.
Proof.
  destruct r as [m b s]. simpl. intros Hm. rewrite <- Z.div2_div.
  by destruct m as [|[p|p|]|p]; try lia.
Qed.

Lemma shr_iter_m (p : positive) (r : shr_record) :
  0 <= shr_m r -> shr_m (SpecFloat.iter_pos shr_1 p r) = shr_m r / 2 ^ Z.pos p.
Proof.
  revert r. induction p as [p IH|p IH|]; intros r Hr; simpl.
  - assert (0 <= shr_m r / 2) as H1 by (apply Z.div_pos; lia).
    assert (0 < 2 ^ Z.pos p) as Hp by (apply Z.pow_pos_nonneg; lia).
    assert (0 <= shr_m r / 2 / 2 ^ Z.pos p) as H2 by (apply Z.div_pos; lia).
    rewrite IH by (rewrite IH, shr_1_m; done || by rewrite shr_1_m).
    rewrite IH by (by rewrite shr_1_m). rewrite shr_1_m by done.
    rewrite !Z.div_div by lia. f_equal.
    rewrite Pos2Z.inj_xI.
    replace (2 * Z.pos p + 1) with (1 + Z.pos p + Z.pos p) by lia.
    rewrite !Z.pow_add_r by lia. rewrite Z.pow_1_r. lia.
  - assert (0 < 2 ^ Z.pos p) as Hp by (apply Z.pow_pos_nonneg; lia).
    assert (0 <= shr_m r / 2 ^ Z.pos p) as H2 by (apply Z.div_pos; lia).
    rewrite IH by (by rewrite IH). rewrite IH by done.
    rewrite Z.div_div by lia. f_equal.
    rewrite Pos2Z.inj_xO. rewrite <- Z.pow_add_r by lia. f_equal. lia.
  - rewrite shr_1_m by done. by rewrite Z.pow_1_r.
Qed.

Lemma shr_record_of_loc_m (m : Z) (l : location) :
  shr_m (shr_record_of_loc m l) = m.
Proof. by destruct l as [|[]]. Qed.

Lemma shr_fexp_m (m e : Z) (l : location) :
  0 <= m ->
  let k := Z.max 0 (fexp F32.prec F32.emax (Zdigits2 m + e) - e) in
  shr_m (fst (shr_fexp F32.prec F32.emax m e l)) = m / 2 ^ k /\
  snd (shr_fexp F32.prec F32.emax m e l) = e + k.
Proof.
  intros Hm k. unfold shr_fexp, shr. subst k.
  destruct (fexp F32.prec F32.emax (Zdigits2 m + e) - e) as [|p|p] eqn:Hk; simpl.
  - rewrite shr_record_of_loc_m, Z.div_1_r. lia.
  - rewrite shr_iter_m by (rewrite shr_record_of_loc_m; lia).
    rewrite shr_record_of_loc_m. rewrite Z.max_r by lia. split; [done|lia].
  - rewrite shr_record_of_loc_m, Z.div_1_r. lia.
Qed.

Lemma round_nearest_even_bounds (m : Z) (l : location) :
  round_nearest_even m l = m \/ round_nearest_even m l = m + 1.
Proof. destruct l as [|[]]; simpl; auto. destruct (Z.even m); auto. Qed.

Lemma canonical_intro (p : positive) (e : Z) :
  fexp F32.prec F32.emax (Zdigits2 (Z.pos p) + e) = e ->
  canonical_mantissa F32.prec F32.emax p e = true.
Proof. intros He. unfold canonical_mantissa. simpl in He. rewrite He. apply Z.eqb_refl. Qed.

Lemma binary_round_aux_valid (s : bool) (m e : Z) (l : location) :
  0 < m -> e <= fexp F32.prec F32.emax (Zdigits2 m + e) ->
  valid (binary_round_aux F32.prec F32.emax s m e l).
Proof.
  intros Hm Hpre. unfold valid, binary_round_aux.
  pose proof (shr_fexp_m m e l ltac:(lia)) as [Hm1 He1]. simpl in Hm1, He1.
  destruct (shr_fexp F32.prec F32.emax m e l) as [r1 e1]. simpl in Hm1, He1.
  assert (round_nearest_even (shr_m r1) (loc_of_shr_record r1) = shr_m r1 \/
          round_nearest_even (shr_m r1) (loc_of_shr_record r1) = shr_m r1 + 1)
    as Hround by apply round_nearest_even_bounds.
  remember (round_nearest_even (shr_m r1) (loc_of_shr_record r1)) as m1'
    eqn:Hdef. clear Hdef.
  assert (0 <= shr_m r1) as Hm1pos.
  { rewrite Hm1. apply Z.div_pos; [lia|]. apply Z.pow_pos_nonneg; lia. }
  pose proof (shr_fexp_m m1' e1 loc_Exact ltac:(lia)) as [Hm2 He2].
  simpl in Hm2, He2.
  destruct (shr_fexp F32.prec F32.emax m1' e1 loc_Exact) as [r2 e2].
  simpl in Hm2, He2.
  destruct (shr_m r2) as [|p|p] eqn:Hr2; [done| |done].
  destruct (e2 <=? F32.emax - F32.prec) eqn:Hle; [|done].
  unfold valid_binary, bounded. rewrite Hle, andb_true_r.
  apply canonical_intro. rewrite <- Hr2. rewrite <- Hr2 in Hm2.
  assert (0 < shr_m r2) as Hpos2 by lia.
  clear Hle Hr2. rewrite fexp32 in *.
  remember (Zdigits2 m) as d eqn:Hdd.
  assert (0 < d) as Hd by (rewrite Hdd; by apply Zdigits2_pos).
  remember (Z.max 0 (Z.max (d + e - 24) (-149) - e)) as k eqn:Hkdef.
  assert (0 <= k) as Hk by lia.
  destruct (Z.lt_ge_cases k d) as [Hkd|Hkd].
  - (* the first shift leaves a non-zero mantissa *)
    assert (Zdigits2 (shr_m r1) = d - k) as Hd1
      by (rewrite Hm1, Hdd; apply Zdigits2_shiftr; [done|lia]).
    assert (0 < shr_m r1) as Hpos1.
    { destruct (Z.eq_dec (shr_m r1) 0) as [Hz|]; [|lia].
      rewrite Hz in Hd1. simpl in Hd1. lia. }
    assert (Zdigits2 m1' = d - k \/
            (m1' = 2 ^ (d - k) /\ Zdigits2 m1' = d - k + 1)) as [Hd1'|[Hpow Hd1']].
    { destruct Hround as [-> | ->]; [by left|].
      destruct (Zdigits2_succ (shr_m r1) Hpos1) as [Hsame|[Hpow Hcarry]].
      - left. lia.
      - right. rewrite Hcarry, Hpow, Hd1. done. }
    + rewrite Hd1' in Hm2, He2. rewrite Z.max_l in Hm2, He2 by lia.
      rewrite Z.pow_0_r, Z.div_1_r in Hm2. rewrite Hm2, Hd1'. lia.
    + rewrite Hd1' in Hm2, He2.
      destruct (Z.le_gt_cases (-149) (d + e - 24)) as [Hn|Hs].
      * replace (Z.max 0 (Z.max (d - k + 1 + e1 - 24) (-149) - e1)) with 1
          in Hm2, He2 by lia.
        assert (shr_m r2 = 2 ^ (d - k - 1)) as Hv.
        { rewrite Hm2, Hpow. change (2 ^ 1) with 2.
          replace (d - k) with (Z.succ (d - k - 1)) at 1 by lia.
          rewrite Z.pow_succ_r by lia. rewrite Z.mul_comm, Z.div_mul by lia.
          done. }
        assert (0 < 2 ^ (d - k - 1)) by (apply Z.pow_pos_nonneg; lia).
        rewrite (Zdigits2_unique (shr_m r2) (d - k)); [lia| |lia].
        rewrite Hv. split; [lia|]. apply Z.pow_lt_mono_r; lia.
      * rewrite Z.max_l in Hm2, He2 by lia.
        rewrite Z.pow_0_r, Z.div_1_r in Hm2.
        rewrite Hm2, Hd1'. lia.
  - (* the first shift leaves nothing *)
    assert (shr_m r1 = 0) as Hz
      by (rewrite Hm1; apply shiftr_small; [lia|by rewrite <- Hdd]).
    rewrite Hz in Hround. destruct Hround as [->| ->].
    + simpl in Hm2. rewrite Z.div_0_l in Hm2; [lia|].
      apply Z.pow_nonzero; lia.
    + simpl in Hm2, He2. rewrite Z.max_l in Hm2, He2 by lia.
      rewrite Z.pow_0_r, Z.div_1_r in Hm2. rewrite Hm2. simpl. lia.
Qed.

End Rounding.

Section Bounds.

Lemma Zdigits2_le_pow (m a : Z) : 0 < m -> 0 <= a -> m <= 2 ^ a -> Zdigits2 m <= a + 1.
Proof.
  intros Hm Ha Hle. pose proof (Zdigits2_bounds m Hm) as [Hlo _].
  pose proof (Zdigits2_pos m Hm).
  destruct (Z.le_gt_cases (Zdigits2 m) (a + 1)) as [|Hgt]; [done|].
  assert (2 ^ (a + 1) <= 2 ^ (Zdigits2 m - 1)) by (apply Z.pow_le_mono_r; lia).
  rewrite Z.pow_add_r in * by lia. 
  assert (0 < 2 ^ a) by (apply Z.pow_pos_nonneg; lia). lia.
Qed.

Lemma Zdigits2_lt_pow (m a : Z) : 0 < m -> 0 <= a -> m < 2 ^ a -> Zdigits2 m <= a.
Proof.
  intros Hm Ha Hlt. pose proof (Zdigits2_bounds m Hm) as [Hlo _].
  pose proof (Zdigits2_pos m Hm).
  destruct (Z.le_gt_cases (Zdigits2 m) a) as [|Hgt]; [done|].
  assert (2 ^ a <= 2 ^ (Zdigits2 m - 1)) by (apply Z.pow_le_mono_r; lia).
  lia.
Qed.

Lemma binary_round_aux_at_most (m e : Z) (l : location) (n : Z) :
  0 < m -> e <= -1 -> 0 < n <= 2 ^ 23 -> m < n * 2 ^ (- e) ->
  at_most n (binary_round_aux F32.prec F32.emax false m e l).
Proof.
  intros Hm He Hn Hlt. unfold binary_round_aux.
  pose proof (shr_fexp_m m e l ltac:(lia)) as [Hm1 He1]. simpl in Hm1, He1.
  destruct (shr_fexp F32.prec F32.emax m e l) as [r1 e1]. simpl in Hm1, He1.
  assert (round_nearest_even (shr_m r1) (loc_of_shr_record r1) = shr_m r1 \/
          round_nearest_even (shr_m r1) (loc_of_shr_record r1) = shr_m r1 + 1)
    as Hround by apply round_nearest_even_bounds.
  remember (round_nearest_even (shr_m r1) (loc_of_shr_record r1)) as m1'
    eqn:Hdef. clear Hdef.
  assert (0 <= shr_m r1) as Hm1pos.
  { rewrite Hm1. apply Z.div_pos; [lia|]. apply Z.pow_pos_nonneg; lia. }
  pose proof (shr_fexp_m m1' e1 loc_Exact ltac:(lia)) as [Hm2 He2].
  simpl in Hm2, He2.
  destruct (shr_fexp F32.prec F32.emax m1' e1 loc_Exact) as [r2 e2].
  simpl in Hm2, He2. rewrite fexp32 in *.
  remember (Z.max 0 (Z.max (Zdigits2 m + e - 24) (-149) - e)) as k eqn:Hk.
  remember (Z.max 0 (Z.max (Zdigits2 m1' + e1 - 24) (-149) - e1)) as k2 eqn:Hk2.
  assert (0 < 2 ^ (- e)) as Hpe by (apply Z.pow_pos_nonneg; lia).
  (* the exponent after the first shift is negative *)
  assert (Zdigits2 m + e <= 23) as Hde.
  { assert (m < 2 ^ (23 - e)).
    { replace (23 - e) with (23 + - e) by lia. rewrite Z.pow_add_r by lia.
      assert (n * 2 ^ (- e) <= 2 ^ 23 * 2 ^ (- e))
        by (apply Z.mul_le_mono_nonneg_r; lia).
      lia. }
    pose proof (Zdigits2_lt_pow m (23 - e) Hm ltac:(lia) ltac:(done)). lia. }
  assert (e1 <= -1) as He1neg by lia.
  assert (0 < 2 ^ k) as Hpk by (apply Z.pow_pos_nonneg; lia).
  assert (0 < 2 ^ (- e1)) as Hpe1 by (apply Z.pow_pos_nonneg; lia).
  assert (2 ^ (- e) = 2 ^ (- e1) * 2 ^ k) as Hsplit
    by (rewrite <- Z.pow_add_r by lia; f_equal; lia).
  assert (shr_m r1 < n * 2 ^ (- e1)) as Hb1.
  { rewrite Hm1. apply Z.div_lt_upper_bound; [done|]. rewrite Hsplit in Hlt. lia. }
  assert (m1' <= n * 2 ^ (- e1)) as Hb1' by lia.
  assert (0 <= m1') as Hm1'pos by lia.
  (* the exponent after the second shift is not positive *)
  assert (e2 <= 0) as He2neg.
  { destruct (Z.eq_dec m1' 0) as [->|Hnz]; [simpl in Hk2; lia|].
    assert (m1' <= 2 ^ (23 - e1)).
    { replace (23 - e1) with (23 + - e1) by lia. rewrite Z.pow_add_r by lia.
      assert (n * 2 ^ (- e1) <= 2 ^ 23 * 2 ^ (- e1))
        by (apply Z.mul_le_mono_nonneg_r; lia).
      lia. }
    pose proof (Zdigits2_le_pow m1' (23 - e1) ltac:(lia) ltac:(lia) ltac:(done)).
    lia. }
  assert (0 < 2 ^ k2) as Hpk2 by (apply Z.pow_pos_nonneg; lia).
  assert (0 < 2 ^ (- e2)) as Hpe2 by (apply Z.pow_pos_nonneg; lia).
  assert (2 ^ (- e1) = 2 ^ (- e2) * 2 ^ k2) as Hsplit2
    by (rewrite <- Z.pow_add_r by lia; f_equal; lia).
  assert (shr_m r2 <= n * 2 ^ (- e2)) as Hb2.
  { rewrite Hm2. apply Z.div_le_upper_bound; [done|]. rewrite Hsplit2 in Hb1'. lia. }
  assert (0 <= shr_m r2) as Hm2pos by (rewrite Hm2; apply Z.div_pos; lia).
  destruct (shr_m r2) as [|p|p] eqn:Hr2; [done| |lia].
  replace (e2 <=? F32.emax - F32.prec) with true
    by (symmetry; apply Z.leb_le; unfold F32.emax, F32.prec; lia).
  simpl. done.
Qed.

End Bounds.

Section Align.

Lemma iter_xO (m d : positive) : Z.pos (Pos.iter xO m d) = Z.pos m * 2 ^ Z.pos d.
Proof.
  induction d as [|d IH] using Pos.peano_ind.
  - simpl. lia.
  - rewrite Pos.iter_succ, Pos2Z.inj_succ, Z.pow_succ_r by lia.
    rewrite Pos2Z.inj_xO, IH. lia.
Qed.

Lemma shl_align_spec (m : positive) (e e' : Z) :
  snd (shl_align m e e') = Z.min e e' /\
  Z.pos (fst (shl_align m e e')) = Z.pos m * 2 ^ (e - Z.min e e').
Proof.
  unfold shl_align. destruct (e' - e) as [|d|d] eqn:Hd; simpl.
  - rewrite Z.min_l by lia. rewrite Z.sub_diag. lia.
  - rewrite Z.min_l by lia. rewrite Z.sub_diag. lia.
  - rewrite Z.min_r by lia. split; [done|]. rewrite iter_xO. f_equal. f_equal. lia.
Qed.

Lemma Zdigits2_shiftl (m j : Z) :
  0 < m -> 0 <= j -> Zdigits2 (m * 2 ^ j) = Zdigits2 m + j.
Proof.
  intros Hm Hj. pose proof (Zdigits2_bounds m Hm) as [Hlo Hhi].
  pose proof (Zdigits2_pos m Hm).
  assert (0 < 2 ^ j) by (apply Z.pow_pos_nonneg; lia).
  apply Zdigits2_unique; [|lia].
  replace (Zdigits2 m + j - 1) with (Zdigits2 m - 1 + j) by lia.
  rewrite !Z.pow_add_r by lia. nia.
Qed.

Lemma binary_round_valid (s : bool) (m : positive) (e : Z) :
  valid (binary_round F32.prec F32.emax s m e).
Proof.
  unfold binary_round.
  pose proof (shl_align_spec m e
                (fexp F32.prec F32.emax (Z.pos (digits2_pos m) + e))) as [He Hm].
  destruct (shl_align m e _) as [mz ez]. simpl in He, Hm.
  apply binary_round_aux_valid; [lia|].
  rewrite Hm, Zdigits2_shiftl by lia. simpl.
  replace (Z.pos (digits2_pos m) + (e - Z.min e _) + ez)
    with (Z.pos (digits2_pos m) + e) by lia.
  lia.
Qed.

Lemma binary_round_at_most (m : positive) (e n : Z) :
  e <= -1 -> 0 < n <= 2 ^ 23 -> Z.pos m < n * 2 ^ (- e) ->
  at_most n (binary_round F32.prec F32.emax false m e).
Proof.
  intros He Hn Hlt. unfold binary_round.
  pose proof (shl_align_spec m e
                (fexp F32.prec F32.emax (Z.pos (digits2_pos m) + e))) as [Hez Hm].
  destruct (shl_align m e _) as [mz ez]. simpl in Hez, Hm.
  apply binary_round_aux_at_most; [lia|lia|done|].
  rewrite Hm, <- Hez.
  assert (0 < 2 ^ (e - ez)) by (apply Z.pow_pos_nonneg; lia).
  replace (- ez) with (- e + (e - ez)) by lia.
  rewrite Z.pow_add_r by lia. nia.
Qed.

Lemma binary_normalize_valid (m e : Z) (s : bool) :
  valid (binary_normalize F32.prec F32.emax m e s).
Proof. destruct m; [done| |]; apply binary_round_valid. Qed.

End Align.

Section Closure.

Lemma valid_digits (s : bool) (m : positive) (e : Z) :
  valid (S754_finite s m e) ->
  Z.max (Zdigits2 (Z.pos m) + e - 24) (-149) = e /\ e <= 104.
Proof.
  unfold valid, valid_binary, bounded, canonical_mantissa.
  intros [Hc He]%andb_true_iff. apply Z.eqb_eq in Hc. apply Z.leb_le in He.
  rewrite fexp32 in Hc. split; [done|]. unfold F32.emax, F32.prec in He. lia.
Qed.

Lemma Zdigits2_mul (a b : Z) :
  0 < a -> 0 < b -> Zdigits2 a + Zdigits2 b - 1 <= Zdigits2 (a * b).
Proof.
  intros Ha Hb.
  pose proof (Zdigits2_bounds a Ha) as [Hla _].
  pose proof (Zdigits2_bounds b Hb) as [Hlb _].
  pose proof (Zdigits2_bounds (a * b) ltac:(lia)) as [_ Hh].
  pose proof (Zdigits2_pos a Ha). pose proof (Zdigits2_pos b Hb).
  pose proof (Zdigits2_pos (a * b) ltac:(lia)).
  assert (2 ^ (Zdigits2 a - 1 + (Zdigits2 b - 1)) < 2 ^ Zdigits2 (a * b)) as Hlt.
  { rewrite Z.pow_add_r by lia.
    assert (0 < 2 ^ (Zdigits2 a - 1)) by (apply Z.pow_pos_nonneg; lia).
    assert (0 < 2 ^ (Zdigits2 b - 1)) by (apply Z.pow_pos_nonneg; lia).
    nia. }
  apply Z.pow_lt_mono_r_iff in Hlt; lia.
Qed.

Lemma valid_mul (x y : float) : valid x -> valid y -> valid (F32.mul x y).
Proof.
  destruct x as [sx|sx| |sx mx ex], y as [sy|sy| |sy my ey]; try done.
  intros [Hx _]%valid_digits [Hy _]%valid_digits.
  apply binary_round_aux_valid; [lia|]. rewrite fexp32.
  pose proof (Zdigits2_mul (Z.pos mx) (Z.pos my) ltac:(lia) ltac:(lia)).
  pose proof (Zdigits2_pos (Z.pos mx) ltac:(lia)).
  pose proof (Zdigits2_pos (Z.pos my) ltac:(lia)).
  rewrite Pos2Z.inj_mul. lia.
Qed.

Lemma valid_add (x y : float) : valid x -> valid y -> valid (F32.add x y).
Proof.
  destruct x as [sx|sx| |sx mx ex], y as [sy|sy| |sy my ey]; try done;
    try (by destruct sx, sy).
  intros _ _. apply binary_normalize_valid.
Qed.

Lemma valid_sub (x y : float) : valid x -> valid y -> valid (F32.sub x y).
Proof.
  destruct x as [sx|sx| |sx mx ex], y as [sy|sy| |sy my ey]; try done;
    try (by destruct sx, sy).
  intros _ _. apply binary_normalize_valid.
Qed.

Lemma valid_fmaxf (x y : float) : valid x -> valid y -> valid (F32.fmaxf x y).
Proof.
  intros Hx Hy. unfold F32.fmaxf.
  destruct (F32.is_nan x), (F32.is_nan y), (F32.ltb x y); done.
Qed.

Lemma valid_fminf (x y : float) : valid x -> valid y -> valid (F32.fminf x y).
Proof.
  intros Hx Hy. unfold F32.fminf.
  destruct (F32.is_nan x), (F32.is_nan y), (F32.ltb y x); done.
Qed.

Lemma valid_fabsf (x : float) : valid x -> valid (F32.fabsf x).
Proof. by destruct x. Qed.

End Closure.

Section Unit.

Lemma unit_interval_exponent (m : positive) (e : Z) :
  unit_interval (S754_finite false m e) -> e <= -23.
Proof.
  intros [[Hc _]%valid_digits (_ & He & Hm)].
  rewrite Z.mul_1_l in Hm.
  pose proof (Zdigits2_le_pow (Z.pos m) (- e) ltac:(lia) ltac:(lia) Hm). lia.
Qed.

Lemma unit_interval_one (m : positive) (e : Z) :
  unit_interval (S754_finite false m e) -> Z.pos m = 2 ^ (- e) ->
  S754_finite false m e = F32.c1.
Proof.
  intros Hu Hm. pose proof (unit_interval_exponent m e Hu) as He.
  destruct Hu as [[Hc _]%valid_digits _].
  assert (Zdigits2 (Z.pos m) = - e + 1) as Hd.
  { apply Zdigits2_unique; [|lia]. rewrite Hm.
    replace (- e + 1 - 1) with (- e) by lia. split; [lia|].
    apply Z.pow_lt_mono_r; lia. }
  assert (e = -23) as -> by lia.
  change (2 ^ (- -23)) with (Z.pos 8388608) in Hm.
  by injection Hm as ->.
Qed.

Lemma clamp01_unit (r : float) : valid r -> unit_interval (Realfluid.clamp01 r).
Proof.
  intros Hr. destruct r as [s|s| |s m e].
  - by destruct s.
  - destruct s; (split; [done|]); simpl; [done|]. vm_compute. by repeat split.
  - done.
  - destruct s; [done|].
    unfold Realfluid.clamp01, F32.fmaxf, F32.fminf. simpl.
    unfold F32.ltb, SFltb, SFcompare, F32.c1.
    destruct (Z.compare_spec (-23) e) as [<-|Hlt|Hgt].
    + destruct (Pos.compare_cont Eq 8388608 m) eqn:Hcmp.
      * apply Pos.compare_eq in Hcmp as <-. split; [done|]. by vm_compute.
      * split; [done|]. by vm_compute.
      * split; [done|]. repeat split; [lia|].
        apply Pos.compare_gt_iff in Hcmp. change (1 * 2 ^ (- -23)) with 8388608.
        lia.
    + split; [done|]. by vm_compute.
    + split; [done|]. repeat split; [lia|].
      destruct (valid_digits _ _ _ Hr) as [Hc _].
      pose proof (Zdigits2_bounds (Z.pos m) ltac:(lia)) as [_ Hh].
      assert (2 ^ Zdigits2 (Z.pos m) <= 2 ^ (- e))
        by (apply Z.pow_le_mono_r; lia).
      lia.
Qed.

Lemma trunc_at_most (n : Z) (x : float) :
  0 <= n -> at_most n x -> exists z, F32.trunc x = Some z /\ 0 <= z <= n.
Proof.
  intros Hn Hx. destruct x as [s|s| |s m e]; try done.
  - exists 0. split; [done|lia].
  - destruct Hx as (-> & He & Hm). eexists. split; [done|]. simpl.
    rewrite Z.shiftl_div_pow2 by lia.
    assert (0 < 2 ^ (- e)) by (apply Z.pow_pos_nonneg; lia).
    split; [apply Z.div_pos; lia|].
    apply Z.div_le_upper_bound; lia.
Qed.

Lemma mul255_unit (v : float) :
  unit_interval v ->
  exists z, F32.trunc (F32.mul v F32.c255) = Some z /\ 0 <= z <= 255.
Proof.
  intros Hu. destruct v as [s|s| |s m e]; try (by destruct Hu).
  - exists 0. split; [done|lia].
  - assert (s = false) as -> by apply Hu.
    pose proof (unit_interval_exponent m e Hu) as He.
    destruct (Z.eq_dec (Z.pos m) (2 ^ (- e))) as [Heq|Hne].
    + rewrite (unit_interval_one m e Hu Heq). exists 255.
      split; [by vm_compute|lia].
    + destruct Hu as [_ (_ & _ & Hm)]. rewrite Z.mul_1_l in Hm.
      apply trunc_at_most; [lia|].
      unfold F32.mul, SFmul, F32.c255. simpl xorb.
      apply binary_round_aux_at_most; [lia|lia|done|].
      replace (- (e + -16)) with (- e + 16) by lia.
      rewrite Z.pow_add_r, Pos2Z.inj_mul by lia. lia.
Qed.

Lemma sub1_unit (v : float) : unit_interval v -> unit_interval (F32.sub F32.c1 v).
Proof.
  intros Hu. split; [apply valid_sub; [done|apply Hu]|].
  destruct v as [s|s| |s m e]; [by destruct s; vm_compute|by destruct Hu..|].
  assert (s = false) as -> by apply Hu.
  - pose proof (unit_interval_exponent m e Hu) as He.
    destruct Hu as [_ (_ & _ & Hm)]. rewrite Z.mul_1_l in Hm.
    unfold F32.sub, SFsub, F32.c1. rewrite (Z.min_r (-23) e) by lia.
    pose proof (shl_align_spec 8388608 (-23) e) as [_ H1].
    pose proof (shl_align_spec m e e) as [_ H2].
    rewrite Z.min_r in H1 by lia. rewrite Z.min_l, Z.sub_diag in H2 by lia.
    simpl cond_Zopp. rewrite H1, H2.
    change (Z.pos 8388608) with (2 ^ 23). rewrite <- Z.pow_add_r by lia.
    replace (23 + (-23 - e)) with (- e) by lia. rewrite Z.pow_0_r, Z.mul_1_r.
    destruct (2 ^ (- e) - Z.pos m) as [|d|d] eqn:Hd; [done| |lia].
    apply binary_round_at_most; [lia|done|]. lia.
Qed.

End Unit.

Create HintDb valid32 discriminated.
#[local] Hint Resolve valid_add valid_sub valid_mul valid_fmaxf valid_fminf
  valid_fabsf : valid32.
#[local] Hint Extern 1 (valid _) => reflexivity : valid32.

Lemma lor_disjoint (hi lo k : Z) :
  0 <= k -> 0 <= lo < 2 ^ k -> Z.lor (hi * 2 ^ k) lo = hi * 2 ^ k + lo.
Proof.
  intros Hk Hlo. symmetry. apply Z.add_nocarry_lor.
  apply Z.bits_inj'. intros n Hn. rewrite Z.land_spec, Z.bits_0.
  destruct (Z.lt_ge_cases n k) as [Hlt|Hge].
  - by rewrite Z.mul_pow2_bits_low by lia.
  - rewrite <- (Z.mod_small lo (2 ^ k)) by lia.
    rewrite Z.mod_pow2_bits_high by lia. apply andb_false_r.
Qed.

Lemma pack_argb (r g b : Z) :
  0 <= r <= 255 -> 0 <= g <= 255 -> 0 <= b <= 255 ->
  Z.lor (Z.lor (Z.lor (Z.shiftl r 16 mod 2 ^ 32) (Z.shiftl g 8 mod 2 ^ 32)) b)
        0xFF000000
  = 0xFF000000 + r * 65536 + g * 256 + b.
Proof.
  intros Hr Hg Hb. rewrite !Z.shiftl_mul_pow2 by lia.
  change (2 ^ 32) with 4294967296.
  rewrite !Z.mod_small by (change (2 ^ 16) with 65536; change (2 ^ 8) with 256; lia).
  rewrite (lor_disjoint r (g * 2 ^ 8) 16)
    by (change (2 ^ 16) with 65536; change (2 ^ 8) with 256; lia).
  replace (r * 2 ^ 16 + g * 2 ^ 8) with ((r * 256 + g) * 2 ^ 8)
    by (change (2 ^ 16) with 65536; change (2 ^ 8) with 256; lia).
  rewrite lor_disjoint by (change (2 ^ 8) with 256; lia).
  rewrite Z.lor_comm. change 0xFF000000 with (255 * 2 ^ 24).
  rewrite lor_disjoint
    by (change (2 ^ 24) with 16777216; change (2 ^ 8) with 256; lia).
  change (2 ^ 24) with 16777216; change (2 ^ 8) with 256. lia.
Qed.

(** The bytes of a packed pixel are its four channels. *)
Lemma unpack_argb (r g b : Z) :
  0 <= r <= 255 -> 0 <= g <= 255 -> 0 <= b <= 255 ->
  Z.shiftr (0xFF000000 + r * 65536 + g * 256 + b) 24 = 0xFF /\
  Z.land (Z.shiftr (0xFF000000 + r * 65536 + g * 256 + b) 16) 0xFF = r /\
  Z.land (Z.shiftr (0xFF000000 + r * 65536 + g * 256 + b) 8) 0xFF = g /\
  Z.land (0xFF000000 + r * 65536 + g * 256 + b) 0xFF = b.
Proof.
  intros Hr Hg Hb.
  change 0xFF with (Z.ones 8). rewrite !Z.land_ones by lia.
  rewrite !Z.shiftr_div_pow2 by lia.
  change (2 ^ 24) with 16777216. change (2 ^ 16) with 65536.
  change (2 ^ 8) with 256. change (Z.ones 8) with 255.
  assert ((4278190080 + r * 65536 + g * 256 + b) / 16777216 = 255) as ->
    by (symmetry; apply (Z.div_unique _ _ _ (r * 65536 + g * 256 + b)); lia).
  assert ((4278190080 + r * 65536 + g * 256 + b) / 65536 = 65280 + r) as ->
    by (symmetry; apply (Z.div_unique _ _ _ (g * 256 + b)); lia).
  assert ((4278190080 + r * 65536 + g * 256 + b) / 256
          = 16711680 + r * 256 + g) as ->
    by (symmetry; apply (Z.div_unique _ _ _ b); lia).
  split; [done|]. split; [|split].
  - symmetry. apply (Z.mod_unique _ _ 255); lia.
  - symmetry. apply (Z.mod_unique _ _ (65280 + r)); lia.
  - symmetry.
    apply (Z.mod_unique _ _ (16711680 + r * 256 + g)); lia.
Qed.

Lemma pack_gray (v : Z) :
  0 <= v <= 255 ->
  Z.lor (Z.lor (Z.lor (wrap_int (Z.shiftl 0xFF 24)) (Z.shiftl v 16))
               (Z.shiftl v 8)) v mod 2 ^ 32
  = 0xFF000000 + v * 65536 + v * 256 + v.
Proof.
  intros Hv. rewrite !Z.shiftl_mul_pow2 by lia.
  change (wrap_int (255 * 2 ^ 24)) with (-1 * 2 ^ 24).
  rewrite (lor_disjoint (-1) (v * 2 ^ 16) 24)
    by (change (2 ^ 24) with 16777216; change (2 ^ 16) with 65536; lia).
  replace (-1 * 2 ^ 24 + v * 2 ^ 16) with ((v - 256) * 2 ^ 16)
    by (change (2 ^ 24) with 16777216; change (2 ^ 16) with 65536; lia).
  rewrite (lor_disjoint (v - 256) (v * 2 ^ 8) 16)
    by (change (2 ^ 16) with 65536; change (2 ^ 8) with 256; lia).
  replace ((v - 256) * 2 ^ 16 + v * 2 ^ 8) with (((v - 256) * 256 + v) * 2 ^ 8)
    by (change (2 ^ 16) with 65536; change (2 ^ 8) with 256; lia).
  rewrite lor_disjoint by (change (2 ^ 8) with 256; lia).
  change (2 ^ 8) with 256. change (2 ^ 32) with 4294967296.
  replace (((v - 256) * 256 + v) * 256 + v)
    with (4278190080 + v * 65536 + v * 256 + v + -1 * 4294967296) by lia.
  rewrite Z_mod_plus_full. apply Z.mod_small. lia.
Qed.

Lemma water_rgb_unit (height : float) :
  valid height ->
  unit_interval (Realfluid.water_rgb height).1.1 /\
  unit_interval (Realfluid.water_rgb height).1.2 /\
  unit_interval (Realfluid.water_rgb height).2.
Proof.
  intros Hh. unfold Realfluid.water_rgb. simpl.
  repeat split; apply clamp01_unit; auto 20 with valid32.
Qed.

Lemma to_uint32_channel (v : float) :
  unit_interval v ->
  exists z, F32.to_uint32 (F32.mul v F32.c255) = Some z /\ 0 <= z <= 255.
Proof.
  intros Hv. destruct (mul255_unit v Hv) as (z & Hz & Hr).
  exists z. split; [|done]. unfold F32.to_uint32, F32.to_integer.
  rewrite Hz. simpl. by rewrite decide_True by lia.
Qed.

Lemma to_uint8_channel (v : float) :
  unit_interval v ->
  exists z, F32.to_uint8 (F32.mul v F32.c255) = Some z /\ 0 <= z <= 255.
Proof.
  intros Hv. destruct (mul255_unit v Hv) as (z & Hz & Hr).
  exists z. split; [|done]. unfold F32.to_uint8, F32.to_integer.
  rewrite Hz. simpl. by rewrite decide_True by lia.
Qed.

Lemma water_color_bounded (height : float) :
  valid height ->
  exists r g b, 0 <= r <= 255 /\ 0 <= g <= 255 /\ 0 <= b <= 255 /\
    forall x y time,
      Realfluid.water_color height x y time
      = Some (0xFF000000 + r * 65536 + g * 256 + b).
Proof.
  intros Hh. destruct (water_rgb_unit height Hh) as (Hr & Hg & Hb).
  unfold Realfluid.water_color.
  destruct (Realfluid.water_rgb height) as [[cr cg] cb]. simpl in Hr, Hg, Hb.
  destruct (to_uint32_channel cr Hr) as (r & -> & Hrr).
  destruct (to_uint32_channel cg Hg) as (g & -> & Hgr).
  destruct (to_uint32_channel cb Hb) as (b & -> & Hbr).
  exists r, g, b. do 3 (split; [done|]). intros _ _ _. simpl.
  by rewrite pack_argb.
Qed.

(** The three casts of [water_color] and the word it packs. *)
Lemma water_color_channels (height : float) :
  valid height ->
  exists r g b,
    F32.to_uint32 (F32.mul (Realfluid.water_rgb height).1.1 F32.c255)
    = Some r /\
    F32.to_uint32 (F32.mul (Realfluid.water_rgb height).1.2 F32.c255)
    = Some g /\
    F32.to_uint32 (F32.mul (Realfluid.water_rgb height).2 F32.c255)
    = Some b /\
    0 <= r <= 255 /\ 0 <= g <= 255 /\ 0 <= b <= 255 /\
    forall x y time,
      Realfluid.water_color height x y time
      = Some (0xFF000000 + r * 65536 + g * 256 + b).
Proof.
  intros Hh. destruct (water_rgb_unit height Hh) as (Hr & Hg & Hb).
  destruct (to_uint32_channel _ Hr) as (r & Er & Hrr).
  destruct (to_uint32_channel _ Hg) as (g & Eg & Hgr).
  destruct (to_uint32_channel _ Hb) as (b & Eb & Hbr).
  exists r, g, b. do 6 (split; [done|]). intros x y time.
  unfold Realfluid.water_color.
  destruct (Realfluid.water_rgb height) as [[cr cg] cb].
  simpl in Er, Eg, Eb. rewrite Er, Eg, Eb. simpl.
  by rewrite pack_argb.
Qed.

Lemma bw_water_color_bounded (height : float) :
  valid height ->
  exists v, 0 <= v <= 255 /\
    Realfluid.bw_water_color height
    = Some (0xFF000000 + v * 65536 + v * 256 + v).
Proof.
  intros Hh. unfold Realfluid.bw_water_color.
  match goal with
  | |- context [F32.sub F32.c1 (Realfluid.clamp01 ?i)] =>
      assert (unit_interval (F32.sub F32.c1 (Realfluid.clamp01 i))) as Hu
  end.
  { apply sub1_unit, clamp01_unit.
    destruct (F32.ltb F32.c0_2 height); auto 20 with valid32. }
  destruct (to_uint8_channel _ Hu) as (v & -> & Hv).
  exists v. split; [done|]. simpl. by rewrite pack_gray.
Qed.

(** * Properties of the specification *)

(** A few values computed by the model, for comparison with the C
    programs: the binary32 encodings 0x3F7D70A4 of [0.99f] and 0x437F0000
    of [255.0f], and two pixels. *)
Example c0_99_bits : F32.c0_99 = S754_finite false 0xFD70A4 (-24).
Proof. reflexivity. Qed.

Example c255_bits : F32.c255 = S754_finite false 0xFF0000 (-16).
Proof. reflexivity. Qed.

Example water_color_half :
  Realfluid.water_color (F32.dec 5 10) F32.zero F32.zero 0 = Some 0xFFEBF9FF.
Proof. reflexivity. Qed.

Example bw_water_color_half :
  Realfluid.bw_water_color (F32.dec 5 10) = Some 0xFF191919.
Proof. reflexivity. Qed.

Lemma update_fluid_texture_current W H pixels g1 g2 time :
  current g1 = current g2 ->
  Realfluid.update_fluid_texture W H pixels g1 time
  = Realfluid.update_fluid_texture W H pixels g2 time.
Proof. intros Hc. unfold Realfluid.update_fluid_texture. by rewrite Hc. Qed.

(** C3: for a field whose buffers have [W * H] cells, the sweep of one step
    returns a field [g1] (the state before the pointer exchange) in which
    every interior cell of [current] holds
    [damping * (2*previous[x,y] - current[x,y] + 0.25*laplacian)] computed
    from the buffers as they were before the step; [previous] and [damping]
    are untouched, and [update_fluid] is this sweep followed by the swap.
    Holds for the text of gridfluid.c (and fluid.c) and of realfluid.c. *)
Theorem C3_step_stencil (W H : Z) (g : FluidGrid) :
  wf W H g ->
  exists g1,
    Gridfluid.update_loop W H g = Some g1 /\
    Realfluid.update_loop W H g = Some g1 /\
    Gridfluid.update_fluid W H g = Some (Gridfluid.swap g1) /\
    Realfluid.update_fluid W H g = Some (Realfluid.swap g1) /\
    previous g1 = previous g /\ damping g1 = damping g /\
    length (current g1) = length (current g) /\
    forall x y, 1 <= x <= W - 2 -> 1 <= y <= H - 2 ->
      load (current g1) (y * W + x) = Some (stencil W g x y).
Proof.
  intros Hwf.
  destruct (update_loop_spec W H g Hwf) as (g1 & Hrun & Hp & Hd & Hl & Hc).
  exists g1. unfold Gridfluid.update_fluid, Realfluid.update_fluid.
  rewrite update_loop_same, Hrun. repeat split; try done.
  intros x y Hx Hy.
  assert (interior W H x y) as Hin by done.
  rewrite cell_load.
  - rewrite (Hc x y (interior_in_grid W H x y Hin)). by rewrite decide_True.
  - rewrite Hl. destruct Hwf as [-> _].
    by apply index_in_range, interior_in_grid.
Qed.

Lemma C3_witness :
  wf 3 3 sample_grid /\
  exists g1,
    Gridfluid.update_loop 3 3 sample_grid = Some g1 /\
    Realfluid.update_loop 3 3 sample_grid = Some g1 /\
    Gridfluid.update_fluid 3 3 sample_grid = Some (Gridfluid.swap g1) /\
    Realfluid.update_fluid 3 3 sample_grid = Some (Realfluid.swap g1) /\
    previous g1 = previous sample_grid /\ damping g1 = damping sample_grid /\
    length (current g1) = length (current sample_grid) /\
    forall x y, 1 <= x <= 3 - 2 -> 1 <= y <= 3 - 2 ->
      load (current g1) (y * 3 + x) = Some (stencil 3 sample_grid x y).
Proof.
  split; [split; reflexivity|].
  apply (C3_step_stencil 3 3 sample_grid). split; reflexivity.
Defined.

(** C2: one call of [update_fluid] on a well-sized field returns a field
    whose [current] is, cell for cell, the [previous] buffer of before the
    call, and whose [previous] holds the freshly computed stencil values on
    the interior; the texture pass, which reads [current], therefore renders
    the field of before the step. *)
Theorem C2_swap_after_step (W H : Z) (g : FluidGrid) :
  wf W H g ->
  exists g',
    Gridfluid.update_fluid W H g = Some g' /\
    Realfluid.update_fluid W H g = Some g' /\
    current g' = previous g /\
    (forall x y, interior W H x y ->
       load (previous g') (y * W + x) = Some (stencil W g x y)) /\
    forall pixels time,
      Realfluid.update_fluid_texture W H pixels g' time
      = Realfluid.update_fluid_texture W H pixels (Realfluid.swap g) time.
Proof.
  intros Hwf.
  destruct (update_loop_spec W H g Hwf) as (g1 & Hrun & Hp & Hd & Hl & Hc).
  exists (Realfluid.swap g1).
  unfold Gridfluid.update_fluid, Realfluid.update_fluid.
  rewrite update_loop_same, Hrun. repeat split; try done.
  - intros x y Hin. simpl. rewrite cell_load.
    + rewrite (Hc x y (interior_in_grid W H x y Hin)). by rewrite decide_True.
    + rewrite Hl. destruct Hwf as [-> _].
      by apply index_in_range, interior_in_grid.
  - intros pixels time. by apply update_fluid_texture_current.
Qed.

Lemma C2_witness :
  wf 3 3 sample_grid /\
  exists g',
    Gridfluid.update_fluid 3 3 sample_grid = Some g' /\
    Realfluid.update_fluid 3 3 sample_grid = Some g' /\
    current g' = previous sample_grid /\
    (forall x y, interior 3 3 x y ->
       load (previous g') (y * 3 + x) = Some (stencil 3 sample_grid x y)) /\
    forall pixels time,
      Realfluid.update_fluid_texture 3 3 pixels g' time
      = Realfluid.update_fluid_texture 3 3 pixels (Realfluid.swap sample_grid)
          time.
Proof.
  split; [split; reflexivity|].
  apply (C2_swap_after_step 3 3 sample_grid). split; reflexivity.
Defined.

(** C4: a point injection whose target lies on the border or outside the
    grid returns normally and returns the very same field, both buffers
    untouched; this holds for the narrow injection of gridfluid.c and
    realfluid.c and for the wide injection of fluid.c. *)
Theorem C4_injection_containment (W H : Z) (g : FluidGrid) (x y : Z)
    (intensity : float) :
  (x = 0 \/ x = W - 1 \/ y = 0 \/ y = H - 1) \/ ~ in_grid W H x y ->
  Gridfluid.add_disturbance W H g x y intensity = Some g /\
  Realfluid.add_disturbance W H g x y intensity = Some g /\
  Fluid.add_disturbance W H g x y intensity = Some g.
Proof.
  intros Hout.
  assert (~ (x >= 1 /\ x < W - 1 /\ y >= 1 /\ y < H - 1)) as Hguard
    by (unfold in_grid in Hout; lia).
  unfold Gridfluid.add_disturbance, Realfluid.add_disturbance,
    Fluid.add_disturbance.
  by rewrite !decide_False by done.
Qed.

Lemma C4_witness :
  ((0 = 0 \/ 0 = 10 - 1 \/ 5 = 0 \/ 5 = 10 - 1) \/ ~ in_grid 10 10 0 5) /\
  Gridfluid.add_disturbance 10 10 (Gridfluid.init_fluid 10 10) 0 5 F32.c1
    = Some (Gridfluid.init_fluid 10 10) /\
  Realfluid.add_disturbance 10 10 (Gridfluid.init_fluid 10 10) 0 5 F32.c1
    = Some (Gridfluid.init_fluid 10 10) /\
  Fluid.add_disturbance 10 10 (Gridfluid.init_fluid 10 10) 0 5 F32.c1
    = Some (Gridfluid.init_fluid 10 10).
Proof.
  split; [lia|].
  apply (C4_injection_containment 10 10 (Gridfluid.init_fluid 10 10) 0 5 F32.c1).
  lia.
Defined.

Section BorderFacts.
Variables W H : Z.

Lemma border_not_interior x y : border W H x y -> ~ interior W H x y.
Proof. unfold border, interior. lia. Qed.

Lemma update_fluid_border g :
  wf W H g ->
  exists g', Gridfluid.update_fluid W H g = Some g' /\ wf W H g' /\
    current g' = previous g /\
    forall x y, border W H x y ->
      cell W (previous g') x y = cell W (current g) x y.
Proof.
  intros Hwf.
  destruct (update_loop_spec W H g Hwf) as (g1 & Hrun & Hp & Hd & Hl & Hc).
  exists (Gridfluid.swap g1). unfold Gridfluid.update_fluid.
  rewrite update_loop_same, Hrun. split; [done|].
  destruct Hwf as [Hlc Hlp]. split; [|split; [done|]].
  - split; simpl; congruence.
  - intros x y Hb. simpl. rewrite (Hc x y) by apply Hb.
    rewrite decide_False; [done|]. by apply border_not_interior.
Qed.

Lemma init_fluid_wf : 0 <= W * H -> wf W H (Gridfluid.init_fluid W H).
Proof.
  intros Hn. split; simpl; unfold calloc; rewrite length_replicate; lia.
Qed.

Lemma cell_calloc n x y : cell W (calloc n) x y = F32.zero.
Proof.
  unfold cell, load, calloc. case_decide; [|done].
  destruct (replicate (Z.to_nat n) F32.zero !! Z.to_nat (y * W + x))
    as [v|] eqn:Hv; [|done].
  by apply lookup_replicate in Hv as [-> _].
Qed.

Lemma run_border ops g :
  wf W H g -> border_zero W H g ->
  exists g', run (Gridfluid.add_disturbance W H) (Gridfluid.update_fluid W H)
               ops g = Some g' /\ wf W H g' /\ border_zero W H g'.
Proof.
  revert g. induction ops as [|[x y i|] ops IH]; intros g Hwf Hb.
  - by exists g.
  - destruct (add_disturbance_spec W H g x y i Hwf)
      as (g1 & Hrun & Hc & Hd & Hl & Hcell).
    destruct (IH g1) as (g' & Hrun' & Hwf' & Hb').
    + eapply add_disturbance_wf; done.
    + intros x' y' Hxy. rewrite Hc, (Hcell x' y') by apply Hxy.
      rewrite decide_False; [by apply Hb|].
      intros (Hin & -> & ->). by apply (border_not_interior x y).
    + exists g'. simpl. by rewrite Hrun.
  - destruct (update_fluid_border g Hwf) as (g1 & Hrun & Hwf1 & Hc & Hcell).
    destruct (IH g1) as (g' & Hrun' & Hwf' & Hb'); [done| |].
    + intros x' y' Hxy. rewrite Hc, (Hcell x' y' Hxy).
      destruct (Hb x' y' Hxy). done.
    + exists g'. simpl. by rewrite Hrun.
Qed.

Lemma run_same ops g :
  run (Realfluid.add_disturbance W H) (Realfluid.update_fluid W H) ops g
  = run (Gridfluid.add_disturbance W H) (Gridfluid.update_fluid W H) ops g.
Proof.
  revert g. induction ops as [|[x y i|] ops IH]; intros g; simpl; [done| |].
  - rewrite add_disturbance_same.
    destruct (Gridfluid.add_disturbance W H g x y i); simpl; [apply IH|done].
  - rewrite <- update_fluid_same.
    destruct (Gridfluid.update_fluid W H g); simpl; [apply IH|done].
Qed.
End BorderFacts.

(** C5: on a grid of non-negative dimensions, (a) one step leaves the
    whole buffer that was [previous] as it was (it becomes [current]) and
    leaves every border cell of the buffer that was [current] (it becomes
    [previous]) as it was; (b) starting from the zero field, every sequence
    of point injections and steps runs to completion and ends in a field
    whose border cells are all zero in both buffers.  Holds for gridfluid.c
    and realfluid.c. *)
Theorem C5_boundary_inertness (W H : Z) :
  0 <= W -> 0 <= H ->
  (forall g, wf W H g ->
     exists g', Gridfluid.update_fluid W H g = Some g' /\
       Realfluid.update_fluid W H g = Some g' /\
       current g' = previous g /\
       forall x y, border W H x y ->
         cell W (previous g') x y = cell W (current g) x y) /\
  (forall ops,
     exists g',
       run (Gridfluid.add_disturbance W H) (Gridfluid.update_fluid W H) ops
           (Gridfluid.init_fluid W H) = Some g' /\
       run (Realfluid.add_disturbance W H) (Realfluid.update_fluid W H) ops
           (Realfluid.init_fluid W H) = Some g' /\
       forall x y, border W H x y ->
         cell W (current g') x y = F32.zero /\
         cell W (previous g') x y = F32.zero).
Proof.
  intros HW HH. split.
  - intros g Hwf.
    destruct (update_fluid_border W H g Hwf) as (g' & Hrun & _ & Hc & Hb).
    exists g'. rewrite <- update_fluid_same. done.
  - intros ops.
    destruct (run_border W H ops (Gridfluid.init_fluid W H))
      as (g' & Hrun & _ & Hb).
    + apply init_fluid_wf. lia.
    + intros x y _. simpl. by rewrite !cell_calloc.
    + exists g'. split; [done|]. split; [|done].
      by rewrite run_same.
Qed.

Lemma C5_witness :
  0 <= 10 /\ 0 <= 10 /\
  (forall g, wf 10 10 g ->
     exists g', Gridfluid.update_fluid 10 10 g = Some g' /\
       Realfluid.update_fluid 10 10 g = Some g' /\
       current g' = previous g /\
       forall x y, border 10 10 x y ->
         cell 10 (previous g') x y = cell 10 (current g) x y) /\
  (forall ops,
     exists g',
       run (Gridfluid.add_disturbance 10 10) (Gridfluid.update_fluid 10 10) ops
           (Gridfluid.init_fluid 10 10) = Some g' /\
       run (Realfluid.add_disturbance 10 10) (Realfluid.update_fluid 10 10) ops
           (Realfluid.init_fluid 10 10) = Some g' /\
       forall x y, border 10 10 x y ->
         cell 10 (current g') x y = F32.zero /\
         cell 10 (previous g') x y = F32.zero).
Proof.
  split; [lia|]. split; [lia|].
  apply (C5_boundary_inertness 10 10); lia.
Defined.

Lemma coincident (a b : Z) : a * a + b * b < 1 -> a = 0 /\ b = 0.
Proof.
  intros Hd. pose proof (Z.square_nonneg a). pose proof (Z.square_nonneg b).
  split.
  - destruct (Z.lt_trichotomy a 0) as [?|[?|?]]; [nia|done|nia].
  - destruct (Z.lt_trichotomy b 0) as [?|[?|?]]; [nia|done|nia].
Qed.

(** C7: when the two endpoints of a drag segment are less than one unit
    apart, [add_continuous_wave] is exactly one call of [add_disturbance] at
    the first endpoint with the intensity it was given, in gridfluid.c and
    in realfluid.c; on a well-sized field that call returns normally. *)
Theorem C7_degenerate_line (W H : Z) (g : FluidGrid) (x1 y1 x2 y2 : Z)
    (intensity : float) :
  (x2 - x1) * (x2 - x1) + (y2 - y1) * (y2 - y1) < 1 ->
  Gridfluid.add_continuous_wave W H g x1 y1 x2 y2 intensity
    = Gridfluid.add_disturbance W H g x1 y1 intensity /\
  Realfluid.add_continuous_wave W H g x1 y1 x2 y2 intensity
    = Realfluid.add_disturbance W H g x1 y1 intensity /\
  (wf W H g ->
   is_Some (Gridfluid.add_continuous_wave W H g x1 y1 x2 y2 intensity) /\
   is_Some (Realfluid.add_continuous_wave W H g x1 y1 x2 y2 intensity)).
Proof.
  intros Hd.
  destruct (coincident (x2 - x1) (y2 - y1) Hd) as [Hx Hy].
  assert (Gridfluid.add_continuous_wave W H g x1 y1 x2 y2 intensity
          = Gridfluid.add_disturbance W H g x1 y1 intensity) as HG
    by (unfold Gridfluid.add_continuous_wave; rewrite Hx, Hy; reflexivity).
  assert (Realfluid.add_continuous_wave W H g x1 y1 x2 y2 intensity
          = Realfluid.add_disturbance W H g x1 y1 intensity) as HR
    by (unfold Realfluid.add_continuous_wave; rewrite Hx, Hy; reflexivity).
  split; [done|]. split; [done|].
  intros Hwf. rewrite HG, HR.
  change (Realfluid.add_disturbance W H g x1 y1 intensity)
    with (Gridfluid.add_disturbance W H g x1 y1 intensity).
  destruct (add_disturbance_spec W H g x1 y1 intensity Hwf) as (g' & -> & _).
  by split.
Qed.

Lemma C7_witness :
  (4 - 4) * (4 - 4) + (7 - 7) * (7 - 7) < 1 /\
  Gridfluid.add_continuous_wave 10 10 (Gridfluid.init_fluid 10 10) 4 7 4 7
      F32.c3
    = Gridfluid.add_disturbance 10 10 (Gridfluid.init_fluid 10 10) 4 7 F32.c3 /\
  Realfluid.add_continuous_wave 10 10 (Gridfluid.init_fluid 10 10) 4 7 4 7
      F32.c3
    = Realfluid.add_disturbance 10 10 (Gridfluid.init_fluid 10 10) 4 7 F32.c3 /\
  (wf 10 10 (Gridfluid.init_fluid 10 10) ->
   is_Some (Gridfluid.add_continuous_wave 10 10 (Gridfluid.init_fluid 10 10)
              4 7 4 7 F32.c3) /\
   is_Some (Realfluid.add_continuous_wave 10 10 (Gridfluid.init_fluid 10 10)
              4 7 4 7 F32.c3)).
Proof.
  split; [lia|].
  apply (C7_degenerate_line 10 10 (Gridfluid.init_fluid 10 10) 4 7 4 7 F32.c3).
  lia.
Defined.

(** C9: in fluid.c, a point injection at an interior centre of a well-sized
    field returns normally (every access is inside the buffer): the nine
    targets are cells of the grid with indices below [W * H]; the centre
    gains [intensity], each of the eight neighbours gains
    [intensity * 0.5f], border cells included, and no other cell changes. *)
Theorem C9_wide_injection_in_bounds (W H : Z) (g : FluidGrid) (x y : Z)
    (intensity : float) :
  wf W H g -> 1 <= x <= W - 2 -> 1 <= y <= H - 2 ->
  exists g',
    Fluid.add_disturbance W H g x y intensity = Some g' /\
    current g' = current g /\
    (forall dx dy, -1 <= dx <= 1 -> -1 <= dy <= 1 ->
       in_grid W H (x + dx) (y + dy) /\
       0 <= (y + dy) * W + (x + dx) < Z.of_nat (length (previous g))) /\
    (forall x' y', in_grid W H x' y' ->
       cell W (previous g') x' y' =
         if decide (x' = x /\ y' = y)
         then F32.add (cell W (previous g) x y) intensity
         else if decide (-1 <= x' - x <= 1 /\ -1 <= y' - y <= 1)
         then F32.add (cell W (previous g) x' y') (F32.mul intensity F32.c0_5)
         else cell W (previous g) x' y') /\
    (forall dx dy, -1 <= dx <= 1 -> -1 <= dy <= 1 -> ~ (dx = 0 /\ dy = 0) ->
       border W H (x + dx) (y + dy) ->
       cell W (previous g') (x + dx) (y + dy)
       = F32.add (cell W (previous g) (x + dx) (y + dy))
                 (F32.mul intensity F32.c0_5)).
Proof.
  intros Hwf Hx Hy.
  destruct (wide_add_disturbance_spec W H g x y intensity Hwf)
    as (g' & Hrun & Hwf' & Hc & Hd & Hcell); [done|].
  exists g'. split; [done|]. split; [done|].
  assert (forall dx dy, -1 <= dx <= 1 -> -1 <= dy <= 1 ->
                        in_grid W H (x + dx) (y + dy)) as Hin
    by (intros; split; lia).
  split; [|split; [done|]].
  - intros dx dy Hdx Hdy. split; [by apply Hin|].
    destruct Hwf as [_ ->]. by apply index_in_range, Hin.
  - intros dx dy Hdx Hdy Hne _. rewrite Hcell by by apply Hin.
    rewrite decide_False by lia. by rewrite decide_True by lia.
Qed.

Lemma C9_witness :
  wf 3 3 sample_grid /\ 1 <= 1 <= 3 - 2 /\ 1 <= 1 <= 3 - 2 /\
  exists g',
    Fluid.add_disturbance 3 3 sample_grid 1 1 F32.c2 = Some g' /\
    current g' = current sample_grid /\
    (forall dx dy, -1 <= dx <= 1 -> -1 <= dy <= 1 ->
       in_grid 3 3 (1 + dx) (1 + dy) /\
       0 <= (1 + dy) * 3 + (1 + dx)
         < Z.of_nat (length (previous sample_grid))) /\
    (forall x' y', in_grid 3 3 x' y' ->
       cell 3 (previous g') x' y' =
         if decide (x' = 1 /\ y' = 1)
         then F32.add (cell 3 (previous sample_grid) 1 1) F32.c2
         else if decide (-1 <= x' - 1 <= 1 /\ -1 <= y' - 1 <= 1)
         then F32.add (cell 3 (previous sample_grid) x' y')
                      (F32.mul F32.c2 F32.c0_5)
         else cell 3 (previous sample_grid) x' y') /\
    (forall dx dy, -1 <= dx <= 1 -> -1 <= dy <= 1 -> ~ (dx = 0 /\ dy = 0) ->
       border 3 3 (1 + dx) (1 + dy) ->
       cell 3 (previous g') (1 + dx) (1 + dy)
       = F32.add (cell 3 (previous sample_grid) (1 + dx) (1 + dy))
                 (F32.mul F32.c2 F32.c0_5)).
Proof.
  split; [split; reflexivity|]. split; [lia|]. split; [lia|].
  apply (C9_wide_injection_in_bounds 3 3 sample_grid 1 1 F32.c2);
    [split; reflexivity|lia|lia].
Defined.

(** C10: [water_color] ignores its [x], [y] and [time] arguments: two calls
    with the same height return the same packed colour (or are both
    undefined). *)
Theorem C10_water_color_height_only (height x y x' y' : float)
    (time time' : Z) :
  Realfluid.water_color height x y time
  = Realfluid.water_color height x' y' time'.
Proof. reflexivity. Qed.

(** C6, as stated, fails: the centre (2,2) of a zero 10 x 10 field passes
    the range check of [add_velocity_field], the offset (-2,0) is inside the
    disk of radius 3, and yet the cell (0,2) it points at, a border cell, is
    left as it was: [add_disturbance] drops the write.  ([cosf] is
    instantiated by the constant 1; the dropped write does not depend on
    it.) *)
Lemma C6_counterexample :
  wf 10 10 (Gridfluid.init_fluid 10 10) /\
  (2 >= 2 /\ 2 < 10 - 2 /\ 2 >= 2 /\ 2 < 10 - 2) /\
  (-2) * (-2) + 0 * 0 <= 9 /\
  exists g',
    Gridfluid.add_velocity_field 10 10 (fun _ => F32.c1)
      (Gridfluid.init_fluid 10 10) 2 2 F32.c1 = Some g' /\
    cell 10 (previous g') (2 + -2) (2 + 0) = F32.zero /\
    cell 10 (previous g') (2 + -2) (2 + 0)
    <> F32.add (cell 10 (previous (Gridfluid.init_fluid 10 10)) (2 + -2) (2 + 0))
               (F32.mul F32.c1 (Gridfluid.wave (fun _ => F32.c1) (-2) 0)).
Proof.
  split; [split; reflexivity|]. split; [lia|]. split; [lia|].
  eexists. split; [vm_compute; reflexivity|].
  split; [reflexivity|]. vm_compute. discriminate.
Qed.

(** C6, amended: when the centre passes the check [2 <= x < W-2],
    [2 <= y < H-2], [add_velocity_field] returns, leaves [current] alone and
    adds [intensity * (cosf (d * 0.8f) * (1 - d / 3.0f))], with
    [d = sqrtf (dx*dx + dy*dy)], to [previous[x+dx, y+dy]] for exactly the
    offsets of the disk [dx*dx + dy*dy <= 9] whose target is an interior
    cell; writes aimed at a border cell are dropped and every other cell of
    the grid is unchanged. *)
Theorem C6_radial_injection (W H : Z) (cosf : float -> float) (g : FluidGrid)
    (x y : Z) (intensity : float) :
  wf W H g ->
  x >= 2 /\ x < W - 2 /\ y >= 2 /\ y < H - 2 ->
  exists g',
    Gridfluid.add_velocity_field W H cosf g x y intensity = Some g' /\
    current g' = current g /\
    forall x' y', in_grid W H x' y' ->
      cell W (previous g') x' y' =
        if decide (interior W H x' y' /\
                   (x' - x) * (x' - x) + (y' - y) * (y' - y) <= 9)
        then F32.add (cell W (previous g) x' y')
               (F32.mul intensity (Gridfluid.wave cosf (x' - x) (y' - y)))
        else cell W (previous g) x' y'.
Proof.
  intros Hwf Hguard.
  destruct (add_velocity_field_spec W H cosf g x y intensity Hwf Hguard)
    as (g' & Hrun & _ & Hc & _ & Hcell).
  by exists g'.
Qed.

Lemma C6_witness :
  wf 10 10 (Gridfluid.init_fluid 10 10) /\
  (2 >= 2 /\ 2 < 10 - 2 /\ 2 >= 2 /\ 2 < 10 - 2) /\
  exists g',
    Gridfluid.add_velocity_field 10 10 (fun _ => F32.c1)
      (Gridfluid.init_fluid 10 10) 2 2 F32.c1 = Some g' /\
    current g' = current (Gridfluid.init_fluid 10 10) /\
    forall x' y', in_grid 10 10 x' y' ->
      cell 10 (previous g') x' y' =
        if decide (interior 10 10 x' y' /\
                   (x' - 2) * (x' - 2) + (y' - 2) * (y' - 2) <= 9)
        then F32.add (cell 10 (previous (Gridfluid.init_fluid 10 10)) x' y')
               (F32.mul F32.c1
                  (Gridfluid.wave (fun _ => F32.c1) (x' - 2) (y' - 2)))
        else cell 10 (previous (Gridfluid.init_fluid 10 10)) x' y'.
Proof.
  split; [split; reflexivity|]. split; [lia|].
  apply (C6_radial_injection 10 10 (fun _ => F32.c1)
           (Gridfluid.init_fluid 10 10) 2 2 F32.c1);
    [split; reflexivity|lia].
Defined.

Ltac each_coordinate x :=
  let Hx := fresh in
  assert (x = 0 \/ x = 1 \/ x = 2 \/ x = 3 \/ x = 4 \/ x = 5 \/ x = 6 \/
          x = 7 \/ x = 8 \/ x = 9) as Hx by lia;
  repeat (destruct Hx as [->|Hx]); try subst x.

(** C1, as stated, fails: after the injection and the step the buffer named
    [current] is the injected field, 10 at (5,5) and 0 at its neighbours;
    it holds neither -9.9 nor 2.475.  The value the stencil computes for
    (5,5), found in [previous] after the swap, is not -9.9 either. *)
Lemma C1_counterexample :
  exists g, scenario = Some g /\
    cell 10 (current g) 5 5 = F32.of_int 10 /\
    cell 10 (current g) 5 5 <> F32.dec (-99) 10 /\
    cell 10 (current g) 4 5 = F32.zero /\
    cell 10 (current g) 4 5 <> F32.dec 2475 1000 /\
    cell 10 (previous g) 5 5 <> F32.dec (-99) 10.
Proof.
  eexists. split; [vm_compute; reflexivity|].
  repeat split; try reflexivity; vm_compute; discriminate.
Qed.

(** C1, amended: after the injection and the step, the buffer named
    [previous] holds the stencil results: [0.99f * 10.0f], the float nearest
    to +9.9, at (5,5), the float nearest to 2.475 at its four direct
    neighbours and 0 elsewhere; the buffer named [current] holds the
    injected field, 10 at (5,5) and 0 elsewhere. *)
Theorem C1_end_to_end :
  exists g, scenario = Some g /\
    F32.mul F32.c0_99 (F32.of_int 10) = F32.dec 99 10 /\
    (forall x y, in_grid 10 10 x y ->
       cell 10 (previous g) x y =
         if decide (x = 5 /\ y = 5) then F32.dec 99 10
         else if decide ((x = 4 \/ x = 6) /\ y = 5 \/ x = 5 /\ (y = 4 \/ y = 6))
         then F32.dec 2475 1000
         else F32.zero) /\
    (forall x y, in_grid 10 10 x y ->
       cell 10 (current g) x y =
         if decide (x = 5 /\ y = 5) then F32.of_int 10 else F32.zero).
Proof.
  eexists. split; [vm_compute; reflexivity|]. split; [reflexivity|].
  split; intros x y [Hx Hy]; each_coordinate x; each_coordinate y;
    vm_compute; reflexivity.
Qed.

(** C8: for every binary32 height (finite of any magnitude, either zero,
    and the infinities and NaN as well) both colour mappers return a
    packed pixel.  In [water_color] each of the three casts
    [(uint32_t) (r * 255)], [(uint32_t) (g * 255)], [(uint32_t) (b * 255)]
    of the clamped channels is defined and its value is in [0, 255]; the
    word returned is [0xFF000000 + r*65536 + g*256 + b] for these three
    values, so that its bits 24 and above are [0xFF] and its bytes at bits
    16, 8 and 0 are exactly the three cast values: no channel spills into
    its neighbour.  [bw_water_color] returns
    [0xFF000000 + v*65536 + v*256 + v] with [v] in [0, 255]. *)
Theorem C8_color_mapping_bounded (height : float) :
  valid height ->
  (exists r g b,
     F32.to_uint32 (F32.mul (Realfluid.water_rgb height).1.1 F32.c255)
     = Some r /\
     F32.to_uint32 (F32.mul (Realfluid.water_rgb height).1.2 F32.c255)
     = Some g /\
     F32.to_uint32 (F32.mul (Realfluid.water_rgb height).2 F32.c255)
     = Some b /\
     0 <= r <= 255 /\ 0 <= g <= 255 /\ 0 <= b <= 255 /\
     (forall x y time,
        Realfluid.water_color height x y time
        = Some (0xFF000000 + r * 65536 + g * 256 + b)) /\
     Z.shiftr (0xFF000000 + r * 65536 + g * 256 + b) 24 = 0xFF /\
     Z.land (Z.shiftr (0xFF000000 + r * 65536 + g * 256 + b) 16) 0xFF = r /\
     Z.land (Z.shiftr (0xFF000000 + r * 65536 + g * 256 + b) 8) 0xFF = g /\
     Z.land (0xFF000000 + r * 65536 + g * 256 + b) 0xFF = b) /\
  (exists v, 0 <= v <= 255 /\
     Realfluid.bw_water_color height
     = Some (0xFF000000 + v * 65536 + v * 256 + v)).
Proof.
  intros Hh. split.
  - destruct (water_color_channels height Hh)
      as (r & g & b & Er & Eg & Eb & Hr & Hg & Hb & Hw).
    exists r, g, b. do 7 (split; [done|]). by apply unpack_argb.
  - by apply bw_water_color_bounded.
Qed.

Lemma C8_witness :
  valid (F32.of_int (-1000000)) /\
  (exists r g b,
     F32.to_uint32
       (F32.mul (Realfluid.water_rgb (F32.of_int (-1000000))).1.1 F32.c255)
     = Some r /\
     F32.to_uint32
       (F32.mul (Realfluid.water_rgb (F32.of_int (-1000000))).1.2 F32.c255)
     = Some g /\
     F32.to_uint32
       (F32.mul (Realfluid.water_rgb (F32.of_int (-1000000))).2 F32.c255)
     = Some b /\
     0 <= r <= 255 /\ 0 <= g <= 255 /\ 0 <= b <= 255 /\
     (forall x y time,
        Realfluid.water_color (F32.of_int (-1000000)) x y time
        = Some (0xFF000000 + r * 65536 + g * 256 + b)) /\
     Z.shiftr (0xFF000000 + r * 65536 + g * 256 + b) 24 = 0xFF /\
     Z.land (Z.shiftr (0xFF000000 + r * 65536 + g * 256 + b) 16) 0xFF = r /\
     Z.land (Z.shiftr (0xFF000000 + r * 65536 + g * 256 + b) 8) 0xFF = g /\
     Z.land (0xFF000000 + r * 65536 + g * 256 + b) 0xFF = b) /\
  (exists v, 0 <= v <= 255 /\
     Realfluid.bw_water_color (F32.of_int (-1000000))
     = Some (0xFF000000 + v * 65536 + v * 256 + v)).
Proof.
  split; [reflexivity|].
  apply (C8_color_mapping_bounded (F32.of_int (-1000000))). reflexivity.
Defined.

(** * Lemmas for the further properties *)

(** ** Area injections *)

(** Two [if decide] with equivalent conditions: the conditions are
    conjunctions of integer facts and of opaque atoms. *)
Ltac same_decision :=
  repeat case_decide; try done; exfalso; unfold interior in *;
  destruct_and?;
  first [ lia
        | match goal with
          | H : ~ _ |- _ => solve [apply H; repeat split; first [done | lia]]
          end ].

Section StampFacts.
Variables W H : Z.

Lemma for_iter_ext_range {S : Type} (body1 body2 : Z -> S -> option S) n i s :
  (forall j t, i <= j < i + Z.of_nat n -> body1 j t = body2 j t) ->
  for_iter n i body1 s = for_iter n i body2 s.
Proof.
  revert i s. induction n as [|n IH]; intros i s Hb; [done|].
  simpl. rewrite Hb by lia. destruct (body2 i s); simpl; [|done].
  apply IH. intros j t Hj. apply Hb. lia.
Qed.

Lemma for_loop_ext_range {S : Type} (body1 body2 : Z -> S -> option S) lo hi s :
  (forall j t, lo <= j < hi -> body1 j t = body2 j t) ->
  for_loop lo hi body1 s = for_loop lo hi body2 s.
Proof. intros Hb. apply for_iter_ext_range. intros j t Hj. apply Hb. lia. Qed.

(** The double loop over a square of offsets that every area injection
    runs: the kernel value is added at the offsets selected by [sel] whose
    target is interior, and nothing else changes. *)
Lemma stamp_spec (r : Z) (sel : Z -> Z -> bool) (val : Z -> Z -> float)
    (g : FluidGrid) (x y : Z) :
  wf W H g -> 0 <= r ->
  exists g',
    for_loop (- r) (r + 1) (fun dy =>
      for_loop (- r) (r + 1) (fun dx fluid =>
        if sel dx dy
        then Gridfluid.add_disturbance W H fluid (x + dx) (y + dy) (val dx dy)
        else Some fluid)) g = Some g' /\
    wf W H g' /\ current g' = current g /\ damping g' = damping g /\
    forall x' y', in_grid W H x' y' ->
      cell W (previous g') x' y' =
        if decide (interior W H x' y' /\
                   (- r <= x' - x <= r /\ - r <= y' - y <= r) /\
                   sel (x' - x) (y' - y) = true)
        then F32.add (cell W (previous g) x' y') (val (x' - x) (y' - y))
        else cell W (previous g) x' y'.
Proof.
  intros Hwf Hr.
  pose (P := fun dx dy (t : FluidGrid) =>
    wf W H t /\ current t = current g /\ damping t = damping g /\
    forall x' y', in_grid W H x' y' ->
      cell W (previous t) x' y' =
        if decide (interior W H x' y' /\
                   (- r <= x' - x <= r /\ - r <= y' - y <= r) /\
                   sel (x' - x) (y' - y) = true /\
                   (y' - y < dy \/ (y' - y = dy /\ x' - x < dx)))
        then F32.add (cell W (previous g) x' y') (val (x' - x) (y' - y))
        else cell W (previous g) x' y').
  destruct (sweep_2d P
    (fun dy dx fluid =>
       if sel dx dy
       then Gridfluid.add_disturbance W H fluid (x + dx) (y + dy) (val dx dy)
       else Some fluid) (- r) (r + 1) (- r) (r + 1) g) as (g' & Hrun & Hpost).
  - lia.
  - do 3 (split; [done|]).
    intros x' y' _. rewrite decide_False; [done|]. lia.
  - intros dx dy t Hdx Hdy (Hwt & Hct & Hdt & Hcell).
    destruct (sel dx dy) eqn:Hsel.
    + destruct (decide (interior W H (x + dx) (y + dy))) as [Hint|Hout].
      * destruct (add_disturbance_spec W H t (x + dx) (y + dy) (val dx dy) Hwt)
          as (t' & Hrun & Hc' & Hd' & Hl' & Hcell').
        exists t'. split; [done|]. repeat split; try congruence.
        -- rewrite Hc'. apply Hwt.
        -- destruct Hwt. lia.
        -- intros x' y' Hin. rewrite (Hcell' x' y' Hin).
           case_decide as Hhit.
           ++ destruct Hhit as (_ & -> & ->).
              rewrite (Hcell (x + dx) (y + dy) Hin).
              rewrite decide_False by lia.
              replace (x + dx - x) with dx by lia.
              replace (y + dy - y) with dy by lia.
              unfold interior in *.
              by rewrite decide_True by (repeat split; try done; lia).
           ++ rewrite (Hcell x' y' Hin). unfold interior in *.
              same_decision.
      * rewrite add_disturbance_outside by done.
        exists t. split; [done|]. do 3 (split; [done|]).
        intros x' y' Hin. rewrite (Hcell x' y' Hin). unfold interior in *.
        same_decision.
    + exists t. split; [done|]. do 3 (split; [done|]).
      intros x' y' Hin. rewrite (Hcell x' y' Hin). unfold interior in *.
      destruct (decide (x' - x = dx /\ y' - y = dy)) as [[Hex Hey]|Hne].
      * rewrite Hex, Hey, Hsel.
        repeat case_decide; try done; exfalso; destruct_and?; congruence.
      * same_decision.
  - intros dy t Hdy (Hwt & Hct & Hdt & Hcell). do 3 (split; [done|]).
    intros x' y' Hin. rewrite (Hcell x' y' Hin). unfold interior in *.
    same_decision.
  - exists g'. split; [done|]. destruct Hpost as (Hwt & Hct & Hdt & Hcell).
    do 3 (split; [done|]).
    intros x' y' Hin. rewrite (Hcell x' y' Hin). unfold interior in *.
    same_decision.
Qed.

Lemma stamp_injected (r : Z) (sel : Z -> Z -> bool) (val : Z -> Z -> float)
    (g : FluidGrid) (x y : Z) :
  wf W H g -> 0 <= r ->
  exists g',
    for_loop (- r) (r + 1) (fun dy =>
      for_loop (- r) (r + 1) (fun dx fluid =>
        if sel dx dy
        then Gridfluid.add_disturbance W H fluid (x + dx) (y + dy) (val dx dy)
        else Some fluid)) g = Some g' /\
    injected W H g g'.
Proof.
  intros Hwf Hr.
  destruct (stamp_spec r sel val g x y Hwf Hr) as (g' & Hrun & Hw & Hc & Hd & Hcell).
  exists g'. split; [done|]. do 3 (split; [done|]).
  intros x' y' Hin Hni. rewrite (Hcell x' y' Hin).
  rewrite decide_False; [done|]. tauto.
Qed.

End StampFacts.

Section DropFacts.
Variables (W H : Z) (expf cosf : float -> float).

(** X1 *)
Lemma add_water_drop_spec (g : FluidGrid) (x y : Z) (intensity : float) :
  wf W H g ->
  exists g',
    Realfluid.add_water_drop W H expf cosf g x y intensity = Some g' /\
    wf W H g' /\ current g' = current g /\ damping g' = damping g /\
    (~ (x >= 3 /\ x < W - 3 /\ y >= 3 /\ y < H - 3) -> g' = g) /\
    (x >= 3 /\ x < W - 3 /\ y >= 3 /\ y < H - 3 ->
     forall x' y', in_grid W H x' y' ->
       cell W (previous g') x' y' =
         if decide (interior W H x' y' /\
                    (x' - x) * (x' - x) + (y' - y) * (y' - y) <= 9)
         then F32.add (cell W (previous g) x' y')
                (F32.mul intensity (drop_wave expf cosf (x' - x) (y' - y)))
         else cell W (previous g) x' y').
Proof.
  intros Hwf. unfold Realfluid.add_water_drop. case_decide as Hguard.
  - destruct (stamp_spec W H 3
                (fun dx dy =>
                   F32.leb (F32.sqrtf (F32.of_int (dx * dx + dy * dy))) F32.c3)
                (fun dx dy => F32.mul intensity (drop_wave expf cosf dx dy))
                g x y Hwf ltac:(lia)) as (g' & Hrun & Hw & Hc & Hd & Hcell).
    exists g'. split; [exact Hrun|]. do 3 (split; [done|]).
    split; [done|]. intros _ x' y' Hin. rewrite (Hcell x' y' Hin).
    destruct (decide (-3 <= x' - x <= 3 /\ -3 <= y' - y <= 3)) as [[Hx Hy]|Hfar].
    + rewrite (disk3 _ _ Hx Hy).
      destruct (decide ((x' - x) * (x' - x) + (y' - y) * (y' - y) <= 9)).
      * rewrite bool_decide_eq_true_2 by done. same_decision.
      * rewrite bool_decide_eq_false_2 by done.
        repeat case_decide; try done; exfalso; destruct_and?;
          first [discriminate|contradiction].
    + rewrite decide_False by tauto. rewrite decide_False; [done|].
      intros [_ Hd9]. apply Hfar. by apply disk3_square.
  - exists g. split; [done|]. do 3 (split; [done|]). split; [done|].
    intros Hg. contradiction.
Qed.
End DropFacts.

(** ** The speed of a disturbance *)

Section ConeFacts.
Variables W H : Z.

Lemma stencil_calm (g : FluidGrid) (x y : Z) :
  damping g = F32.c0_99 ->
  cell W (current g) x y = F32.zero ->
  cell W (previous g) x y = F32.zero ->
  cell W (previous g) (x - 1) y = F32.zero ->
  cell W (previous g) (x + 1) y = F32.zero ->
  cell W (previous g) x (y - 1) = F32.zero ->
  cell W (previous g) x (y + 1) = F32.zero ->
  stencil W g x y = F32.zero.
Proof.
  intros Hd Hc Hp Hl Hr Hu Hdn. unfold stencil, laplacian.
  by rewrite Hd, Hc, Hp, Hl, Hr, Hu, Hdn.
Qed.

Lemma beyond_weaken ps k k' x y : k' <= k -> beyond ps k x y -> beyond ps k' x y.
Proof. intros Hk Hb p Hp. specialize (Hb p Hp). lia. Qed.

Lemma beyond_neighbour ps k x y x' y' :
  Z.abs (x' - x) + Z.abs (y' - y) <= 1 ->
  beyond ps (k + 1) x y -> beyond ps k x' y'.
Proof. intros Hn Hb p Hp. specialize (Hb p Hp). lia. Qed.

Lemma update_fluid_calm ps k g :
  wf W H g -> damping g = F32.c0_99 -> calm_beyond W H ps k g ->
  exists g', Gridfluid.update_fluid W H g = Some g' /\ wf W H g' /\
    damping g' = F32.c0_99 /\ calm_beyond W H ps (k + 1) g'.
Proof.
  intros Hwf Hd Hcalm.
  destruct (update_loop_spec W H g Hwf) as (g1 & Hrun & Hp & Hd1 & Hl & Hc).
  exists (Gridfluid.swap g1). unfold Gridfluid.update_fluid.
  rewrite update_loop_same, Hrun. split; [done|].
  destruct Hwf as [Hlc Hlp]. split; [split; simpl; congruence|].
  split; [simpl; congruence|].
  intros x y Hin Hb. simpl. split.
  - rewrite Hp. apply Hcalm; [done|]. eapply beyond_weaken; [|done]. lia.
  - rewrite (Hc x y Hin). case_decide as Hint.
    + assert (forall x' y', Z.abs (x' - x) + Z.abs (y' - y) <= 1 ->
                cell W (current g) x' y' = F32.zero /\
                cell W (previous g) x' y' = F32.zero) as Hnear.
      { intros x' y' Hn. apply Hcalm.
        - unfold interior in Hint. split; lia.
        - by eapply beyond_neighbour. }
      apply stencil_calm; [done|..]; apply Hnear; lia.
    + apply Hcalm; [done|]. eapply beyond_weaken; [|done]. lia.
Qed.

Lemma add_disturbance_calm ps k g x y i :
  wf W H g -> damping g = F32.c0_99 -> 0 <= k -> calm_beyond W H ps k g ->
  exists g', Gridfluid.add_disturbance W H g x y i = Some g' /\ wf W H g' /\
    damping g' = F32.c0_99 /\ calm_beyond W H (ps ++ [(x, y)]) k g'.
Proof.
  intros Hwf Hd Hk Hcalm.
  destruct (add_disturbance_spec W H g x y i Hwf)
    as (g' & Hrun & Hc & Hd' & Hl & Hcell).
  exists g'. split; [done|]. split; [by eapply add_disturbance_wf|].
  split; [congruence|].
  intros x' y' Hin Hb.
  assert (beyond ps k x' y') as Hb'
    by (intros p Hp; apply Hb, elem_of_app; by left).
  rewrite Hc, (Hcell x' y' Hin). rewrite decide_False; [by apply Hcalm|].
  intros (_ & -> & ->).
  assert ((x, y) ∈ ps ++ [(x, y)]) as Hmem
    by (apply elem_of_app; right; by apply list_elem_of_singleton).
  specialize (Hb (x, y) Hmem). simpl in Hb. lia.
Qed.

Lemma run_calm ops ps k g :
  wf W H g -> damping g = F32.c0_99 -> 0 <= k -> calm_beyond W H ps k g ->
  exists g',
    run (Gridfluid.add_disturbance W H) (Gridfluid.update_fluid W H) ops g
      = Some g' /\
    calm_beyond W H (ps ++ points ops) (k + steps ops) g'.
Proof.
  revert ps k g. induction ops as [|[x y i|] ops IH]; intros ps k g Hwf Hd Hk Hc.
  - exists g. split; [done|]. simpl. by rewrite app_nil_r, Z.add_0_r.
  - destruct (add_disturbance_calm ps k g x y i Hwf Hd Hk Hc)
      as (g1 & Hrun & Hwf1 & Hd1 & Hc1).
    destruct (IH _ _ g1 Hwf1 Hd1 Hk Hc1) as (g' & Hrun' & Hc').
    exists g'. simpl. rewrite Hrun. simpl. split; [done|].
    by rewrite <- app_assoc in Hc'.
  - destruct (update_fluid_calm ps k g Hwf Hd Hc)
      as (g1 & Hrun & Hwf1 & Hd1 & Hc1).
    destruct (IH ps (k + 1) g1 Hwf1 Hd1 ltac:(lia) Hc1) as (g' & Hrun' & Hc').
    exists g'. simpl. rewrite Hrun. simpl. split; [done|].
    by replace (k + (1 + steps ops)) with (k + 1 + steps ops) by lia.
Qed.

(** X: finite propagation speed. *)
Lemma propagation_speed (ops : list op) :
  0 <= W * H ->
  exists g',
    run (Gridfluid.add_disturbance W H) (Gridfluid.update_fluid W H) ops
        (Gridfluid.init_fluid W H) = Some g' /\
    forall x y, in_grid W H x y ->
      (forall x0 y0, (x0, y0) ∈ points ops ->
                     Z.abs (x - x0) + Z.abs (y - y0) > steps ops) ->
      cell W (current g') x y = F32.zero /\
      cell W (previous g') x y = F32.zero.
Proof.
  intros Hn.
  destruct (run_calm ops [] 0 (Gridfluid.init_fluid W H))
    as (g' & Hrun & Hcalm).
  - by apply init_fluid_wf.
  - done.
  - done.
  - intros x y _ _. simpl. by rewrite !cell_calloc.
  - exists g'. split; [done|]. intros x y Hin Hfar.
    apply Hcalm; [done|]. intros [x0 y0] Hp. simpl. by apply Hfar.
Qed.
End ConeFacts.

(** ** Binary32 cells and the texture pass *)

Section RenderFacts.
Variables W H : Z.

Lemma stencil_valid (g : FluidGrid) (x y : Z) :
  cells_valid W H g -> interior W H x y -> valid (stencil W g x y).
Proof.
  intros [Hd Hcells] [Hx Hy]. unfold stencil, laplacian.
  assert (forall a b, Z.abs (a - x) + Z.abs (b - y) <= 1 ->
            valid (cell W (current g) a b) /\ valid (cell W (previous g) a b))
    as Hnear by (intros a b Hab; apply Hcells; split; lia).
  repeat first [ apply valid_mul | apply valid_add | apply valid_sub
               | reflexivity | exact Hd | apply Hnear; lia ].
Qed.

Lemma update_fluid_valid (g : FluidGrid) :
  wf W H g -> cells_valid W H g ->
  exists g', Gridfluid.update_fluid W H g = Some g' /\ wf W H g' /\
             cells_valid W H g'.
Proof.
  intros Hwf Hv.
  destruct (update_loop_spec W H g Hwf) as (g1 & Hrun & Hp & Hd & Hl & Hc).
  exists (Gridfluid.swap g1). unfold Gridfluid.update_fluid.
  rewrite update_loop_same, Hrun. split; [done|].
  destruct Hwf as [Hlc Hlp]. split; [split; simpl; congruence|].
  destruct Hv as [Hdv Hcells]. split; [simpl; by rewrite Hd|].
  intros x y Hin. simpl. split.
  - rewrite Hp. by apply Hcells.
  - rewrite (Hc x y Hin). case_decide.
    + by apply stencil_valid.
    + by apply Hcells.
Qed.

Lemma add_disturbance_valid (g : FluidGrid) (x y : Z) (i : float) :
  wf W H g -> cells_valid W H g -> valid i ->
  exists g', Gridfluid.add_disturbance W H g x y i = Some g' /\ wf W H g' /\
             cells_valid W H g'.
Proof.
  intros Hwf [Hdv Hcells] Hi.
  destruct (add_disturbance_spec W H g x y i Hwf)
    as (g' & Hrun & Hc & Hd & Hl & Hcell).
  exists g'. split; [done|]. split; [by eapply add_disturbance_wf|].
  split; [by rewrite Hd|].
  intros x' y' Hin. rewrite Hc, (Hcell x' y' Hin). split; [by apply Hcells|].
  case_decide as Hhit.
  - destruct Hhit as (Hint & -> & ->). apply valid_add; [|done]. by apply Hcells.
  - by apply Hcells.
Qed.

Lemma init_fluid_valid : cells_valid W H (Gridfluid.init_fluid W H).
Proof. split; [done|]. intros x y _. simpl. by rewrite !cell_calloc. Qed.

(** The texture pass. *)
Lemma update_fluid_texture_spec (pixels : list Z) (g : FluidGrid) (time : Z) :
  0 <= W -> wf W H g -> Z.of_nat (length pixels) = W * H ->
  (forall x y, in_grid W H x y -> valid (cell W (current g) x y)) ->
  exists pixels',
    Realfluid.update_fluid_texture W H pixels g time = Some pixels' /\
    length pixels' = length pixels /\
    forall x y, in_grid W H x y ->
      load pixels' (y * W + x)
      = Realfluid.water_color (cell W (current g) x y) (F32.of_int x)
          (F32.of_int y) time.
Proof.
  intros HW [Hlc Hlp] Hlen Hv. unfold Realfluid.update_fluid_texture.
  pose (P := fun x y (pix : list Z) =>
    length pix = length pixels /\
    forall x' y', in_grid W H x' y' -> (y' < y \/ (y' = y /\ x' < x)) ->
      load pix (y' * W + x')
      = Realfluid.water_color (cell W (current g) x' y') (F32.of_int x')
          (F32.of_int y') time).
  destruct (sweep_2d P
    (fun y x pixels =>
       height ← load (current g) (y * W + x);
       c ← Realfluid.water_color height (F32.of_int x) (F32.of_int y) time;
       store pixels (y * W + x) c) 0 W 0 H pixels) as (pix' & Hrun & Hl & Hpix).
  - done.
  - split; [done|]. intros x' y' [? ?] ?. lia.
  - intros x y pix Hx Hy [Hl Hpix].
    assert (in_grid W H x y) as Hin by done.
    pose proof (index_in_range W H x y Hin) as Hidx.
    rewrite cell_load by lia. simpl.
    destruct (water_color_bounded (cell W (current g) x y) (Hv x y Hin))
      as (r & gr & b & _ & _ & _ & Hcol).
    rewrite Hcol. simpl. rewrite store_in_range by lia.
    eexists. split; [done|]. split; [by rewrite length_insert|].
    intros x' y' Hin' Hvis.
    destruct (decide (x' = x /\ y' = y)) as [[-> ->]|Hne].
    + rewrite Hcol. unfold load. rewrite decide_True by lia.
      apply list_lookup_insert_eq. lia.
    + pose proof (index_in_range W H x' y' Hin') as Hidx'.
      unfold load. rewrite decide_True by lia.
      rewrite list_lookup_insert_ne.
      * specialize (Hpix x' y' Hin' ltac:(lia)). unfold load in Hpix.
        by rewrite decide_True in Hpix by lia.
      * intros Heq. apply Hne. destruct Hin, Hin'.
        assert (y * W + x = y' * W + x') as Heq' by lia.
        apply index_inj in Heq'; lia.
  - intros y pix Hy [Hl Hpix]. split; [done|].
    intros x' y' Hin' Hvis. apply Hpix; [done|]. destruct Hin'. lia.
  - exists pix'. split; [done|]. split; [done|].
    intros x y Hin. apply Hpix; [done|]. destruct Hin. lia.
Qed.
End RenderFacts.

(** ** Magnitudes of binary32 results *)

Section Magnitude.

Lemma Zdigits2_nonneg (m : Z) : 0 <= Zdigits2 m.
Proof. destruct m; simpl; lia. Qed.

Lemma Zdigits2_mono (a b : Z) : 0 <= a <= b -> Zdigits2 a <= Zdigits2 b.
Proof.
  intros [Ha Hab]. destruct (Z.eq_dec a 0) as [->|Hne].
  - apply Zdigits2_nonneg.
  - pose proof (Zdigits2_bounds b ltac:(lia)) as [_ Hb].
    pose proof (Zdigits2_nonneg b).
    apply Zdigits2_lt_pow; lia.
Qed.

Lemma Zdigits2_succ_le (m : Z) : 0 <= m -> Zdigits2 (m + 1) <= Zdigits2 m + 1.
Proof.
  intros Hm. destruct (Z.eq_dec m 0) as [->|Hne]; [simpl; lia|].
  destruct (Zdigits2_succ m ltac:(lia)) as [->|[_ ->]]; lia.
Qed.

Lemma shiftr_pos_digits (m k : Z) : 0 <= m -> 0 <= k -> 0 < m / 2 ^ k -> k < Zdigits2 m.
Proof.
  intros Hm Hk Hpos. destruct (Z.lt_ge_cases k (Zdigits2 m)) as [|Hge]; [done|].
  rewrite shiftr_small in Hpos by done. lia.
Qed.

(** What rounding does to the size of a number: under the condition that
    the exponent is not above the canonical one, the result is a zero or a
    finite number of the same sign, at most one binary order larger. *)
Lemma binary_round_aux_mag (s : bool) (m e : Z) (l : location) (k : Z) :
  0 <= m -> e <= fexp F32.prec F32.emax (Zdigits2 m + e) ->
  Zdigits2 m + e + 1 <= k -> -148 <= k <= 128 ->
  binary_round_aux F32.prec F32.emax s m e l = S754_zero s \/
  exists m2 e2, binary_round_aux F32.prec F32.emax s m e l = S754_finite s m2 e2
                /\ Zdigits2 (Z.pos m2) + e2 <= k.
Proof.
  intros Hm Hpre Hdk Hk. unfold binary_round_aux.
  pose proof (shr_fexp_m m e l Hm) as [Hm1 He1]. simpl in Hm1, He1.
  destruct (shr_fexp F32.prec F32.emax m e l) as [r1 e1]. simpl in Hm1, He1.
  assert (round_nearest_even (shr_m r1) (loc_of_shr_record r1) = shr_m r1 \/
          round_nearest_even (shr_m r1) (loc_of_shr_record r1) = shr_m r1 + 1)
    as Hround by apply round_nearest_even_bounds.
  remember (round_nearest_even (shr_m r1) (loc_of_shr_record r1)) as m1'
    eqn:Hdef. clear Hdef.
  assert (0 <= shr_m r1) as Hm1pos.
  { rewrite Hm1. apply Z.div_pos; [lia|]. apply Z.pow_pos_nonneg; lia. }
  pose proof (shr_fexp_m m1' e1 loc_Exact ltac:(lia)) as [Hm2 He2].
  simpl in Hm2, He2.
  destruct (shr_fexp F32.prec F32.emax m1' e1 loc_Exact) as [r2 e2].
  simpl in Hm2, He2. rewrite fexp32 in *.
  remember (Zdigits2 m) as d eqn:Hd.
  assert (0 <= d) as Hdpos by (rewrite Hd; apply Zdigits2_nonneg).
  remember (Z.max 0 (Z.max (d + e - 24) (-149) - e)) as k1 eqn:Hk1.
  remember (Z.max 0 (Z.max (Zdigits2 m1' + e1 - 24) (-149) - e1)) as k2 eqn:Hk2.
  assert (0 <= m1') as Hm1'pos by lia.
  assert (0 <= shr_m r2) as Hm2pos.
  { rewrite Hm2. apply Z.div_pos; [lia|]. apply Z.pow_pos_nonneg; lia. }
  destruct (shr_m r2) as [|p|p] eqn:Hr2; [by left| |lia].
  right. rewrite <- Hr2 in Hm2.
  assert (0 < m1' / 2 ^ k2) as Hq by lia.
  pose proof (shiftr_pos_digits m1' k2 Hm1'pos ltac:(lia) Hq) as Hk2d.
  assert (0 < m1') as Hm1'gt.
  { destruct (Z.eq_dec m1' 0) as [Hz|]; [|lia]. rewrite Hz in Hk2d. simpl in Hk2d. lia. }
  assert (Zdigits2 (Z.pos p) = Zdigits2 m1' - k2) as Hd2.
  { rewrite <- Hr2, Hm2. apply Zdigits2_shiftr; lia. }
  assert (Zdigits2 m1' + e1 <= k) as Hbound.
  { destruct (Z.eq_dec (shr_m r1) 0) as [Hz|Hnz].
    - assert (m1' = 1) as -> by lia. simpl. lia.
    - assert (0 < m / 2 ^ k1) as Hq1 by lia.
      pose proof (shiftr_pos_digits m k1 Hm ltac:(lia) Hq1) as Hk1d.
      assert (0 < m) as Hmpos.
      { destruct (Z.eq_dec m 0) as [Hz|]; [|lia].
        rewrite Hz in Hk1d. simpl in Hk1d. lia. }
      assert (Zdigits2 (shr_m r1) = d - k1) as Hd1.
      { rewrite Hm1, Hd. apply Zdigits2_shiftr; lia. }
      assert (Zdigits2 m1' <= Zdigits2 (shr_m r1) + 1).
      { destruct Hround as [-> | ->]; [lia|]. by apply Zdigits2_succ_le. }
      lia. }
  replace (e2 <=? F32.emax - F32.prec) with true
    by (symmetry; apply Z.leb_le; unfold F32.emax, F32.prec; lia).
  exists p, e2. split; [done|]. lia.
Qed.

End Magnitude.

Section Magnitude2.

Lemma binary_round_aux_valid_zero (s : bool) (e : Z) (l : location) :
  e <= fexp F32.prec F32.emax e ->
  valid (binary_round_aux F32.prec F32.emax s 0 e l).
Proof.
  intros Hpre. unfold valid, binary_round_aux.
  pose proof (shr_fexp_m 0 e l ltac:(lia)) as [Hm1 He1]. simpl in Hm1, He1.
  destruct (shr_fexp F32.prec F32.emax 0 e l) as [r1 e1]. simpl in Hm1, He1.
  rewrite Z.div_0_l in Hm1 by (apply Z.pow_nonzero; lia).
  assert (round_nearest_even (shr_m r1) (loc_of_shr_record r1) = shr_m r1 \/
          round_nearest_even (shr_m r1) (loc_of_shr_record r1) = shr_m r1 + 1)
    as Hround by apply round_nearest_even_bounds.
  remember (round_nearest_even (shr_m r1) (loc_of_shr_record r1)) as m1'
    eqn:Hdef. clear Hdef. rewrite Hm1 in Hround.
  rewrite fexp32 in *.
  destruct Hround as [-> | ->].
  - pose proof (shr_fexp_m 0 e1 loc_Exact ltac:(lia)) as [Hm2 _].
    destruct (shr_fexp F32.prec F32.emax 0 e1 loc_Exact) as [r2 e2].
    simpl in Hm2. rewrite Z.div_0_l in Hm2 by (apply Z.pow_nonzero; lia).
    by rewrite Hm2.
  - change (0 + 1) with 1.
    pose proof (shr_fexp_m 1 e1 loc_Exact ltac:(lia)) as [Hm2 He2].
    destruct (shr_fexp F32.prec F32.emax 1 e1 loc_Exact) as [r2 e2].
    simpl in Hm2, He2. rewrite fexp32 in *.
    assert (e1 = -149) as -> by lia.
    simpl in Hm2, He2. rewrite Hm2, He2. reflexivity.
Qed.

Lemma binary_round_aux_valid_nonneg (s : bool) (m e : Z) (l : location) :
  0 <= m -> e <= fexp F32.prec F32.emax (Zdigits2 m + e) ->
  valid (binary_round_aux F32.prec F32.emax s m e l).
Proof.
  intros Hm Hpre. destruct (Z.eq_dec m 0) as [->|Hne].
  - by apply binary_round_aux_valid_zero.
  - apply binary_round_aux_valid; [lia|done].
Qed.

(** Rounding does not lose a binary order, short of underflow. *)
Lemma binary_round_aux_lower (s : bool) (m e : Z) (l : location) :
  0 < m -> e <= fexp F32.prec F32.emax (Zdigits2 m + e) ->
  -148 <= Zdigits2 m + e <= 127 ->
  exists m2 e2,
    binary_round_aux F32.prec F32.emax s m e l = S754_finite s m2 e2 /\
    Zdigits2 m + e <= Zdigits2 (Z.pos m2) + e2 <= Zdigits2 m + e + 1.
Proof.
  intros Hm Hpre Hrange.
  destruct (binary_round_aux_mag s m e l (Zdigits2 m + e + 1)
              ltac:(lia) Hpre ltac:(lia) ltac:(lia)) as [Hz|(m2 & e2 & Hf & Hup)].
  - exfalso. revert Hz. unfold binary_round_aux.
    pose proof (shr_fexp_m m e l ltac:(lia)) as [Hm1 He1]. simpl in Hm1, He1.
    destruct (shr_fexp F32.prec F32.emax m e l) as [r1 e1]. simpl in Hm1, He1.
    assert (round_nearest_even (shr_m r1) (loc_of_shr_record r1) = shr_m r1 \/
            round_nearest_even (shr_m r1) (loc_of_shr_record r1) = shr_m r1 + 1)
      as Hround by apply round_nearest_even_bounds.
    remember (round_nearest_even (shr_m r1) (loc_of_shr_record r1)) as m1'
      eqn:Hdef. clear Hdef.
    pose proof (Zdigits2_pos m Hm) as Hdpos.
    rewrite fexp32 in *.
    assert (Zdigits2 (shr_m r1) = Zdigits2 m
                                  - Z.max 0 (Z.max (Zdigits2 m + e - 24) (-149) - e))
      as Hd1 by (rewrite Hm1; apply Zdigits2_shiftr; lia).
    assert (0 < shr_m r1) as Hm1pos.
    { destruct (Z.eq_dec (shr_m r1) 0) as [Hz|Hnz].
      - rewrite Hz in Hd1. simpl in Hd1. lia.
      - assert (0 <= shr_m r1); [|lia]. rewrite Hm1.
        apply Z.div_pos; [lia|]. apply Z.pow_pos_nonneg; lia. }
    assert (Zdigits2 (shr_m r1) <= Zdigits2 m1' <= Zdigits2 (shr_m r1) + 1) as Hd1'.
    { destruct Hround as [-> | ->]; [lia|]. split.
      - apply Zdigits2_mono. lia.
      - apply Zdigits2_succ_le. lia. }
    pose proof (shr_fexp_m m1' e1 loc_Exact ltac:(lia)) as [Hm2 He2].
    simpl in Hm2, He2.
    destruct (shr_fexp F32.prec F32.emax m1' e1 loc_Exact) as [r2 e2].
    simpl in Hm2, He2. rewrite fexp32 in *.
    assert (Zdigits2 (shr_m r2) = Zdigits2 m1'
              - Z.max 0 (Z.max (Zdigits2 m1' + e1 - 24) (-149) - e1)) as Hd2
      by (rewrite Hm2; apply Zdigits2_shiftr; lia).
    destruct (shr_m r2) as [|p|p] eqn:Hr2.
    + simpl in Hd2. lia.
    + by destruct (e2 <=? F32.emax - F32.prec).
    + done.
  - exists m2, e2. split; [done|]. split; [|lia].
    (* the same trace, reading the digits of the result *)
    revert Hf. unfold binary_round_aux.
    pose proof (shr_fexp_m m e l ltac:(lia)) as [Hm1 He1]. simpl in Hm1, He1.
    destruct (shr_fexp F32.prec F32.emax m e l) as [r1 e1]. simpl in Hm1, He1.
    assert (round_nearest_even (shr_m r1) (loc_of_shr_record r1) = shr_m r1 \/
            round_nearest_even (shr_m r1) (loc_of_shr_record r1) = shr_m r1 + 1)
      as Hround by apply round_nearest_even_bounds.
    remember (round_nearest_even (shr_m r1) (loc_of_shr_record r1)) as m1'
      eqn:Hdef. clear Hdef.
    pose proof (Zdigits2_pos m Hm) as Hdpos.
    rewrite fexp32 in *.
    assert (Zdigits2 (shr_m r1) = Zdigits2 m
                                  - Z.max 0 (Z.max (Zdigits2 m + e - 24) (-149) - e))
      as Hd1 by (rewrite Hm1; apply Zdigits2_shiftr; lia).
    assert (0 < shr_m r1) as Hm1pos.
    { destruct (Z.eq_dec (shr_m r1) 0) as [Hz|Hnz].
      - rewrite Hz in Hd1. simpl in Hd1. lia.
      - assert (0 <= shr_m r1); [|lia]. rewrite Hm1.
        apply Z.div_pos; [lia|]. apply Z.pow_pos_nonneg; lia. }
    assert (Zdigits2 (shr_m r1) <= Zdigits2 m1' <= Zdigits2 (shr_m r1) + 1) as Hd1'.
    { destruct Hround as [-> | ->]; [lia|]. split.
      - apply Zdigits2_mono. lia.
      - apply Zdigits2_succ_le. lia. }
    pose proof (shr_fexp_m m1' e1 loc_Exact ltac:(lia)) as [Hm2 He2].
    simpl in Hm2, He2.
    destruct (shr_fexp F32.prec F32.emax m1' e1 loc_Exact) as [r2 e2'].
    simpl in Hm2, He2. rewrite fexp32 in *.
    assert (Zdigits2 (shr_m r2) = Zdigits2 m1'
              - Z.max 0 (Z.max (Zdigits2 m1' + e1 - 24) (-149) - e1)) as Hd2
      by (rewrite Hm2; apply Zdigits2_shiftr; lia).
    destruct (shr_m r2) as [|p|p] eqn:Hr2; [done| |done].
    destruct (e2' <=? F32.emax - F32.prec); [|done].
    intros [= <- <-]. lia.
Qed.

End Magnitude2.

Section Magnitude3.

Lemma shl_align_fexp_spec (m : positive) (e : Z) :
  let '(mz, ez) :=
    shl_align m e (fexp F32.prec F32.emax (Z.pos (digits2_pos m) + e)) in
  Zdigits2 (Z.pos mz) + ez = Zdigits2 (Z.pos m) + e /\
  ez <= fexp F32.prec F32.emax (Zdigits2 (Z.pos mz) + ez).
Proof.
  pose proof (shl_align_spec m e
                (fexp F32.prec F32.emax (Z.pos (digits2_pos m) + e))) as [He Hm].
  destruct (shl_align m e _) as [mz ez]. simpl in He, Hm.
  assert (Zdigits2 (Z.pos mz) + ez = Zdigits2 (Z.pos m) + e) as Hd.
  { rewrite Hm, Zdigits2_shiftl by lia. lia. }
  split; [done|]. rewrite Hd. simpl. lia.
Qed.

Lemma binary_round_mag (s : bool) (m : positive) (e k : Z) :
  Zdigits2 (Z.pos m) + e + 1 <= k -> -148 <= k <= 128 ->
  binary_round F32.prec F32.emax s m e = S754_zero s \/
  exists m2 e2, binary_round F32.prec F32.emax s m e = S754_finite s m2 e2 /\
                Zdigits2 (Z.pos m2) + e2 <= k.
Proof.
  intros Hd Hk. unfold binary_round.
  pose proof (shl_align_fexp_spec m e) as Hal.
  destruct (shl_align m e _) as [mz ez]. destruct Hal as [Hsum Hpre].
  apply binary_round_aux_mag; [lia|done|lia|done].
Qed.

Lemma binary_round_lower (s : bool) (m : positive) (e : Z) :
  -148 <= Zdigits2 (Z.pos m) + e <= 127 ->
  exists m2 e2, binary_round F32.prec F32.emax s m e = S754_finite s m2 e2 /\
    Zdigits2 (Z.pos m) + e <= Zdigits2 (Z.pos m2) + e2
                           <= Zdigits2 (Z.pos m) + e + 1.
Proof.
  intros Hd. unfold binary_round.
  pose proof (shl_align_fexp_spec m e) as Hal.
  destruct (shl_align m e _) as [mz ez]. destruct Hal as [Hsum Hpre].
  rewrite <- Hsum. apply binary_round_aux_lower; [lia|done|lia].
Qed.

(** Conversion of integers. *)
Lemma of_int_valid (z : Z) : valid (F32.of_int z).
Proof. apply binary_normalize_valid. Qed.

Lemma of_int_mag (z k : Z) :
  Zdigits2 z + 1 <= k -> k <= 128 -> mag k (F32.of_int z).
Proof.
  intros Hd Hk. pose proof (Zdigits2_nonneg z).
  destruct z as [|p|p]; [done| |].
  - destruct (binary_round_mag false p 0 k) as [Hz|(m2 & e2 & Hf & Hm)];
      [simpl in *; lia|lia| |].
    + unfold F32.of_int. simpl. by rewrite Hz.
    + unfold F32.of_int. simpl. by rewrite Hf.
  - destruct (binary_round_mag true p 0 k) as [Hz|(m2 & e2 & Hf & Hm)];
      [simpl in *; lia|lia| |].
    + unfold F32.of_int. simpl. by rewrite Hz.
    + unfold F32.of_int. simpl. by rewrite Hf.
Qed.

Lemma of_int_pos (z : Z) :
  0 < z -> Zdigits2 z <= 127 ->
  exists m e, F32.of_int z = S754_finite false m e /\
    Zdigits2 z <= Zdigits2 (Z.pos m) + e <= Zdigits2 z + 1.
Proof.
  intros Hz Hd. destruct z as [|p|p]; try lia.
  destruct (binary_round_lower false p 0) as (m2 & e2 & Hf & Hm).
  - pose proof (Zdigits2_pos (Z.pos p) ltac:(lia)). lia.
  - exists m2, e2. split; [done|]. lia.
Qed.

Lemma of_int_nonneg (z : Z) : 0 <= z -> Zdigits2 z <= 127 -> nonneg (F32.of_int z).
Proof.
  intros Hz Hd. destruct (Z.eq_dec z 0) as [->|Hne]; [done|].
  destruct (of_int_pos z ltac:(lia) Hd) as (m & e & -> & _). done.
Qed.

(** Size of an integer given by a bound. *)
Lemma Zdigits2_abs_lt (z j : Z) : 0 <= j -> Z.abs z < 2 ^ j -> Zdigits2 z <= j.
Proof.
  intros Hj Hz. destruct z as [|p|p]; [simpl; lia| |].
  - apply Zdigits2_lt_pow; lia.
  - change (Zdigits2 (Z.neg p)) with (Zdigits2 (Z.pos p)).
    apply Zdigits2_lt_pow; lia.
Qed.

(** Product. *)
Lemma Zdigits2_mul_le (a b : Z) :
  0 < a -> 0 < b -> Zdigits2 (a * b) <= Zdigits2 a + Zdigits2 b.
Proof.
  intros Ha Hb.
  pose proof (Zdigits2_bounds a Ha) as [_ Hha].
  pose proof (Zdigits2_bounds b Hb) as [_ Hhb].
  pose proof (Zdigits2_pos a Ha). pose proof (Zdigits2_pos b Hb).
  apply Zdigits2_lt_pow; [lia|lia|].
  rewrite Z.pow_add_r by lia. nia.
Qed.

Lemma mul_mag (x y : float) (kx ky k : Z) :
  valid x -> valid y -> mag kx x -> mag ky y ->
  kx + ky + 1 <= k -> -148 <= k <= 128 ->
  mag k (F32.mul x y) /\ (nonneg x -> nonneg y -> nonneg (F32.mul x y)).
Proof.
  intros Hvx Hvy Hx Hy Hk Hr.
  destruct x as [sx|sx| |sx mx ex], y as [sy|sy| |sy my ey]; try done;
    try (by split).
  - change (Zdigits2 (Z.pos mx) + ex <= kx) in Hx.
    change (Zdigits2 (Z.pos my) + ey <= ky) in Hy.
    destruct (valid_digits _ _ _ Hvx) as [Hcx _].
    destruct (valid_digits _ _ _ Hvy) as [Hcy _].
    pose proof (Zdigits2_mul (Z.pos mx) (Z.pos my) ltac:(lia) ltac:(lia)).
    pose proof (Zdigits2_mul_le (Z.pos mx) (Z.pos my) ltac:(lia) ltac:(lia)).
    pose proof (Zdigits2_pos (Z.pos mx) ltac:(lia)).
    pose proof (Zdigits2_pos (Z.pos my) ltac:(lia)).
    destruct (binary_round_aux_mag (xorb sx sy) (Z.pos (mx * my)) (ex + ey)
                loc_Exact k) as [Hz|(m2 & e2 & Hf & Hm)].
    + lia.
    + rewrite fexp32, Pos2Z.inj_mul. lia.
    + rewrite Pos2Z.inj_mul. lia.
    + done.
    + unfold F32.mul, SFmul. rewrite Hz. split; [done|]. done.
    + unfold F32.mul, SFmul. rewrite Hf. split; [done|].
      simpl. by intros -> ->.
Qed.

End Magnitude3.

Section Magnitude4.

Lemma Zdigits2_opp (z : Z) : Zdigits2 (- z) = Zdigits2 z.
Proof. by destruct z. Qed.

Lemma Zdigits2_sum (a b j : Z) :
  0 <= j -> Z.abs a < 2 ^ j -> Z.abs b < 2 ^ j -> Zdigits2 (a + b) <= j + 1.
Proof.
  intros Hj Ha Hb. apply Zdigits2_abs_lt; [lia|].
  rewrite Z.pow_add_r by lia. lia.
Qed.

Lemma aligned_mantissa (m : positive) (e ez k : Z) :
  ez <= e -> Zdigits2 (Z.pos m) + e <= k ->
  Z.pos (fst (shl_align m e ez)) < 2 ^ (k - ez) /\ 0 <= k - ez.
Proof.
  intros Hez Hk. pose proof (shl_align_spec m e ez) as [_ Hm].
  rewrite Z.min_r in Hm by lia. rewrite Hm.
  pose proof (Zdigits2_pos (Z.pos m) ltac:(lia)).
  pose proof (Zdigits2_bounds (Z.pos m * 2 ^ (e - ez))) as Hb.
  assert (0 < 2 ^ (e - ez)) by (apply Z.pow_pos_nonneg; lia).
  destruct Hb as [_ Hb]; [lia|].
  rewrite Zdigits2_shiftl in Hb by lia. split; [|lia].
  assert (2 ^ (Zdigits2 (Z.pos m) + (e - ez)) <= 2 ^ (k - ez))
    by (apply Z.pow_le_mono_r; lia).
  lia.
Qed.

Lemma binary_normalize_mag (z e k : Z) :
  Zdigits2 z + e + 1 <= k -> -148 <= k <= 128 ->
  mag k (binary_normalize F32.prec F32.emax z e false) /\
  (0 <= z -> nonneg (binary_normalize F32.prec F32.emax z e false)).
Proof.
  intros Hd Hk. destruct z as [|p|p]; [done| |].
  - destruct (binary_round_mag false p e k Hd Hk) as [Hz|(m2 & e2 & Hf & Hm)];
      simpl; [by rewrite Hz|by rewrite Hf].
  - destruct (binary_round_mag true p e k Hd Hk) as [Hz|(m2 & e2 & Hf & Hm)];
      simpl; [rewrite Hz|rewrite Hf]; (split; [done|lia]).
Qed.

Lemma add_mag (x y : float) (kx ky k : Z) :
  mag kx x -> mag ky y -> Z.max kx ky + 2 <= k -> -146 <= k <= 128 ->
  mag k (F32.add x y) /\ (nonneg x -> nonneg y -> nonneg (F32.add x y)).
Proof.
  intros Hx Hy Hk Hr.
  destruct x as [sx|sx| |sx mx ex], y as [sy|sy| |sy my ey]; try done.
  - split; [by destruct sx, sy|]. by destruct sx, sy.
  - split; [|done]. change (Zdigits2 (Z.pos my) + ey <= ky) in Hy.
    change (Zdigits2 (Z.pos my) + ey <= k). lia.
  - split; [|done]. change (Zdigits2 (Z.pos mx) + ex <= kx) in Hx.
    change (Zdigits2 (Z.pos mx) + ex <= k). lia.
  - change (Zdigits2 (Z.pos mx) + ex <= kx) in Hx.
    change (Zdigits2 (Z.pos my) + ey <= ky) in Hy.
    unfold F32.add, SFadd.
    destruct (aligned_mantissa mx ex (Z.min ex ey) (Z.max kx ky))
      as [Ha Hj]; [lia|lia|].
    destruct (aligned_mantissa my ey (Z.min ex ey) (Z.max kx ky))
      as [Hb _]; [lia|lia|].
    remember (Z.pos (fst (shl_align mx ex (Z.min ex ey)))) as a.
    remember (Z.pos (fst (shl_align my ey (Z.min ex ey)))) as b.
    assert (0 < a /\ 0 < b) as [Hapos Hbpos] by (subst; lia).
    destruct (binary_normalize_mag (cond_Zopp sx a + cond_Zopp sy b)
                (Z.min ex ey) k) as [Hm Hn].
    + pose proof (Zdigits2_sum (cond_Zopp sx a) (cond_Zopp sy b)
                    (Z.max kx ky - Z.min ex ey) Hj) as Hs.
      destruct sx, sy; simpl in *; lia.
    + lia.
    + split; [done|]. simpl. intros -> ->. apply Hn. simpl. lia.
Qed.

(** Truncation of a number of known size. *)
Lemma trunc_mag (x : float) (k : Z) :
  mag k x -> 0 <= k ->
  exists z, F32.trunc x = Some z /\ - 2 ^ k < z < 2 ^ k /\ (nonneg x -> 0 <= z).
Proof.
  intros Hx Hk. assert (0 < 2 ^ k) by (apply Z.pow_pos_nonneg; lia).
  destruct x as [s|s| |s m e]; try done.
  - exists 0. split; [done|]. lia.
  - change (Zdigits2 (Z.pos m) + e <= k) in Hx.
    pose proof (Zdigits2_bounds (Z.pos m) ltac:(lia)) as [_ Hb].
    pose proof (Zdigits2_pos (Z.pos m) ltac:(lia)) as Hd.
    assert (0 <= Z.shiftl (Z.pos m) e < 2 ^ k) as Hs.
    { destruct (Z.le_gt_cases 0 e) as [He|He].
      - rewrite Z.shiftl_mul_pow2 by lia.
        assert (0 < 2 ^ e) by (apply Z.pow_pos_nonneg; lia).
        assert (2 ^ (Zdigits2 (Z.pos m) + e) <= 2 ^ k)
          by (apply Z.pow_le_mono_r; lia).
        rewrite Z.pow_add_r in * by lia. nia.
      - rewrite Z.shiftl_div_pow2 by lia.
        assert (0 < 2 ^ (- e)) by (apply Z.pow_pos_nonneg; lia).
        split; [apply Z.div_pos; lia|].
        destruct (Z.le_gt_cases (- e) (Zdigits2 (Z.pos m))) as [Hde|Hde].
        + apply Z.div_lt_upper_bound; [done|].
          assert (2 ^ (Zdigits2 (Z.pos m) + e) <= 2 ^ k)
            by (apply Z.pow_le_mono_r; lia).
          replace (Zdigits2 (Z.pos m)) with (- e + (Zdigits2 (Z.pos m) + e)) in Hb
            by lia.
          rewrite Z.pow_add_r in Hb by lia. nia.
        + rewrite Z.div_small; [lia|]. split; [lia|].
          assert (2 ^ Zdigits2 (Z.pos m) <= 2 ^ (- e))
            by (apply Z.pow_le_mono_r; lia).
          lia. }
    eexists. split; [done|]. simpl. split.
    + destruct s; simpl; lia.
    + intros ->. simpl. lia.
Qed.

End Magnitude4.

Section Magnitude5.

Lemma pow2_square (c : Z) : 0 <= c -> 2 ^ (2 * c) = 2 ^ c * 2 ^ c.
Proof. intros Hc. rewrite <- Z.pow_add_r by lia. f_equal. lia. Qed.

(** Digits of an integer square root. *)
Lemma Zdigits2_sqrt (n q c : Z) :
  0 < n -> 0 <= q -> q * q <= n < (q + 1) * (q + 1) ->
  c = (Zdigits2 n + 1) / 2 -> Zdigits2 q = c.
Proof.
  intros Hn Hq [Hlo Hhi] Hc.
  pose proof (Zdigits2_bounds n Hn) as [Hnl Hnh].
  pose proof (Zdigits2_pos n Hn) as Hd.
  assert (1 <= c /\ Zdigits2 n <= 2 * c <= Zdigits2 n + 1) as (Hc1 & Hc2 & Hc3).
  { subst c. pose proof (Z.div_mod (Zdigits2 n + 1) 2 ltac:(lia)).
    pose proof (Z.mod_pos_bound (Zdigits2 n + 1) 2 ltac:(lia)). lia. }
  assert (0 < q) as Hqpos by nia.
  pose proof (Zdigits2_bounds q Hqpos) as [Hql Hqh].
  pose proof (Zdigits2_pos q Hqpos) as Hdq.
  destruct (Z.lt_trichotomy (Zdigits2 q) c) as [Hlt|[Heq|Hgt]]; [|done|].
  - exfalso.
    assert (2 ^ Zdigits2 q <= 2 ^ (c - 1)) by (apply Z.pow_le_mono_r; lia).
    assert (2 ^ (2 * (c - 1)) <= 2 ^ (Zdigits2 n - 1))
      by (apply Z.pow_le_mono_r; lia).
    rewrite pow2_square in * by lia.
    assert (0 < 2 ^ (c - 1)) by (apply Z.pow_pos_nonneg; lia).
    nia.
  - exfalso.
    assert (2 ^ c <= 2 ^ (Zdigits2 q - 1)) by (apply Z.pow_le_mono_r; lia).
    assert (2 ^ Zdigits2 n <= 2 ^ (2 * c)) by (apply Z.pow_le_mono_r; lia).
    rewrite pow2_square in * by lia.
    assert (0 < 2 ^ c) by (apply Z.pow_pos_nonneg; lia).
    nia.
Qed.

Lemma sqrt_core_spec (m : positive) (e : Z) :
  let '(q, e', l) := SFsqrt_core_binary F32.prec F32.emax (Z.pos m) e in
  0 < q /\ e' <= fexp F32.prec F32.emax (Zdigits2 q + e') /\
  Zdigits2 q + e' = (Zdigits2 (Z.pos m) + e + 1) / 2.
Proof.
  unfold SFsqrt_core_binary.
  remember (Zdigits2 (Z.pos m)) as d eqn:Hd.
  remember (Z.min (fexp F32.prec F32.emax (Z.div2 (d + e + 1))) (Z.div2 e))
    as e' eqn:He'.
  rewrite !Z.div2_div in He'.
  pose proof (Z.div_mod e 2 ltac:(lia)) as He2.
  pose proof (Z.mod_pos_bound e 2 ltac:(lia)) as He2'.
  assert (0 <= e - 2 * e') as Hs by lia.
  remember (e - 2 * e') as s eqn:Hsdef.
  assert (match s with
          | 0 => Z.pos m
          | Z.pos _ => Z.shiftl (Z.pos m) s
          | Z.neg _ => 0
          end = Z.pos m * 2 ^ s) as ->.
  { destruct s as [|p|p]; [simpl; lia| |lia]. by rewrite Z.shiftl_mul_pow2. }
  assert (0 < 2 ^ s) as Hps by (apply Z.pow_pos_nonneg; lia).
  pose proof (Z.sqrtrem_spec (Z.pos m * 2 ^ s) ltac:(lia)) as Hspec.
  destruct (Z.sqrtrem (Z.pos m * 2 ^ s)) as [q r]. destruct Hspec as [Hn Hr].
  assert (0 <= q) as Hq by lia.
  assert (Zdigits2 q = (Zdigits2 (Z.pos m * 2 ^ s) + 1) / 2) as Hdq.
  { apply (Zdigits2_sqrt (Z.pos m * 2 ^ s)); [lia|done|nia|done]. }
  rewrite Zdigits2_shiftl, <- Hd in Hdq by lia.
  assert (Zdigits2 q + e' = (d + e + 1) / 2) as Hsum.
  { rewrite Hdq. replace (d + e + 1) with (d + s + 1 + e' * 2) by lia.
    rewrite Z.div_add by lia. done. }
  pose proof (Zdigits2_pos (Z.pos m) ltac:(lia)) as Hdpos. rewrite <- Hd in Hdpos.
  assert (0 < q) as Hqpos.
  { destruct (Z.eq_dec q 0) as [->|]; [|lia]. simpl in Hdq.
    pose proof (Z.div_le_lower_bound (d + s + 1) 2 1 ltac:(lia) ltac:(lia)). lia. }
  destruct (r =? 0); (split; [done|]); (split; [|done]); rewrite Hsum; lia.
Qed.

Lemma sqrtf_mag (x : float) (kx k : Z) :
  nonneg x -> mag kx x -> (kx + 1) / 2 + 1 <= k -> -148 <= k <= 128 ->
  valid x ->
  valid (F32.sqrtf x) /\ nonneg (F32.sqrtf x) /\ mag k (F32.sqrtf x).
Proof.
  intros Hn Hx Hk Hr Hv. destruct x as [s|s| |s m e]; try done.
  simpl in Hn. subst s. change (Zdigits2 (Z.pos m) + e <= kx) in Hx.
  unfold F32.sqrtf, SFsqrt.
  pose proof (sqrt_core_spec m e) as Hcore.
  destruct (SFsqrt_core_binary F32.prec F32.emax (Z.pos m) e) as [[q e'] l].
  destruct Hcore as (Hq & Hpre & Hsum).
  assert ((Zdigits2 (Z.pos m) + e + 1) / 2 <= (kx + 1) / 2)
    by (apply Z.div_le_mono; lia).
  split; [apply binary_round_aux_valid; done|].
  destruct (binary_round_aux_mag false q e' l k) as [Hz|(m2 & e2 & Hf & Hm)];
    [lia|done|lia|done| |].
  - by rewrite Hz.
  - by rewrite Hf.
Qed.

(** Division. *)
Lemma div_core_spec (m1 m2 : positive) (e1 e2 : Z) :
  let '(q, e', l) :=
    SFdiv_core_binary F32.prec F32.emax (Z.pos m1) e1 (Z.pos m2) e2 in
  0 <= q /\ e' <= fexp F32.prec F32.emax (Zdigits2 q + e') /\
  Zdigits2 q + e'
  <= Z.max (Zdigits2 (Z.pos m1) + e1 - (Zdigits2 (Z.pos m2) + e2) + 1) (-149).
Proof.
  unfold SFdiv_core_binary.
  remember (Zdigits2 (Z.pos m1)) as d1 eqn:Hd1.
  remember (Zdigits2 (Z.pos m2)) as d2 eqn:Hd2.
  remember (Z.min (fexp F32.prec F32.emax (d1 + e1 - (d2 + e2))) (e1 - e2))
    as e' eqn:He'.
  rewrite fexp32 in He'.
  assert (0 <= e1 - e2 - e') as Hs by lia.
  remember (e1 - e2 - e') as s eqn:Hsdef.
  assert (match s with
          | 0 => Z.pos m1
          | Z.pos _ => Z.shiftl (Z.pos m1) s
          | Z.neg _ => 0
          end = Z.pos m1 * 2 ^ s) as ->.
  { destruct s as [|p|p]; [simpl; lia| |lia]. by rewrite Z.shiftl_mul_pow2. }
  assert (0 < 2 ^ s) as Hps by (apply Z.pow_pos_nonneg; lia).
  pose proof (Z_div_mod (Z.pos m1 * 2 ^ s) (Z.pos m2) ltac:(lia)) as Hdm.
  destruct (Z.div_eucl (Z.pos m1 * 2 ^ s) (Z.pos m2)) as [q r].
  destruct Hdm as [Hn Hr].
  assert (0 <= q) as Hq by nia.
  pose proof (Zdigits2_bounds (Z.pos m1 * 2 ^ s) ltac:(lia)) as [Hnl Hnh].
  rewrite Zdigits2_shiftl, <- Hd1 in Hnl, Hnh by lia.
  pose proof (Zdigits2_bounds (Z.pos m2) ltac:(lia)) as [Hml Hmh].
  rewrite <- Hd2 in Hml, Hmh.
  pose proof (Zdigits2_pos (Z.pos m1) ltac:(lia)) as Hd1pos.
  pose proof (Zdigits2_pos (Z.pos m2) ltac:(lia)) as Hd2pos.
  rewrite <- Hd1 in Hd1pos. rewrite <- Hd2 in Hd2pos.
  pose proof (Zdigits2_nonneg q) as Hdq0.
  (* an upper bound on the digits of the quotient *)
  assert (Zdigits2 q <= Z.max 0 (d1 + s - d2 + 1)) as Hup.
  { destruct (Z.eq_dec q 0) as [->|Hq0]; [simpl; lia|].
    destruct (Z.le_gt_cases 0 (d1 + s - d2 + 1)) as [Hc|Hc].
    - rewrite Z.max_r by lia. apply Zdigits2_lt_pow; [lia|lia|].
      assert (2 ^ (d1 + s) = 2 ^ (d1 + s - d2 + 1) * 2 ^ (d2 - 1)) as Hsplit
        by (rewrite <- Z.pow_add_r by lia; f_equal; lia).
      assert (0 < 2 ^ (d2 - 1)) by (apply Z.pow_pos_nonneg; lia).
      nia.
    - exfalso.
      assert (2 ^ (d1 + s) <= 2 ^ (d2 - 1)) by (apply Z.pow_le_mono_r; lia).
      nia. }
  (* a lower bound, when the quotient has a digit to show *)
  assert (0 <= d1 + s - 1 - d2 -> d1 + s - d2 <= Zdigits2 q) as Hlow.
  { intros Hc.
    assert (2 ^ (d1 + s - 1) = 2 ^ (d1 + s - 1 - d2) * 2 ^ d2) as Hsplit
      by (rewrite <- Z.pow_add_r by lia; f_equal; lia).
    assert (0 < 2 ^ (d1 + s - 1 - d2)) by (apply Z.pow_pos_nonneg; lia).
    assert (2 ^ (d1 + s - 1 - d2) <= q) as Hql by nia.
    destruct (Z.le_gt_cases (d1 + s - d2) (Zdigits2 q)) as [|Hlt]; [done|].
    pose proof (Zdigits2_bounds q ltac:(lia)) as [_ Hqh].
    assert (2 ^ Zdigits2 q <= 2 ^ (d1 + s - 1 - d2))
      by (apply Z.pow_le_mono_r; lia).
    lia. }
  split; [done|]. rewrite fexp32. split; lia.
Qed.

Lemma div_mag (x y : float) (kx ky k : Z) :
  mag kx x ->
  (exists s m e, y = S754_finite s m e /\ ky <= Zdigits2 (Z.pos m) + e) ->
  kx - ky + 2 <= k -> -148 <= k <= 128 ->
  valid (F32.div x y) /\ mag k (F32.div x y) /\
  (nonneg x -> nonneg y -> nonneg (F32.div x y)).
Proof.
  intros Hx (sy & my & ey & -> & Hy) Hk Hr.
  unfold F32.div. destruct x as [sx|sx| |sx mx ex]; try done.
  change (Zdigits2 (Z.pos mx) + ex <= kx) in Hx.
  - unfold SFdiv.
    pose proof (div_core_spec mx my ex ey) as Hcore.
    destruct (SFdiv_core_binary F32.prec F32.emax (Z.pos mx) ex (Z.pos my) ey)
      as [[q e'] l].
    destruct Hcore as (Hq & Hpre & Hsum).
    split; [by apply binary_round_aux_valid_nonneg|].
    destruct (binary_round_aux_mag (xorb sx sy) q e' l k)
      as [Hz|(m2 & e2 & Hf & Hm)]; [done|done|lia|done| |].
    + rewrite Hz. split; [done|]. done.
    + rewrite Hf. split; [done|]. simpl. by intros -> ->.
Qed.

End Magnitude5.

(** ** Samples of a segment *)

Section WaveFacts.
Variables W H : Z.

Lemma wrap_int_small (z : Z) : - 2 ^ 31 <= z < 2 ^ 31 -> wrap_int z = z.
Proof.
  intros Hz. unfold wrap_int. change (2 ^ 31) with 2147483648 in *.
  change (2 ^ 32) with 4294967296. rewrite Z.mod_small; lia.
Qed.

Lemma injected_refl (g : FluidGrid) : wf W H g -> injected W H g g.
Proof. intros Hwf. split; [done|]. do 2 (split; [done|]). done. Qed.

Lemma injected_trans (g1 g2 g3 : FluidGrid) :
  injected W H g1 g2 -> injected W H g2 g3 -> injected W H g1 g3.
Proof.
  intros (Hw2 & Hc2 & Hd2 & Hb2) (Hw3 & Hc3 & Hd3 & Hb3).
  split; [done|]. split; [congruence|]. split; [congruence|].
  intros x y Hin Hni. rewrite Hb3, Hb2; done.
Qed.

Lemma add_disturbance_injected (g : FluidGrid) (x y : Z) (i : float) :
  wf W H g ->
  exists g', Gridfluid.add_disturbance W H g x y i = Some g' /\
             injected W H g g'.
Proof.
  intros Hwf. destruct (add_disturbance_spec W H g x y i Hwf)
    as (g' & Hrun & Hc & Hd & Hl & Hcell).
  exists g'. split; [done|]. split; [by eapply add_disturbance_wf|].
  do 2 (split; [done|]). intros x' y' Hin Hni. rewrite (Hcell x' y' Hin).
  rewrite decide_False; [done|]. intros (Hint & -> & ->). done.
Qed.

Lemma mul_self_nonneg (x : float) (kx k : Z) :
  valid x -> mag kx x -> kx + kx + 1 <= k -> -148 <= k <= 128 ->
  valid (F32.mul x x) /\ mag k (F32.mul x x) /\ nonneg (F32.mul x x).
Proof.
  intros Hv Hx Hk Hr. split; [by apply valid_mul|].
  destruct (mul_mag x x kx kx k Hv Hv Hx Hx Hk Hr) as [Hm _].
  split; [done|]. destruct x as [s|s| |s m e]; try done.
  change (Zdigits2 (Z.pos m) + e <= kx) in Hx.
  destruct (valid_digits _ _ _ Hv) as [Hc _].
  pose proof (Zdigits2_mul (Z.pos m) (Z.pos m) ltac:(lia) ltac:(lia)).
  pose proof (Zdigits2_mul_le (Z.pos m) (Z.pos m) ltac:(lia) ltac:(lia)).
  pose proof (Zdigits2_pos (Z.pos m) ltac:(lia)).
  destruct (binary_round_aux_mag (xorb s s) (Z.pos (m * m)) (e + e)
              loc_Exact k) as [Hz|(m2 & e2 & Hf & _)].
  - lia.
  - rewrite fexp32, Pos2Z.inj_mul. lia.
  - rewrite Pos2Z.inj_mul. lia.
  - done.
  - unfold F32.mul, SFmul. by rewrite Hz.
  - unfold F32.mul, SFmul. rewrite Hf. simpl. by destruct s.
Qed.

(** The length of a drag segment between pointer positions. *)
Lemma distance_mag (a b : Z) :
  Z.abs a <= 65536 -> Z.abs b <= 65536 ->
  let dx := F32.of_int a in
  let dy := F32.of_int b in
  let distance := F32.sqrtf (F32.add (F32.mul dx dx) (F32.mul dy dy)) in
  valid dx /\ mag 18 dx /\ valid dy /\ mag 18 dy /\
  valid distance /\ nonneg distance /\ mag 21 distance.
Proof.
  intros Ha Hb dx dy distance.
  assert (valid dx /\ mag 18 dx) as [Hvx Hmx].
  { split; [apply of_int_valid|]. apply of_int_mag; [|lia].
    assert (Zdigits2 a <= 17); [|lia].
    apply Zdigits2_abs_lt; [lia|]. change (2 ^ 17) with 131072. lia. }
  assert (valid dy /\ mag 18 dy) as [Hvy Hmy].
  { split; [apply of_int_valid|]. apply of_int_mag; [|lia].
    assert (Zdigits2 b <= 17); [|lia].
    apply Zdigits2_abs_lt; [lia|]. change (2 ^ 17) with 131072. lia. }
  do 4 (split; [done|]).
  destruct (mul_self_nonneg dx 18 37 Hvx Hmx) as (Hv1 & Hm1 & Hn1); [lia|lia|].
  destruct (mul_self_nonneg dy 18 37 Hvy Hmy) as (Hv2 & Hm2 & Hn2); [lia|lia|].
  destruct (add_mag _ _ 37 37 39 Hm1 Hm2) as [Hms Hns]; [lia|lia|].
  apply (sqrtf_mag _ 39 21); [by apply Hns|done|done|lia|by apply valid_add].
Qed.

Lemma to_int_mag (x : float) (k : Z) :
  mag k x -> 0 <= k <= 31 ->
  exists z, F32.to_int x = Some z /\ - 2 ^ k < z < 2 ^ k /\ (nonneg x -> 0 <= z).
Proof.
  intros Hx Hk. destruct (trunc_mag x k Hx ltac:(lia)) as (z & Hz & Hr & Hn).
  exists z. split; [|done]. unfold F32.to_int, F32.to_integer. rewrite Hz. simpl.
  assert (2 ^ k <= 2 ^ 31) by (apply Z.pow_le_mono_r; lia).
  rewrite decide_True; [done|]. lia.
Qed.

(** One sample of the segment: the coordinate is defined and small. *)
Lemma sample_defined (a : Z) (d t : float) (kt : Z) :
  Z.abs a <= 32768 -> valid d -> mag 18 d -> valid t -> mag kt t ->
  -148 <= kt <= 5 ->
  exists c, F32.to_int (F32.add (F32.of_int a) (F32.mul d t)) = Some c /\
            - 2 ^ 26 < c < 2 ^ 26.
Proof.
  intros Ha Hvd Hmd Hvt Hmt Hkt.
  destruct (mul_mag d t 18 kt 24 Hvd Hvt Hmd Hmt) as [Hm _]; [lia|lia|].
  assert (mag 17 (F32.of_int a)) as Hma.
  { apply of_int_mag; [|lia]. assert (Zdigits2 a <= 16); [|lia].
    apply Zdigits2_abs_lt; [lia|]. change (2 ^ 16) with 65536. lia. }
  destruct (add_mag _ _ 17 24 26 Hma Hm) as [Hs _]; [lia|lia|].
  destruct (to_int_mag _ 26 Hs) as (c & Hc & Hr & _); [lia|].
  by exists c.
Qed.

End WaveFacts.

Section WaveTheorems.
Variables W H : Z.

(** The parameter of the [i]-th sample of a segment cut in [steps] parts. *)
Lemma ratio_mag (i steps : Z) :
  0 <= i <= steps -> 0 < steps <= 2 ^ 24 ->
  valid (F32.div (F32.of_int i) (F32.of_int steps)) /\
  mag 3 (F32.div (F32.of_int i) (F32.of_int steps)).
Proof.
  intros Hi Hs.
  assert (Zdigits2 steps <= 25) as Hd.
  { apply Zdigits2_lt_pow; [lia|lia|]. change (2 ^ 25) with (2 * 2 ^ 24). lia. }
  destruct (of_int_pos steps ltac:(lia) ltac:(lia)) as (m & e & Hf & Hlo & _).
  assert (mag (Zdigits2 steps + 1) (F32.of_int i)) as Hmi.
  { apply of_int_mag; [|lia].
    pose proof (Zdigits2_mono i steps ltac:(lia)). lia. }
  destruct (div_mag (F32.of_int i) (F32.of_int steps)
              (Zdigits2 steps + 1) (Zdigits2 steps) 3 Hmi) as (Hv & Hm & _).
  - exists false, m, e. by split.
  - lia.
  - lia.
  - by split.
Qed.

Lemma inverse_mag (steps : Z) :
  0 < steps <= 2 ^ 24 ->
  valid (F32.div F32.c1 (F32.of_int steps)) /\
  mag (3 - Zdigits2 steps) (F32.div F32.c1 (F32.of_int steps)).
Proof.
  intros Hs.
  assert (Zdigits2 steps <= 25) as Hd.
  { apply Zdigits2_lt_pow; [lia|lia|]. change (2 ^ 25) with (2 * 2 ^ 24). lia. }
  destruct (of_int_pos steps ltac:(lia) ltac:(lia)) as (m & e & Hf & Hlo & _).
  assert (mag 1 F32.c1) as Hm1 by (vm_compute; discriminate).
  destruct (div_mag F32.c1 (F32.of_int steps) 1 (Zdigits2 steps)
              (3 - Zdigits2 steps) Hm1) as (Hv & Hm & _).
  - exists false, m, e. by split.
  - lia.
  - pose proof (Zdigits2_nonneg steps). lia.
  - by split.
Qed.

Lemma scaled_mag (i steps : Z) :
  0 <= i <= steps -> 0 < steps <= 2 ^ 24 ->
  valid (F32.mul (F32.of_int i) (F32.div F32.c1 (F32.of_int steps))) /\
  mag 5 (F32.mul (F32.of_int i) (F32.div F32.c1 (F32.of_int steps))).
Proof.
  intros Hi Hs. destruct (inverse_mag steps Hs) as [Hv Hm].
  assert (Zdigits2 steps <= 25) as Hd.
  { apply Zdigits2_lt_pow; [lia|lia|]. change (2 ^ 25) with (2 * 2 ^ 24). lia. }
  assert (mag (Zdigits2 steps + 1) (F32.of_int i)) as Hmi.
  { apply of_int_mag; [|lia].
    pose proof (Zdigits2_mono i steps ltac:(lia)). lia. }
  split; [apply valid_mul; [apply of_int_valid|done]|].
  pose proof (Zdigits2_nonneg steps).
  by destruct (mul_mag _ _ _ _ 5 (of_int_valid i) Hv Hmi Hm ltac:(lia) ltac:(lia)).
Qed.

(** The number of samples of a segment. *)
Lemma steps_defined (distance factor : float) :
  valid distance -> nonneg distance -> mag 21 distance ->
  valid factor -> nonneg factor -> mag 2 factor ->
  exists n, F32.to_int (F32.mul distance factor) = Some n /\ 0 <= n < 2 ^ 24.
Proof.
  intros Hvd Hnd Hmd Hvf Hnf Hmf.
  destruct (mul_mag distance factor 21 2 24 Hvd Hvf Hmd Hmf) as [Hm Hn];
    [lia|lia|].
  destruct (to_int_mag _ 24 Hm) as (n & Hn' & Hr & Hpos); [lia|].
  exists n. split; [done|]. specialize (Hpos (Hn Hnd Hnf)). lia.
Qed.

End WaveTheorems.

(** ** What the injections keep *)

Section KeptFacts.
Variables W H : Z.

Lemma injected_border_zero (g g' : FluidGrid) :
  injected W H g g' -> border_zero W H g -> border_zero W H g'.
Proof.
  intros (Hwf & Hc & Hd & Hcell) Hb x y Hxy. rewrite Hc.
  rewrite Hcell; [by apply Hb|apply Hxy|by apply border_not_interior].
Qed.

Lemma add_disturbance_kept (g : FluidGrid) (x y : Z) (i : float) :
  wf W H g ->
  exists g', Gridfluid.add_disturbance W H g x y i = Some g' /\
    injected W H g g' /\
    (valid i -> cells_valid W H g -> cells_valid W H g').
Proof.
  intros Hwf. destruct (add_disturbance_injected W H g x y i Hwf)
    as (g' & Hrun & Hinj).
  exists g'. split; [done|]. split; [done|]. intros Hi Hv.
  destruct (add_disturbance_valid W H g x y i Hwf Hv Hi) as (g2 & Hrun2 & _ & Hv2).
  congruence.
Qed.

Lemma stamp_kept (r : Z) (sel : Z -> Z -> bool) (val : Z -> Z -> float)
    (g : FluidGrid) (x y : Z) :
  wf W H g -> 0 <= r ->
  exists g',
    for_loop (- r) (r + 1) (fun dy =>
      for_loop (- r) (r + 1) (fun dx fluid =>
        if sel dx dy
        then Gridfluid.add_disturbance W H fluid (x + dx) (y + dy) (val dx dy)
        else Some fluid)) g = Some g' /\
    injected W H g g' /\
    ((forall dx dy, - r <= dx <= r -> - r <= dy <= r -> valid (val dx dy)) ->
     cells_valid W H g -> cells_valid W H g').
Proof.
  intros Hwf Hr.
  destruct (stamp_spec W H r sel val g x y Hwf Hr)
    as (g' & Hrun & Hw & Hc & Hd & Hcell).
  exists g'. split; [done|]. split.
  - do 3 (split; [done|]). intros x' y' Hin Hni. rewrite (Hcell x' y' Hin).
    rewrite decide_False; [done|]. tauto.
  - intros Hval [Hdv Hcells]. split; [by rewrite Hd|].
    intros x' y' Hin. rewrite Hc, (Hcell x' y' Hin).
    split; [by apply Hcells|]. case_decide as Hhit.
    + apply valid_add; [by apply Hcells|]. apply Hval; lia.
    + by apply Hcells.
Qed.

(** The radial profile of the 5 x 5 stamp of a drag. *)
Lemma falloff2_valid (dx dy : Z) :
  -2 <= dx <= 2 -> -2 <= dy <= 2 ->
  valid (F32.sub F32.c1
           (F32.div (F32.sqrtf (F32.of_int (dx * dx + dy * dy))) F32.c2)).
Proof.
  intros Hx Hy.
  assert (dx = -2 \/ dx = -1 \/ dx = 0 \/ dx = 1 \/ dx = 2) as Hdx by lia.
  assert (dy = -2 \/ dy = -1 \/ dy = 0 \/ dy = 1 \/ dy = 2) as Hdy by lia.
  destruct_or!; subst; by vm_compute.
Qed.

(** The radial profile of the 7 x 7 stamp of a click. *)
Lemma falloff3_valid (dx dy : Z) :
  -3 <= dx <= 3 -> -3 <= dy <= 3 ->
  valid (F32.sub F32.c1
           (F32.div (F32.sqrtf (F32.of_int (dx * dx + dy * dy))) F32.c3)).
Proof.
  intros Hx Hy.
  assert (dx = -3 \/ dx = -2 \/ dx = -1 \/ dx = 0 \/ dx = 1 \/ dx = 2 \/ dx = 3)
    as Hdx by lia.
  assert (dy = -3 \/ dy = -2 \/ dy = -1 \/ dy = 0 \/ dy = 1 \/ dy = 2 \/ dy = 3)
    as Hdy by lia.
  destruct_or!; subst; by vm_compute.
Qed.

Lemma wave_grid_kept (g : FluidGrid) (x1 y1 x2 y2 : Z) (intensity : float) :
  wf W H g ->
  Z.abs x1 <= 32768 -> Z.abs y1 <= 32768 ->
  Z.abs x2 <= 32768 -> Z.abs y2 <= 32768 ->
  exists g',
    Gridfluid.add_continuous_wave W H g x1 y1 x2 y2 intensity = Some g' /\
    injected W H g g' /\
    (valid intensity -> cells_valid W H g -> cells_valid W H g').
Proof.
  intros Hwf Hx1 Hy1 Hx2 Hy2. unfold Gridfluid.add_continuous_wave.
  rewrite !(wrap_int_small (_ - _)) by (change (2 ^ 31) with 2147483648; lia).
  destruct (distance_mag (x2 - x1) (y2 - y1))
    as (Hvx & Hmx & Hvy & Hmy & Hvd & Hnd & Hmd); [lia|lia|].
  destruct (F32.ltb _ F32.c1); [by apply add_disturbance_kept|].
  destruct (steps_defined _ F32.c2 Hvd Hnd Hmd) as (n & -> & Hn);
    [done|done|by vm_compute|]. simpl.
  rewrite (wrap_int_small (n + 1))
    by (change (2 ^ 31) with 2147483648; change (2 ^ 24) with 16777216 in Hn; lia).
  match goal with
  | |- exists g', for_loop 0 _ ?body g = Some g' /\ _ =>
      destruct (for_loop_inv
                  (fun _ t => injected W H g t /\
                     (valid intensity -> cells_valid W H g -> cells_valid W H t))
                  body 0 (n + 1 + 1) g)
        as (g' & Hrun & Hinj)
  end.
  - split; [by apply injected_refl|done].
  - intros i t Hi [Ht Htv].
    destruct (ratio_mag i (n + 1)) as [Hvt Hmt];
      [lia|change (2 ^ 24) with 16777216 in *; lia|].
    unfold Gridfluid.sample.
    destruct (sample_defined x1 _ _ 3 Hx1 Hvx Hmx Hvt Hmt) as (cx & -> & Hcx);
      [lia|].
    destruct (sample_defined y1 _ _ 3 Hy1 Hvy Hmy Hvt Hmt) as (cy & -> & Hcy);
      [lia|].
    simpl.
    match goal with
    | |- context [F32.mul intensity ?f] => set (ci := F32.mul intensity f)
    end.
    destruct (stamp_kept 2
                (fun dx dy =>
                   F32.leb (F32.sqrtf (F32.of_int (dx * dx + dy * dy))) F32.c2)
                (fun dx dy =>
                   F32.mul (F32.mul ci
                     (F32.sub F32.c1
                        (F32.div (F32.sqrtf (F32.of_int (dx * dx + dy * dy)))
                                 F32.c2))) F32.c0_5)
                t cx cy) as (t' & Hrun & Hinj & Hval); [apply Ht|lia|].
    exists t'. split; [|split; [by eapply injected_trans|]].
    + rewrite <- Hrun. apply for_loop_ext_range. intros dy u Hdy.
      apply for_loop_ext_range. intros dx v Hdx. simpl.
      change (2 ^ 26) with 67108864 in *.
      by rewrite !wrap_int_small by (change (2 ^ 31) with 2147483648; lia).
    + intros Hi' Hg. apply Hval; [|by apply Htv].
      intros dx dy Hdx Hdy.
      apply valid_mul; [|done]. apply valid_mul; [|by apply falloff2_valid].
      apply valid_mul; [done|]. apply valid_sub; [done|].
      by apply valid_mul.
  - by exists g'.
Qed.

Lemma wave_real_kept (g : FluidGrid) (x1 y1 x2 y2 : Z) (intensity : float) :
  wf W H g ->
  Z.abs x1 <= 32768 -> Z.abs y1 <= 32768 ->
  Z.abs x2 <= 32768 -> Z.abs y2 <= 32768 ->
  exists g',
    Realfluid.add_continuous_wave W H g x1 y1 x2 y2 intensity = Some g' /\
    injected W H g g' /\
    (valid intensity -> cells_valid W H g -> cells_valid W H g').
Proof.
  intros Hwf Hx1 Hy1 Hx2 Hy2. unfold Realfluid.add_continuous_wave.
  rewrite !(wrap_int_small (_ - _)) by (change (2 ^ 31) with 2147483648; lia).
  destruct (distance_mag (x2 - x1) (y2 - y1))
    as (Hvx & Hmx & Hvy & Hmy & Hvd & Hnd & Hmd); [lia|lia|].
  destruct (F32.ltb _ F32.c1); [by apply add_disturbance_kept|].
  destruct (steps_defined _ F32.c1_5 Hvd Hnd Hmd) as (n & -> & Hn);
    [done|done|by vm_compute|]. simpl.
  rewrite (wrap_int_small (n + 1))
    by (change (2 ^ 31) with 2147483648; change (2 ^ 24) with 16777216 in Hn; lia).
  match goal with
  | |- exists g', for_loop 0 _ ?body g = Some g' /\ _ =>
      destruct (for_loop_inv
                  (fun _ t => injected W H g t /\
                     (valid intensity -> cells_valid W H g -> cells_valid W H t))
                  body 0 (n + 1 + 1) g)
        as (g' & Hrun & Hinj)
  end.
  - split; [by apply injected_refl|done].
  - intros i t Hi [Ht Htv].
    destruct (scaled_mag i (n + 1)) as [Hvt Hmt];
      [lia|change (2 ^ 24) with 16777216 in *; lia|].
    unfold Realfluid.sample.
    destruct (sample_defined x1 _ _ 5 Hx1 Hvx Hmx Hvt Hmt) as (cx & -> & Hcx);
      [lia|].
    destruct (sample_defined y1 _ _ 5 Hy1 Hvy Hmy Hvt Hmt) as (cy & -> & Hcy);
      [lia|].
    simpl. case_decide.
    + destruct (add_disturbance_kept t cx cy
                  (F32.mul intensity
                     (F32.sub F32.c1
                        (F32.mul
                           (F32.mul (F32.of_int i)
                              (F32.div F32.c1 (F32.of_int (n + 1))))
                           F32.c0_3)))) as (t' & Hrun & Hinj & Hval); [apply Ht|].
      exists t'. split; [exact Hrun|]. split; [by eapply injected_trans|].
      intros Hi' Hg. apply Hval; [|by apply Htv].
      apply valid_mul; [done|]. apply valid_sub; [done|]. by apply valid_mul.
    + by exists t.
  - by exists g'.
Qed.

End KeptFacts.

(** ** The event loop of gridfluid.c *)

Section AreaFacts.
Variables W H : Z.
Variables expf cosf : float -> float.

Lemma velocity_field_kept (g : FluidGrid) (x y : Z) (i : float) :
  wf W H g ->
  exists g', Gridfluid.add_velocity_field W H cosf g x y i = Some g' /\
    injected W H g g' /\
    ((forall a, valid (cosf a)) -> valid i ->
     cells_valid W H g -> cells_valid W H g').
Proof.
  intros Hwf. unfold Gridfluid.add_velocity_field. case_decide.
  - destruct (stamp_kept W H 3
                (fun dx dy =>
                   F32.leb (F32.sqrtf (F32.of_int (dx * dx + dy * dy))) F32.c3)
                (fun dx dy => F32.mul i (Gridfluid.wave cosf dx dy))
                g x y Hwf) as (g' & Hrun & Hinj & Hval); [lia|].
    exists g'. split; [exact Hrun|]. split; [done|].
    intros Hcos Hi Hg. apply Hval; [|done]. intros dx dy Hdx Hdy.
    apply valid_mul; [done|]. unfold Gridfluid.wave.
    apply valid_mul; [done|]. by apply falloff3_valid.
  - exists g. split; [done|]. split; [by apply injected_refl|done].
Qed.

Lemma water_drop_kept (g : FluidGrid) (x y : Z) (i : float) :
  wf W H g ->
  exists g', Realfluid.add_water_drop W H expf cosf g x y i = Some g' /\
    injected W H g g' /\
    ((forall a, valid (expf a)) -> (forall a, valid (cosf a)) -> valid i ->
     cells_valid W H g -> cells_valid W H g').
Proof.
  intros Hwf. unfold Realfluid.add_water_drop. case_decide.
  - destruct (stamp_kept W H 3
                (fun dx dy =>
                   F32.leb (F32.sqrtf (F32.of_int (dx * dx + dy * dy))) F32.c3)
                (fun dx dy => F32.mul i (drop_wave expf cosf dx dy))
                g x y Hwf) as (g' & Hrun & Hinj & Hval); [lia|].
    exists g'. split; [exact Hrun|]. split; [done|].
    intros Hexp Hcos Hi Hg. apply Hval; [|done]. intros dx dy Hdx Hdy.
    apply valid_mul; [done|]. unfold drop_wave. by apply valid_mul.
  - exists g. split; [done|]. split; [by apply injected_refl|done].
Qed.

Lemma init_fluid_border_zero : border_zero W H (Gridfluid.init_fluid W H).
Proof. intros x y _. simpl. by rewrite !cell_calloc. Qed.

Lemma update_fluid_border_zero (g : FluidGrid) :
  wf W H g -> border_zero W H g ->
  exists g', Gridfluid.update_fluid W H g = Some g' /\ wf W H g' /\
    border_zero W H g' /\
    (cells_valid W H g -> cells_valid W H g').
Proof.
  intros Hwf Hb.
  destruct (update_fluid_border W H g Hwf) as (g' & Hrun & Hwf' & Hc & Hcell).
  exists g'. split; [done|]. split; [done|]. split.
  - intros x y Hxy. rewrite Hc, (Hcell x y Hxy). destruct (Hb x y Hxy). done.
  - intros Hv. destruct (update_fluid_valid W H g Hwf Hv) as (g2 & Hrun2 & _ & Hv2).
    congruence.
Qed.

End AreaFacts.

Section GridMainFacts.
Variables W H : Z.
#[local] Arguments Gridfluid.add_velocity_field : simpl never.
#[local] Arguments Gridfluid.add_continuous_wave : simpl never.
#[local] Arguments Gridfluid.update_fluid : simpl never.
#[local] Arguments Gridfluid.init_fluid : simpl never.
#[local] Arguments F32.of_int : simpl never.
Variable cosf : float -> float.
Variable rand : nat -> Z.
Hypothesis HW : 4 < W.
Hypothesis HH : 4 < H.

Lemma grid_handle_inv (event : SDL_Event) (s : App) :
  in_reach event -> app_inv W H s ->
  exists s', GridfluidMain.handle_event W H cosf rand event s = Some s' /\
             app_inv W H s'.
Proof.
  intros He (Hwf & Hb & Hpx & Hpy & Hup).
  destruct event as [|button x y|state x y|button|sym|];
    unfold GridfluidMain.handle_event; cbv beta iota zeta.
  - by eexists.
  - case_decide; [|by eexists]. unfold GridfluidMain.CELL_SIZE. rewrite !Z.quot_1_r.
    destruct (velocity_field_kept W H cosf (fluid s) x y (F32.of_int 25) Hwf)
      as (g' & -> & Hinj & _).
    simpl. eexists. split; [done|]. destruct He.
    split; [apply Hinj|]. split; [by eapply injected_border_zero|]. done.
  - case_decide as Hdown; [|by eexists]. unfold GridfluidMain.CELL_SIZE. rewrite !Z.quot_1_r.
    destruct He as [Hx Hy]. case_decide.
    + destruct (wave_grid_kept W H (fluid s) (prev_mouse_x s) (prev_mouse_y s)
                  x y (F32.of_int 20) Hwf Hpx Hpy Hx Hy)
        as (g1 & -> & Hinj1 & _).
      simpl.
      destruct (velocity_field_kept W H cosf g1 x y (F32.of_int 15))
        as (g' & -> & Hinj & _); [apply Hinj1|].
      simpl. eexists. split; [done|]. split; [apply Hinj|].
      split; [|simpl; split; [done|split; [done|tauto]]].
      eapply injected_border_zero; [done|].
      by eapply injected_border_zero.
    + simpl. eexists. split; [done|]. simpl. do 4 (split; [done|]). tauto.
  - case_decide; [|by eexists]. eexists. split; [done|]. simpl.
    do 2 (split; [done|]). by repeat split.
  - case_decide; [|case_decide; [|case_decide]]; try by eexists.
    + rewrite decide_False by lia.
      match goal with
      | |- context [Gridfluid.add_velocity_field W H cosf (fluid s) ?x ?y ?i] =>
          destruct (velocity_field_kept W H cosf (fluid s) x y i Hwf)
            as (g' & -> & Hinj & _)
      end.
      simpl. eexists. split; [done|]. split; [apply Hinj|].
      split; [by eapply injected_border_zero|]. done.
    + eexists. split; [done|]. split; [apply init_fluid_wf; lia|].
      split; [apply init_fluid_border_zero|]. done.
  - by eexists.
Qed.

Lemma grid_poll_inv (events : list SDL_Event) (s : App) :
  Forall in_reach events -> app_inv W H s ->
  exists s', GridfluidMain.poll_events W H cosf rand events s = Some s' /\
             app_inv W H s'.
Proof.
  intros Hev. revert s. induction Hev as [|e events He _ IH]; intros s Hs.
  - by exists s.
  - destruct (grid_handle_inv e s He Hs) as (s1 & Hrun & Hs1).
    destruct (IH s1 Hs1) as (s' & Hrun' & Hs').
    exists s'. simpl. by rewrite Hrun.
Qed.

Lemma grid_frame_inv (events : list SDL_Event) (s : App) :
  Forall in_reach events -> app_inv W H s ->
  exists s', GridfluidMain.frame W H cosf rand events s = Some s' /\
             app_inv W H s'.
Proof.
  intros Hev Hs. unfold GridfluidMain.frame.
  destruct (grid_poll_inv events s Hev Hs)
    as (s1 & -> & Hwf & Hb & Hrest).
  simpl.
  destruct (update_fluid_border_zero W H (fluid s1) Hwf Hb)
    as (g' & -> & Hwf' & Hb' & _).
  simpl. eexists. split; [done|]. by split.
Qed.

Lemma grid_main_loop_inv (frames : list (list SDL_Event)) (s : App) :
  Forall (Forall in_reach) frames -> app_inv W H s ->
  exists s', GridfluidMain.main_loop W H cosf rand frames s = Some s' /\
             app_inv W H s'.
Proof.
  intros Hfr. revert s. induction Hfr as [|events frames Hev _ IH]; intros s Hs.
  - by exists s.
  - simpl. case_decide; [|by exists s].
    destruct (grid_frame_inv events s Hev Hs) as (s1 & -> & Hs1).
    simpl. by apply IH.
Qed.

Lemma grid_main_inv (frames : list (list SDL_Event)) :
  Forall (Forall in_reach) frames ->
  exists s, GridfluidMain.main W H cosf rand frames = Some s /\
    wf W H (fluid s) /\ border_zero W H (fluid s) /\
    (mouse_down s = 0 -> prev_mouse_x s = -1 /\ prev_mouse_y s = -1).
Proof.
  intros Hfr. unfold GridfluidMain.main.
  destruct (grid_main_loop_inv frames
              {| fluid := Gridfluid.init_fluid W H; running := 1;
                 mouse_down := 0; prev_mouse_x := -1; prev_mouse_y := -1;
                 rand_calls := 0 |} Hfr)
    as (s & Hrun & Hwf & Hb & _ & _ & Hup).
  - split; [apply init_fluid_wf; lia|]. split; [apply init_fluid_border_zero|].
    simpl. split; [lia|]. split; [lia|]. done.
  - exists s. split; [done|]. split; [done|]. split; [done|]. exact Hup.
Qed.

End GridMainFacts.

(** ** The event loop of realfluid.c *)

Section RealMainFacts.
Variables W H : Z.
#[local] Arguments Realfluid.add_water_drop : simpl never.
#[local] Arguments Realfluid.add_continuous_wave : simpl never.
#[local] Arguments Realfluid.update_fluid : simpl never.
#[local] Arguments Realfluid.update_fluid_texture : simpl never.
#[local] Arguments Realfluid.init_fluid : simpl never.
#[local] Arguments F32.of_int : simpl never.
Variables expf cosf : float -> float.
Variable rand : nat -> Z.
Hypothesis HW : 6 < W.
Hypothesis HH : 6 < H.
Hypothesis Hexpf : forall a, valid (expf a).
Hypothesis Hcosf : forall a, valid (cosf a).

Lemma real_handle_inv (event : SDL_Event) (s : App) :
  in_reach event -> app_inv W H s -> cells_valid W H (fluid s) ->
  exists s', RealfluidMain.handle_event W H expf cosf rand event s = Some s' /\
             app_inv W H s' /\ cells_valid W H (fluid s').
Proof.
  intros He (Hwf & Hb & Hpx & Hpy & Hup) Hv.
  destruct event as [|button x y|state x y|button|sym|];
    unfold RealfluidMain.handle_event; cbv beta iota zeta.
  - by eexists.
  - case_decide; [|by eexists]. unfold RealfluidMain.CELL_SIZE. rewrite !Z.quot_1_r.
    destruct (water_drop_kept W H expf cosf (fluid s) x y (F32.of_int 20) Hwf)
      as (g' & -> & Hinj & Hval).
    simpl. eexists. split; [done|]. destruct He.
    split; [|by apply Hval].
    split; [apply Hinj|]. split; [by eapply injected_border_zero|]. done.
  - case_decide as Hdown; [|by eexists]. unfold RealfluidMain.CELL_SIZE. rewrite !Z.quot_1_r.
    destruct He as [Hx Hy]. case_decide.
    + destruct (wave_real_kept W H (fluid s) (prev_mouse_x s) (prev_mouse_y s)
                  x y (F32.of_int 15) Hwf Hpx Hpy Hx Hy)
        as (g1 & -> & Hinj1 & Hval).
      simpl. eexists. split; [done|]. split; [|by apply Hval].
      split; [apply Hinj1|].
      split; [by eapply injected_border_zero|].
      simpl; split; [done|split; [done|tauto]].
    + simpl. eexists. split; [done|]. split; [|done].
      simpl. do 4 (split; [done|]). tauto.
  - case_decide; [|by eexists]. eexists. split; [done|]. split; [|done]. simpl.
    do 2 (split; [done|]). by repeat split.
  - case_decide; [|case_decide; [|case_decide]]; try by eexists.
    + rewrite decide_False by lia.
      match goal with
      | |- context [Realfluid.add_water_drop W H expf cosf (fluid s) ?x ?y ?i] =>
          destruct (water_drop_kept W H expf cosf (fluid s) x y i Hwf)
            as (g' & -> & Hinj & Hval)
      end.
      simpl. eexists. split; [done|]. split; [|by apply Hval].
      split; [apply Hinj|].
      split; [by eapply injected_border_zero|]. done.
    + eexists. split; [done|]. split; [|apply init_fluid_valid].
      split; [apply init_fluid_wf; lia|].
      split; [apply init_fluid_border_zero|]. done.
  - by eexists.
Qed.

Lemma real_poll_inv (events : list SDL_Event) (s : App) :
  Forall in_reach events -> app_inv W H s -> cells_valid W H (fluid s) ->
  exists s', RealfluidMain.poll_events W H expf cosf rand events s = Some s' /\
             app_inv W H s' /\ cells_valid W H (fluid s').
Proof.
  intros Hev. revert s. induction Hev as [|e events He _ IH]; intros s Hs Hv.
  - by exists s.
  - destruct (real_handle_inv e s He Hs Hv) as (s1 & Hrun & Hs1 & Hv1).
    destruct (IH s1 Hs1 Hv1) as (s' & Hrun' & Hs').
    exists s'. simpl. by rewrite Hrun.
Qed.

Lemma texture_shows (pixels : list Z) (g : FluidGrid) (time : Z) :
  wf W H g -> cells_valid W H g -> Z.of_nat (length pixels) = W * H ->
  exists pixels',
    Realfluid.update_fluid_texture W H pixels g time = Some pixels' /\
    length pixels' = length pixels /\ shows W H pixels' g.
Proof.
  intros Hwf [_ Hv] Hlen.
  destruct (update_fluid_texture_spec W H pixels g time ltac:(lia) Hwf Hlen)
    as (pixels' & Hrun & Hl & Hpix); [intros x y Hin; by apply Hv|].
  exists pixels'. split; [done|]. split; [done|].
  intros x y Hin.
  destruct (water_color_bounded (cell W (current g) x y)) as
    (r & gr & b & Hr & Hg & Hb & Hcol); [by apply Hv|].
  exists r, gr, b. do 3 (split; [done|]). split; [|done].
  by rewrite (Hpix x y Hin).
Qed.

Lemma real_frame_inv (time : Z) (events : list SDL_Event) (s : App)
    (pixels : list Z) :
  Forall in_reach events -> app_inv W H s -> cells_valid W H (fluid s) ->
  Z.of_nat (length pixels) = W * H ->
  exists s' pixels',
    RealfluidMain.frame W H expf cosf rand time events (s, pixels)
    = Some (s', pixels') /\
    app_inv W H s' /\ cells_valid W H (fluid s') /\
    length pixels' = length pixels /\ shows W H pixels' (fluid s').
Proof.
  intros Hev Hs Hv Hlen. unfold RealfluidMain.frame.
  destruct (real_poll_inv events s Hev Hs Hv)
    as (s1 & Hrun & (Hwf & Hb & Hrest) & Hv1).
  simpl. rewrite Hrun. simpl.
  destruct (update_fluid_border_zero W H (fluid s1) Hwf Hb)
    as (g' & Hstep & Hwf' & Hb' & Hv').
  rewrite <- update_fluid_same, Hstep. simpl.
  destruct (texture_shows pixels g' time Hwf' (Hv' Hv1) Hlen)
    as (pixels' & -> & Hl & Hshow).
  simpl. eexists _, _. split; [done|]. split; [by split|].
  split; [by apply Hv'|]. by split.
Qed.

Lemma real_main_loop_inv (frames : list (Z * list SDL_Event)) (s : App)
    (pixels : list Z) :
  Forall (fun f => Forall in_reach f.2) frames ->
  app_inv W H s -> cells_valid W H (fluid s) ->
  Z.of_nat (length pixels) = W * H ->
  exists s' pixels',
    RealfluidMain.main_loop W H expf cosf rand frames (s, pixels)
    = Some (s', pixels') /\
    app_inv W H s' /\ length pixels' = length pixels /\
    (shows W H pixels (fluid s) \/ (frames <> [] /\ running s <> 0) ->
     shows W H pixels' (fluid s')).
Proof.
  intros Hfr. revert s pixels.
  induction Hfr as [|[time events] frames Hev _ IH]; intros s pixels Hs Hv Hlen.
  - exists s, pixels. do 3 (split; [done|]). intros [Hsh|[Hne _]]; done.
  - simpl. case_decide as Hrun.
    + destruct (real_frame_inv time events s pixels Hev Hs Hv Hlen)
        as (s1 & pixels1 & -> & Hs1 & Hv1 & Hl1 & Hsh1).
      simpl. destruct (IH s1 pixels1 Hs1 Hv1 ltac:(lia))
        as (s' & pixels' & Hrun' & Hs' & Hl' & Hsh').
      exists s', pixels'. split; [done|]. split; [done|].
      split; [congruence|]. intros _. apply Hsh'. by left.
    + exists s, pixels. do 3 (split; [done|]). simpl in Hrun.
      intros [Hsh|[_ Hr]]; done.
Qed.

Lemma real_main_inv (pixels : list Z) (frames : list (Z * list SDL_Event)) :
  Z.of_nat (length pixels) = W * H ->
  Forall (fun f => Forall in_reach f.2) frames ->
  exists s pixels',
    RealfluidMain.main W H expf cosf rand pixels frames = Some (s, pixels') /\
    wf W H (fluid s) /\ border_zero W H (fluid s) /\
    length pixels' = length pixels /\
    (frames <> [] -> shows W H pixels' (fluid s)).
Proof.
  intros Hlen Hfr. unfold RealfluidMain.main.
  destruct (real_main_loop_inv frames
              {| fluid := Realfluid.init_fluid W H; running := 1;
                 mouse_down := 0; prev_mouse_x := -1; prev_mouse_y := -1;
                 rand_calls := 0 |} pixels Hfr)
    as (s & pixels' & Hrun & (Hwf & Hb & _) & Hl & Hsh).
  - split; [apply init_fluid_wf; lia|]. split; [apply init_fluid_border_zero|].
    simpl. split; [lia|]. split; [lia|]. done.
  - apply init_fluid_valid.
  - done.
  - exists s, pixels'. do 4 (split; [done|]). intros Hne. apply Hsh. by right.
Qed.

End RealMainFacts.

(** ** The event loop of fluid.c *)

Section FluidMainFacts.
Variables W H : Z.
#[local] Arguments Fluid.add_disturbance : simpl never.
#[local] Arguments Fluid.update_fluid : simpl never.
#[local] Arguments Fluid.init_fluid : simpl never.
#[local] Arguments F32.of_int : simpl never.
Variable rand : nat -> Z.
Hypothesis HW : 2 < W.
Hypothesis HH : 2 < H.

(** What the injections of fluid.c keep: the size of the buffers, and
    [current] and [damping]. *)
Lemma wide_add_disturbance_total (g : FluidGrid) (x y : Z) (i : float) :
  wf W H g ->
  exists g', Fluid.add_disturbance W H g x y i = Some g' /\
    wf W H g' /\ current g' = current g /\ damping g' = damping g.
Proof.
  intros Hwf. destruct (decide (interior W H x y)) as [Hin|Hout].
  - destruct (wide_add_disturbance_spec W H g x y i Hwf Hin)
      as (g' & Hrun & Hwf' & Hc & Hd & _).
    by exists g'.
  - exists g. split; [|done]. unfold Fluid.add_disturbance.
    rewrite decide_False; [done|]. unfold interior in Hout. lia.
Qed.

Lemma fluid_handle_inv (event : SDL_Event) (s : FluidMain.App) :
  wf W H (FluidMain.fluid s) ->
  exists s', FluidMain.handle_event W H rand event s = Some s' /\
    wf W H (FluidMain.fluid s') /\
    current (FluidMain.fluid s') = current (FluidMain.fluid s) /\
    damping (FluidMain.fluid s') = damping (FluidMain.fluid s).
Proof.
  intros Hwf.
  destruct event as [|button x y|state x y|button|sym|];
    unfold FluidMain.handle_event; cbv beta iota zeta.
  - by eexists.
  - case_decide; [|by eexists].
    match goal with
    | |- context [Fluid.add_disturbance W H ?g ?x ?y ?i] =>
        destruct (wide_add_disturbance_total g x y i Hwf) as (g' & -> & Hg')
    end.
    simpl. by eexists.
  - case_decide; [|by eexists].
    match goal with
    | |- context [for_loop (-2) 3 ?body (FluidMain.fluid s)] =>
        destruct (for_loop_inv
                    (fun _ t => wf W H t /\
                       current t = current (FluidMain.fluid s) /\
                       damping t = damping (FluidMain.fluid s))
                    body (-2) 3 (FluidMain.fluid s)) as (g' & -> & Hg')
    end.
    + done.
    + intros dy t Hdy Ht.
      match goal with
      | |- context [for_loop (-2) 3 ?body t] =>
          destruct (for_loop_inv
                      (fun _ u => wf W H u /\
                         current u = current (FluidMain.fluid s) /\
                         damping u = damping (FluidMain.fluid s))
                      body (-2) 3 t) as (t' & -> & Ht')
      end.
      * done.
      * intros dx u Hdx (Hu & Hcu & Hdu). cbv beta zeta.
        destruct (F32.leb _ _); [|by exists u].
        match goal with
        | |- context [Fluid.add_disturbance W H u ?x ?y ?i] =>
            destruct (wide_add_disturbance_total u x y i Hu)
              as (u' & -> & Hu' & Hcu' & Hdu')
        end.
        exists u'. split; [done|]. split; [done|]. split; congruence.
      * by exists t'.
    + simpl. by eexists.
  - by eexists.
  - case_decide; [|case_decide]; try by eexists.
    rewrite decide_False by lia.
    match goal with
    | |- context [Fluid.add_disturbance W H ?g ?x ?y ?i] =>
        destruct (wide_add_disturbance_total g x y i Hwf) as (g' & -> & Hg')
    end.
    simpl. by eexists.
  - by eexists.
Qed.

Lemma fluid_poll_inv (events : list SDL_Event) (s : FluidMain.App) :
  wf W H (FluidMain.fluid s) ->
  exists s', FluidMain.poll_events W H rand events s = Some s' /\
    wf W H (FluidMain.fluid s') /\
    current (FluidMain.fluid s') = current (FluidMain.fluid s) /\
    damping (FluidMain.fluid s') = damping (FluidMain.fluid s).
Proof.
  revert s. induction events as [|e events IH]; intros s Hs.
  - by exists s.
  - destruct (fluid_handle_inv e s Hs) as (s1 & Hrun & Hs1 & Hc1 & Hd1).
    destruct (IH s1 Hs1) as (s' & Hrun' & Hs' & Hc' & Hd').
    exists s'. simpl. rewrite Hrun. simpl. split; [done|].
    split; [done|]. split; congruence.
Qed.

Lemma fluid_main_loop_inv (frames : list (list SDL_Event)) (s : FluidMain.App) :
  wf W H (FluidMain.fluid s) ->
  exists s', FluidMain.main_loop W H rand frames s = Some s' /\
    wf W H (FluidMain.fluid s') /\
    damping (FluidMain.fluid s') = damping (FluidMain.fluid s).
Proof.
  revert s. induction frames as [|events frames IH]; intros s Hs.
  - by exists s.
  - simpl. case_decide; [|by exists s]. unfold FluidMain.frame.
    destruct (fluid_poll_inv events s Hs) as (s1 & -> & Hs1 & _ & Hd1).
    simpl. unfold Fluid.update_fluid.
    destruct (update_fluid_border W H (FluidMain.fluid s1) Hs1)
      as (g' & Hstep & Hwf' & _).
    pose proof Hstep as Hstep'. unfold Gridfluid.update_fluid in Hstep'.
    destruct (update_loop_spec W H (FluidMain.fluid s1) Hs1)
      as (g1 & Hloop & _ & Hd & _).
    rewrite update_loop_same, Hloop in Hstep'. simpl in Hstep'.
    injection Hstep' as <-. rewrite Hstep. simpl.
    match goal with
    | |- context [FluidMain.main_loop W H rand frames ?s2] =>
        destruct (IH s2) as (s' & -> & Hs' & Hd')
    end; [done|].
    exists s'. split; [done|]. split; [done|]. simpl in Hd'. congruence.
Qed.

Lemma fluid_main_inv (frames : list (list SDL_Event)) :
  exists s, FluidMain.main W H rand frames = Some s /\
    wf W H (FluidMain.fluid s) /\
    damping (FluidMain.fluid s) = F32.c0_99.
Proof.
  unfold FluidMain.main.
  match goal with
  | |- context [FluidMain.main_loop W H rand frames ?s0] =>
      destruct (fluid_main_loop_inv frames s0) as (s & Hrun & Hwf & Hd)
  end.
  - apply init_fluid_wf. lia.
  - by exists s.
Qed.

End FluidMainFacts.

Section Commute.
Variables W H : Z.

Lemma add_disturbance_commute (g : FluidGrid) (x1 y1 x2 y2 : Z) (a b : float) :
  wf W H g -> (x1, y1) <> (x2, y2) ->
  (g1 ← Gridfluid.add_disturbance W H g x1 y1 a;
   Gridfluid.add_disturbance W H g1 x2 y2 b)
  = (g2 ← Gridfluid.add_disturbance W H g x2 y2 b;
     Gridfluid.add_disturbance W H g2 x1 y1 a).
Proof.
  intros [Hlc Hlp] Hne.
  destruct (decide (interior W H x1 y1)) as [Hin1|Hout1];
    [|rewrite (add_disturbance_outside W H g x1 y1) by done; simpl;
      destruct (Gridfluid.add_disturbance W H g x2 y2 b) as [g2|]; simpl;
      [by rewrite add_disturbance_outside|done]].
  destruct (decide (interior W H x2 y2)) as [Hin2|Hout2];
    [|rewrite (add_disturbance_outside W H g x2 y2) by done; simpl;
      destruct (Gridfluid.add_disturbance W H g x1 y1 a) as [g1|]; simpl;
      [by rewrite add_disturbance_outside|done]].
  pose proof (index_in_range W H x1 y1 (interior_in_grid W H x1 y1 Hin1)) as Hr1.
  pose proof (index_in_range W H x2 y2 (interior_in_grid W H x2 y2 Hin2)) as Hr2.
  assert (y1 * W + x1 <> y2 * W + x2) as Hidx.
  { intros Heq. apply Hne. unfold interior in Hin1, Hin2.
    apply index_inj in Heq; [|lia|lia]. destruct Heq. by subst. }
  unfold Gridfluid.add_disturbance.
  rewrite !decide_True by (unfold interior in *; lia). simpl.
  rewrite !cell_load by lia. simpl.
  rewrite !store_in_range by lia. simpl.
  rewrite !decide_True by (unfold interior in *; lia).
  assert (forall i j v, 0 <= i < W * H -> 0 <= j < W * H -> i <> j ->
            load (<[Z.to_nat i := v]> (previous g)) j = load (previous g) j)
    as Hload.
  { intros i j v Hi Hj Hij.
    apply (load_store_ne (previous g) _ i j v); [|done].
    apply store_in_range. lia. }
  rewrite !Hload by done. rewrite !cell_load by lia. simpl.
  rewrite !store_in_range by (rewrite length_insert; lia). simpl.
  f_equal. f_equal. apply list_insert_insert_ne. lia.
Qed.

End Commute.

(** ** The SPACE key *)

Section SpaceFacts.
Variables W H : Z.
#[local] Arguments Gridfluid.add_velocity_field : simpl never.
#[local] Arguments Realfluid.add_water_drop : simpl never.
#[local] Arguments Fluid.add_disturbance : simpl never.
#[local] Arguments F32.of_int : simpl never.
Variables expf cosf : float -> float.
Variable rand : nat -> Z.

Lemma rand_cell (r n lo : Z) :
  0 <= r -> 0 < n -> lo <= Z.rem r n + lo <= n + lo - 1.
Proof. intros Hr Hn. pose proof (Z.rem_bound_pos r n Hr Hn). lia. Qed.

Lemma grid_space_spec (s : App) :
  4 < W -> 4 < H -> wf W H (fluid s) ->
  0 <= rand (rand_calls s) -> 0 <= rand (S (rand_calls s)) ->
  exists x y g',
    2 <= x <= W - 3 /\ 2 <= y <= H - 3 /\
    GridfluidMain.handle_event W H cosf rand (SDL_KEYDOWN SDLK_SPACE) s
    = Some {| fluid := g'; running := running s; mouse_down := mouse_down s;
              prev_mouse_x := prev_mouse_x s; prev_mouse_y := prev_mouse_y s;
              rand_calls := S (S (rand_calls s)) |} /\
    current g' = current (fluid s) /\
    forall x' y', in_grid W H x' y' ->
      cell W (previous g') x' y' =
        if decide (interior W H x' y' /\
                   (x' - x) * (x' - x) + (y' - y) * (y' - y) <= 9)
        then F32.add (cell W (previous (fluid s)) x' y')
               (F32.mul (F32.of_int 30) (Gridfluid.wave cosf (x' - x) (y' - y)))
        else cell W (previous (fluid s)) x' y'.
Proof.
  intros HW HH Hwf Hr1 Hr2.
  pose proof (rand_cell (rand (rand_calls s)) (W - 4) 2 Hr1 ltac:(lia)) as Hx.
  pose proof (rand_cell (rand (S (rand_calls s))) (H - 4) 2 Hr2 ltac:(lia)) as Hy.
  destruct (add_velocity_field_spec W H cosf (fluid s) _ _ (F32.of_int 30) Hwf
              ltac:(split; [|split; [|split]]; [apply Z.le_ge, Hx|lia|apply Z.le_ge, Hy|lia]))
    as (g' & Hrun & _ & Hc & _ & Hcell).
  exists (Z.rem (rand (rand_calls s)) (W - 4) + 2),
    (Z.rem (rand (S (rand_calls s))) (H - 4) + 2), g'.
  split; [lia|]. split; [lia|]. split; [|by split].
  unfold GridfluidMain.handle_event.
  rewrite decide_True by done. rewrite decide_False by lia.
  cbv zeta. by rewrite Hrun.
Qed.

Lemma real_space_spec (s : App) :
  6 < W -> 6 < H -> wf W H (fluid s) ->
  0 <= rand (rand_calls s) -> 0 <= rand (S (rand_calls s)) ->
  exists x y g',
    3 <= x <= W - 4 /\ 3 <= y <= H - 4 /\
    RealfluidMain.handle_event W H expf cosf rand (SDL_KEYDOWN SDLK_SPACE) s
    = Some {| fluid := g'; running := running s; mouse_down := mouse_down s;
              prev_mouse_x := prev_mouse_x s; prev_mouse_y := prev_mouse_y s;
              rand_calls := S (S (rand_calls s)) |} /\
    current g' = current (fluid s) /\
    forall x' y', in_grid W H x' y' ->
      cell W (previous g') x' y' =
        if decide (interior W H x' y' /\
                   (x' - x) * (x' - x) + (y' - y) * (y' - y) <= 9)
        then F32.add (cell W (previous (fluid s)) x' y')
               (F32.mul (F32.of_int 25) (drop_wave expf cosf (x' - x) (y' - y)))
        else cell W (previous (fluid s)) x' y'.
Proof.
  intros HW HH Hwf Hr1 Hr2.
  pose proof (rand_cell (rand (rand_calls s)) (W - 6) 3 Hr1 ltac:(lia)) as Hx.
  pose proof (rand_cell (rand (S (rand_calls s))) (H - 6) 3 Hr2 ltac:(lia)) as Hy.
  destruct (add_water_drop_spec W H expf cosf (fluid s)
              (Z.rem (rand (rand_calls s)) (W - 6) + 3)
              (Z.rem (rand (S (rand_calls s))) (H - 6) + 3)
              (F32.of_int 25) Hwf)
    as (g' & Hrun & _ & Hc & _ & _ & Hcell).
  exists (Z.rem (rand (rand_calls s)) (W - 6) + 3),
    (Z.rem (rand (S (rand_calls s))) (H - 6) + 3), g'.
  split; [lia|]. split; [lia|]. split; [|split; [done|]].
  - unfold RealfluidMain.handle_event.
    rewrite decide_True by done. rewrite decide_False by lia.
    cbv zeta. by rewrite Hrun.
  - apply Hcell. lia.
Qed.

Lemma fluid_space_spec (s : FluidMain.App) :
  2 < W -> 2 < H -> wf W H (FluidMain.fluid s) ->
  0 <= rand (FluidMain.rand_calls s) ->
  0 <= rand (S (FluidMain.rand_calls s)) ->
  exists x y g',
    1 <= x <= W - 2 /\ 1 <= y <= H - 2 /\
    FluidMain.handle_event W H rand (SDL_KEYDOWN SDLK_SPACE) s
    = Some {| FluidMain.fluid := g';
              FluidMain.running := FluidMain.running s;
              FluidMain.mouse_down := FluidMain.mouse_down s;
              FluidMain.rand_calls := S (S (FluidMain.rand_calls s)) |} /\
    current g' = current (FluidMain.fluid s) /\
    forall x' y', in_grid W H x' y' ->
      cell W (previous g') x' y' =
        if decide (x' = x /\ y' = y)
        then F32.add (cell W (previous (FluidMain.fluid s)) x y) (F32.of_int 20)
        else if decide (-1 <= x' - x <= 1 /\ -1 <= y' - y <= 1)
        then F32.add (cell W (previous (FluidMain.fluid s)) x' y')
               (F32.mul (F32.of_int 20) F32.c0_5)
        else cell W (previous (FluidMain.fluid s)) x' y'.
Proof.
  intros HW HH Hwf Hr1 Hr2.
  pose proof (rand_cell (rand (FluidMain.rand_calls s)) (W - 2) 1 Hr1
                ltac:(lia)) as Hx.
  pose proof (rand_cell (rand (S (FluidMain.rand_calls s))) (H - 2) 1 Hr2
                ltac:(lia)) as Hy.
  destruct (wide_add_disturbance_spec W H (FluidMain.fluid s) _ _
              (F32.of_int 20) Hwf
              ltac:(split; [split; [apply Hx|lia]|split; [apply Hy|lia]]))
    as (g' & Hrun & _ & Hc & _ & Hcell).
  exists (Z.rem (rand (FluidMain.rand_calls s)) (W - 2) + 1),
    (Z.rem (rand (S (FluidMain.rand_calls s))) (H - 2) + 1), g'.
  split; [lia|]. split; [lia|]. split; [|by split].
  unfold FluidMain.handle_event.
  rewrite decide_True by done. rewrite decide_False by lia.
  cbv zeta. by rewrite Hrun.
Qed.

End SpaceFacts.

(** * Further properties of the code *)

(** X1: [add_water_drop] of realfluid.c always returns and never touches
    [current] or [damping]; a centre that fails the check [3 <= x < W-3],
    [3 <= y < H-3] leaves the field as it is; a centre that passes it adds
    [intensity * (cosf (d * 1.5f) * expf (-d * d * 0.3f))], with
    [d = sqrtf (dx*dx + dy*dy)], to [previous] at exactly the offsets of
    the disk [dx*dx + dy*dy <= 9] whose target is an interior cell. *)
Theorem X1_water_drop (W H : Z) (expf cosf : float -> float) (g : FluidGrid)
    (x y : Z) (intensity : float) :
  wf W H g ->
  exists g',
    Realfluid.add_water_drop W H expf cosf g x y intensity = Some g' /\
    wf W H g' /\ current g' = current g /\ damping g' = damping g /\
    (~ (x >= 3 /\ x < W - 3 /\ y >= 3 /\ y < H - 3) -> g' = g) /\
    (x >= 3 /\ x < W - 3 /\ y >= 3 /\ y < H - 3 ->
     forall x' y', in_grid W H x' y' ->
       cell W (previous g') x' y' =
         if decide (interior W H x' y' /\
                    (x' - x) * (x' - x) + (y' - y) * (y' - y) <= 9)
         then F32.add (cell W (previous g) x' y')
                (F32.mul intensity (drop_wave expf cosf (x' - x) (y' - y)))
         else cell W (previous g) x' y').
Proof. apply add_water_drop_spec. Qed.

Lemma X1_witness :
  wf 10 10 (Realfluid.init_fluid 10 10) /\
  exists g',
    Realfluid.add_water_drop 10 10 (fun _ => F32.c1) (fun _ => F32.c1)
      (Realfluid.init_fluid 10 10) 5 5 F32.c2 = Some g' /\
    wf 10 10 g' /\ current g' = current (Realfluid.init_fluid 10 10) /\
    damping g' = damping (Realfluid.init_fluid 10 10) /\
    (~ (5 >= 3 /\ 5 < 10 - 3 /\ 5 >= 3 /\ 5 < 10 - 3) ->
     g' = Realfluid.init_fluid 10 10) /\
    (5 >= 3 /\ 5 < 10 - 3 /\ 5 >= 3 /\ 5 < 10 - 3 ->
     forall x' y', in_grid 10 10 x' y' ->
       cell 10 (previous g') x' y' =
         if decide (interior 10 10 x' y' /\
                    (x' - 5) * (x' - 5) + (y' - 5) * (y' - 5) <= 9)
         then F32.add (cell 10 (previous (Realfluid.init_fluid 10 10)) x' y')
                (F32.mul F32.c2
                   (drop_wave (fun _ => F32.c1) (fun _ => F32.c1)
                      (x' - 5) (y' - 5)))
         else cell 10 (previous (Realfluid.init_fluid 10 10)) x' y').
Proof.
  split; [split; reflexivity|].
  apply (X1_water_drop 10 10 (fun _ => F32.c1) (fun _ => F32.c1)
           (Realfluid.init_fluid 10 10) 5 5 F32.c2).
  split; reflexivity.
Defined.

(** X2: a disturbance travels at most one cell per step.  Starting from the
    zero field, after any sequence of point injections and steps, a cell
    that is more moves (left, right, up, down) away from every injection
    point than the sequence has steps is still [+0] in both buffers. *)
Theorem X2_propagation_speed (W H : Z) (ops : list op) :
  0 <= W * H ->
  exists g',
    run (Gridfluid.add_disturbance W H) (Gridfluid.update_fluid W H) ops
        (Gridfluid.init_fluid W H) = Some g' /\
    forall x y, in_grid W H x y ->
      (forall x0 y0, (x0, y0) ∈ points ops ->
                     Z.abs (x - x0) + Z.abs (y - y0) > steps ops) ->
      cell W (current g') x y = F32.zero /\
      cell W (previous g') x y = F32.zero.
Proof. apply propagation_speed. Qed.

Lemma X2_witness :
  0 <= 10 * 10 /\
  exists g',
    run (Gridfluid.add_disturbance 10 10) (Gridfluid.update_fluid 10 10)
        [Point 5 5 F32.c1; Step; Step] (Gridfluid.init_fluid 10 10)
    = Some g' /\
    forall x y, in_grid 10 10 x y ->
      (forall x0 y0, (x0, y0) ∈ points [Point 5 5 F32.c1; Step; Step] ->
                     Z.abs (x - x0) + Z.abs (y - y0)
                     > steps [Point 5 5 F32.c1; Step; Step]) ->
      cell 10 (current g') x y = F32.zero /\
      cell 10 (previous g') x y = F32.zero.
Proof.
  split; [lia|].
  apply (X2_propagation_speed 10 10 [Point 5 5 F32.c1; Step; Step]). lia.
Defined.

(** X3: for end points within 32768 of the origin, [add_continuous_wave] of
    gridfluid.c returns: no conversion to [int] is undefined and no access
    is out of bounds.  Whatever the grid size, it leaves [current],
    [damping], the size of the buffers and every cell of [previous] that is
    not interior as they were. *)
Theorem X3_drag_gridfluid (W H : Z) (g : FluidGrid) (x1 y1 x2 y2 : Z)
    (intensity : float) :
  wf W H g ->
  Z.abs x1 <= 32768 -> Z.abs y1 <= 32768 ->
  Z.abs x2 <= 32768 -> Z.abs y2 <= 32768 ->
  exists g',
    Gridfluid.add_continuous_wave W H g x1 y1 x2 y2 intensity = Some g' /\
    injected W H g g'.
Proof.
  intros Hwf Hx1 Hy1 Hx2 Hy2.
  destruct (wave_grid_kept W H g x1 y1 x2 y2 intensity Hwf Hx1 Hy1 Hx2 Hy2)
    as (g' & Hrun & Hinj & _).
  by exists g'.
Qed.

Lemma X3_witness :
  wf 10 10 (Gridfluid.init_fluid 10 10) /\
  Z.abs 2 <= 32768 /\ Z.abs 3 <= 32768 /\
  Z.abs 7 <= 32768 /\ Z.abs 5 <= 32768 /\
  exists g',
    Gridfluid.add_continuous_wave 10 10 (Gridfluid.init_fluid 10 10)
      2 3 7 5 F32.c1 = Some g' /\
    injected 10 10 (Gridfluid.init_fluid 10 10) g'.
Proof.
  split; [split; reflexivity|]. do 4 (split; [lia|]).
  apply (X3_drag_gridfluid 10 10 (Gridfluid.init_fluid 10 10) 2 3 7 5 F32.c1);
    [split; reflexivity|lia..].
Defined.

(** X4: the same for [add_continuous_wave] of realfluid.c, which injects
    single points along the segment. *)
Theorem X4_drag_realfluid (W H : Z) (g : FluidGrid) (x1 y1 x2 y2 : Z)
    (intensity : float) :
  wf W H g ->
  Z.abs x1 <= 32768 -> Z.abs y1 <= 32768 ->
  Z.abs x2 <= 32768 -> Z.abs y2 <= 32768 ->
  exists g',
    Realfluid.add_continuous_wave W H g x1 y1 x2 y2 intensity = Some g' /\
    injected W H g g'.
Proof.
  intros Hwf Hx1 Hy1 Hx2 Hy2.
  destruct (wave_real_kept W H g x1 y1 x2 y2 intensity Hwf Hx1 Hy1 Hx2 Hy2)
    as (g' & Hrun & Hinj & _).
  by exists g'.
Qed.

Lemma X4_witness :
  wf 10 10 (Realfluid.init_fluid 10 10) /\
  Z.abs 2 <= 32768 /\ Z.abs 3 <= 32768 /\
  Z.abs 7 <= 32768 /\ Z.abs 5 <= 32768 /\
  exists g',
    Realfluid.add_continuous_wave 10 10 (Realfluid.init_fluid 10 10)
      2 3 7 5 F32.c1 = Some g' /\
    injected 10 10 (Realfluid.init_fluid 10 10) g'.
Proof.
  split; [split; reflexivity|]. do 4 (split; [lia|]).
  apply (X4_drag_realfluid 10 10 (Realfluid.init_fluid 10 10) 2 3 7 5 F32.c1);
    [split; reflexivity|lia..].
Defined.

(** X5: on a field whose cells are binary32 data (infinities and NaN
    included) and a pixel buffer of [W * H] words, [update_fluid_texture]
    returns; the buffer keeps its size and every pixel [(x, y)] is
    overwritten with an opaque colour [0xFF000000 + r*65536 + g*256 + b],
    [r], [g], [b] in 0..255, which is [water_color] of the cell
    [current[x, y]]. *)
Theorem X5_texture (W H : Z) (pixels : list Z) (g : FluidGrid) (time : Z) :
  0 <= W -> wf W H g -> cells_valid W H g ->
  Z.of_nat (length pixels) = W * H ->
  exists pixels',
    Realfluid.update_fluid_texture W H pixels g time = Some pixels' /\
    length pixels' = length pixels /\
    (forall x y, in_grid W H x y ->
       load pixels' (y * W + x)
       = Realfluid.water_color (cell W (current g) x y) (F32.of_int x)
           (F32.of_int y) time) /\
    shows W H pixels' g.
Proof.
  intros HW Hwf Hv Hlen.
  destruct (update_fluid_texture_spec W H pixels g time HW Hwf Hlen)
    as (pixels' & Hrun & Hl & Hpix); [intros x y Hin; by apply Hv|].
  exists pixels'. do 3 (split; [done|]).
  intros x y Hin.
  destruct (water_color_bounded (cell W (current g) x y)) as
    (r & gr & b & Hr & Hg & Hb & Hcol); [by apply Hv|].
  exists r, gr, b. do 3 (split; [done|]). split; [|done].
  by rewrite (Hpix x y Hin).
Qed.

Lemma X5_witness :
  0 <= 3 /\ wf 3 3 sample_grid /\ cells_valid 3 3 sample_grid /\
  Z.of_nat (length (replicate 9 0)) = 3 * 3 /\
  exists pixels',
    Realfluid.update_fluid_texture 3 3 (replicate 9 0) sample_grid 0
    = Some pixels' /\
    length pixels' = length (replicate 9 0) /\
    (forall x y, in_grid 3 3 x y ->
       load pixels' (y * 3 + x)
       = Realfluid.water_color (cell 3 (current sample_grid) x y)
           (F32.of_int x) (F32.of_int y) 0) /\
    shows 3 3 pixels' sample_grid.
Proof.
  assert (cells_valid 3 3 sample_grid) as Hv.
  { split; [reflexivity|]. intros x y [Hx Hy].
    assert (x = 0 \/ x = 1 \/ x = 2) as Hxs by lia.
    assert (y = 0 \/ y = 1 \/ y = 2) as Hys by lia.
    destruct_or!; subst; split; reflexivity. }
  split; [lia|]. split; [split; reflexivity|]. split; [exact Hv|].
  split; [reflexivity|].
  apply (X5_texture 3 3 (replicate 9 0) sample_grid 0);
    [lia|split; reflexivity|exact Hv|reflexivity].
Defined.

(** X6: the event loop of gridfluid.c.  On a grid wider and higher than 4
    cells, whatever [rand] and [cosf] return and whatever events arrive
    with the pointer within 32768 pixels of the origin, every turn of the
    loop runs to completion: no access is out of bounds, no conversion is
    undefined, no division is by zero.  The buffers keep their size, the
    border cells of both buffers stay zero, and while the left button is up
    the remembered pointer position is (-1, -1). *)
Theorem X6_main_gridfluid (W H : Z) (cosf : float -> float) (rand : nat -> Z)
    (frames : list (list SDL_Event)) :
  4 < W -> 4 < H ->
  Forall (Forall in_reach) frames ->
  exists s, GridfluidMain.main W H cosf rand frames = Some s /\
    wf W H (fluid s) /\ border_zero W H (fluid s) /\
    (mouse_down s = 0 -> prev_mouse_x s = -1 /\ prev_mouse_y s = -1).
Proof. intros HW HH. by apply grid_main_inv. Qed.

Lemma X6_witness :
  4 < 12 /\ 4 < 12 /\
  Forall (Forall in_reach)
    [[SDL_MOUSEBUTTONDOWN 1 5 5; SDL_MOUSEMOTION 1 9 7];
     [SDL_KEYDOWN 32; SDL_OTHER]; [SDL_MOUSEBUTTONUP 1; SDL_QUIT]] /\
  exists s,
    GridfluidMain.main 12 12 (fun _ => F32.c1) (fun n => Z.of_nat n + 41)
      [[SDL_MOUSEBUTTONDOWN 1 5 5; SDL_MOUSEMOTION 1 9 7];
       [SDL_KEYDOWN 32; SDL_OTHER]; [SDL_MOUSEBUTTONUP 1; SDL_QUIT]]
    = Some s /\
    wf 12 12 (fluid s) /\ border_zero 12 12 (fluid s) /\
    (mouse_down s = 0 -> prev_mouse_x s = -1 /\ prev_mouse_y s = -1).
Proof.
  assert (Forall (Forall in_reach)
            [[SDL_MOUSEBUTTONDOWN 1 5 5; SDL_MOUSEMOTION 1 9 7];
             [SDL_KEYDOWN 32; SDL_OTHER]; [SDL_MOUSEBUTTONUP 1; SDL_QUIT]])
    as Hfr by (repeat constructor; simpl; lia).
  split; [lia|]. split; [lia|]. split; [exact Hfr|].
  apply (X6_main_gridfluid 12 12 (fun _ => F32.c1) (fun n => Z.of_nat n + 41));
    [lia|lia|exact Hfr].
Defined.

(** X7: the event loop of realfluid.c.  On a grid wider and higher than 6
    cells, with [expf] and [cosf] returning binary32 data, a pixel buffer
    of [W * H] words and the pointer within 32768 pixels of the origin,
    every turn of the loop (events, [update_fluid], [update_fluid_texture])
    runs to completion.  The border cells stay zero, and once a turn has
    run the pixel buffer shows the field: every pixel is the opaque colour
    of its cell of [current]. *)
Theorem X7_main_realfluid (W H : Z) (expf cosf : float -> float)
    (rand : nat -> Z) (pixels : list Z) (frames : list (Z * list SDL_Event)) :
  6 < W -> 6 < H ->
  (forall a, valid (expf a)) -> (forall a, valid (cosf a)) ->
  Z.of_nat (length pixels) = W * H ->
  Forall (fun f => Forall in_reach f.2) frames ->
  exists s pixels',
    RealfluidMain.main W H expf cosf rand pixels frames = Some (s, pixels') /\
    wf W H (fluid s) /\ border_zero W H (fluid s) /\
    length pixels' = length pixels /\
    (frames <> [] -> shows W H pixels' (fluid s)).
Proof. intros HW HH Hexpf Hcosf. by apply real_main_inv. Qed.

Lemma X7_witness :
  6 < 12 /\ 6 < 12 /\
  (forall a : float, valid F32.c1) /\ (forall a : float, valid F32.c1) /\
  Z.of_nat (length (replicate 144 0)) = 12 * 12 /\
  Forall (fun f : Z * list SDL_Event => Forall in_reach f.2)
    [(0, [SDL_MOUSEBUTTONDOWN 1 5 5; SDL_MOUSEMOTION 1 9 7]);
     (16, [SDL_KEYDOWN 32; SDL_QUIT])] /\
  exists s pixels',
    RealfluidMain.main 12 12 (fun _ => F32.c1) (fun _ => F32.c1)
      (fun n => Z.of_nat n + 41) (replicate 144 0)
      [(0, [SDL_MOUSEBUTTONDOWN 1 5 5; SDL_MOUSEMOTION 1 9 7]);
       (16, [SDL_KEYDOWN 32; SDL_QUIT])]
    = Some (s, pixels') /\
    wf 12 12 (fluid s) /\ border_zero 12 12 (fluid s) /\
    length pixels' = length (replicate 144 0) /\
    ([(0, [SDL_MOUSEBUTTONDOWN 1 5 5; SDL_MOUSEMOTION 1 9 7]);
      (16, [SDL_KEYDOWN 32; SDL_QUIT])] <> [] ->
     shows 12 12 pixels' (fluid s)).
Proof.
  assert (Forall (fun f : Z * list SDL_Event => Forall in_reach f.2)
            [(0, [SDL_MOUSEBUTTONDOWN 1 5 5; SDL_MOUSEMOTION 1 9 7]);
             (16, [SDL_KEYDOWN 32; SDL_QUIT])])
    as Hfr by (repeat constructor; simpl; lia).
  split; [lia|]. split; [lia|]. split; [reflexivity|]. split; [reflexivity|].
  split; [reflexivity|]. split; [exact Hfr|].
  apply (X7_main_realfluid 12 12 (fun _ => F32.c1) (fun _ => F32.c1)
           (fun n => Z.of_nat n + 41) (replicate 144 0));
    [lia|lia|reflexivity|reflexivity|reflexivity|exact Hfr].
Defined.

(** X8: the event loop of fluid.c.  On a grid wider and higher than 2 cells,
    whatever [rand] returns and whatever events arrive, every turn of the
    loop runs to completion: the 5 x 5 stamp of a drag and the 3 x 3
    injection of [add_disturbance] never leave the buffers.  The buffers
    keep their size and [damping] stays 0.99f. *)
Theorem X8_main_fluid (W H : Z) (rand : nat -> Z)
    (frames : list (list SDL_Event)) :
  2 < W -> 2 < H ->
  exists s, FluidMain.main W H rand frames = Some s /\
    wf W H (FluidMain.fluid s) /\
    damping (FluidMain.fluid s) = F32.c0_99.
Proof. intros HW HH. by apply fluid_main_inv. Qed.

Lemma X8_witness :
  2 < 8 /\ 2 < 8 /\
  exists s,
    FluidMain.main 8 8 (fun n => Z.of_nat n + 41)
      [[SDL_MOUSEBUTTONDOWN 1 2 2; SDL_MOUSEMOTION 1 15 15];
       [SDL_KEYDOWN 32]; [SDL_KEYDOWN 27]] = Some s /\
    wf 8 8 (FluidMain.fluid s) /\
    damping (FluidMain.fluid s) = F32.c0_99.
Proof.
  split; [lia|]. split; [lia|].
  apply (X8_main_fluid 8 8 (fun n => Z.of_nat n + 41)); lia.
Defined.

(** X9: the SPACE key of gridfluid.c.  For every pair of values that
    [rand ()] can return, the centre [rand () % (W-4) + 2],
    [rand () % (H-4) + 2] passes the check of [add_velocity_field]: the
    splash is never dropped, and the disk of radius 3 around the centre is
    added to [previous] with intensity 30. *)
Theorem X9_space_gridfluid (W H : Z) (cosf : float -> float) (rand : nat -> Z)
    (s : App) :
  4 < W -> 4 < H -> wf W H (fluid s) ->
  0 <= rand (rand_calls s) -> 0 <= rand (S (rand_calls s)) ->
  exists x y g',
    2 <= x <= W - 3 /\ 2 <= y <= H - 3 /\
    GridfluidMain.handle_event W H cosf rand (SDL_KEYDOWN SDLK_SPACE) s
    = Some {| fluid := g'; running := running s; mouse_down := mouse_down s;
              prev_mouse_x := prev_mouse_x s; prev_mouse_y := prev_mouse_y s;
              rand_calls := S (S (rand_calls s)) |} /\
    current g' = current (fluid s) /\
    forall x' y', in_grid W H x' y' ->
      cell W (previous g') x' y' =
        if decide (interior W H x' y' /\
                   (x' - x) * (x' - x) + (y' - y) * (y' - y) <= 9)
        then F32.add (cell W (previous (fluid s)) x' y')
               (F32.mul (F32.of_int 30) (Gridfluid.wave cosf (x' - x) (y' - y)))
        else cell W (previous (fluid s)) x' y'.
Proof. apply grid_space_spec. Qed.

Lemma X9_witness :
  4 < 12 /\ 4 < 12 /\ wf 12 12 (fluid sample_app) /\
  0 <= sample_rand (rand_calls sample_app) /\
  0 <= sample_rand (S (rand_calls sample_app)) /\
  exists x y g',
    2 <= x <= 12 - 3 /\ 2 <= y <= 12 - 3 /\
    GridfluidMain.handle_event 12 12 (fun _ => F32.c1) sample_rand
      (SDL_KEYDOWN SDLK_SPACE) sample_app
    = Some {| fluid := g'; running := running sample_app;
              mouse_down := mouse_down sample_app;
              prev_mouse_x := prev_mouse_x sample_app;
              prev_mouse_y := prev_mouse_y sample_app;
              rand_calls := S (S (rand_calls sample_app)) |} /\
    current g' = current (fluid sample_app) /\
    forall x' y', in_grid 12 12 x' y' ->
      cell 12 (previous g') x' y' =
        if decide (interior 12 12 x' y' /\
                   (x' - x) * (x' - x) + (y' - y) * (y' - y) <= 9)
        then F32.add (cell 12 (previous (fluid sample_app)) x' y')
               (F32.mul (F32.of_int 30)
                  (Gridfluid.wave (fun _ => F32.c1) (x' - x) (y' - y)))
        else cell 12 (previous (fluid sample_app)) x' y'.
Proof.
  split; [lia|]. split; [lia|]. split; [split; reflexivity|].
  split; [vm_compute; discriminate|]. split; [vm_compute; discriminate|].
  apply (X9_space_gridfluid 12 12 (fun _ => F32.c1) sample_rand sample_app);
    [lia|lia|split; reflexivity|vm_compute; discriminate
    |vm_compute; discriminate].
Defined.

(** X10: the SPACE key of realfluid.c: the centre [rand () % (W-6) + 3],
    [rand () % (H-6) + 3] always passes the check of [add_water_drop], and
    the drop of intensity 25 is added to the disk of radius 3 around it. *)
Theorem X10_space_realfluid (W H : Z) (expf cosf : float -> float)
    (rand : nat -> Z) (s : App) :
  6 < W -> 6 < H -> wf W H (fluid s) ->
  0 <= rand (rand_calls s) -> 0 <= rand (S (rand_calls s)) ->
  exists x y g',
    3 <= x <= W - 4 /\ 3 <= y <= H - 4 /\
    RealfluidMain.handle_event W H expf cosf rand (SDL_KEYDOWN SDLK_SPACE) s
    = Some {| fluid := g'; running := running s; mouse_down := mouse_down s;
              prev_mouse_x := prev_mouse_x s; prev_mouse_y := prev_mouse_y s;
              rand_calls := S (S (rand_calls s)) |} /\
    current g' = current (fluid s) /\
    forall x' y', in_grid W H x' y' ->
      cell W (previous g') x' y' =
        if decide (interior W H x' y' /\
                   (x' - x) * (x' - x) + (y' - y) * (y' - y) <= 9)
        then F32.add (cell W (previous (fluid s)) x' y')
               (F32.mul (F32.of_int 25) (drop_wave expf cosf (x' - x) (y' - y)))
        else cell W (previous (fluid s)) x' y'.
Proof. apply real_space_spec. Qed.

Lemma X10_witness :
  6 < 12 /\ 6 < 12 /\ wf 12 12 (fluid sample_app) /\
  0 <= sample_rand (rand_calls sample_app) /\
  0 <= sample_rand (S (rand_calls sample_app)) /\
  exists x y g',
    3 <= x <= 12 - 4 /\ 3 <= y <= 12 - 4 /\
    RealfluidMain.handle_event 12 12 (fun _ => F32.c1) (fun _ => F32.c1)
      sample_rand (SDL_KEYDOWN SDLK_SPACE) sample_app
    = Some {| fluid := g'; running := running sample_app;
              mouse_down := mouse_down sample_app;
              prev_mouse_x := prev_mouse_x sample_app;
              prev_mouse_y := prev_mouse_y sample_app;
              rand_calls := S (S (rand_calls sample_app)) |} /\
    current g' = current (fluid sample_app) /\
    forall x' y', in_grid 12 12 x' y' ->
      cell 12 (previous g') x' y' =
        if decide (interior 12 12 x' y' /\
                   (x' - x) * (x' - x) + (y' - y) * (y' - y) <= 9)
        then F32.add (cell 12 (previous (fluid sample_app)) x' y')
               (F32.mul (F32.of_int 25)
                  (drop_wave (fun _ => F32.c1) (fun _ => F32.c1)
                     (x' - x) (y' - y)))
        else cell 12 (previous (fluid sample_app)) x' y'.
Proof.
  split; [lia|]. split; [lia|]. split; [split; reflexivity|].
  split; [vm_compute; discriminate|]. split; [vm_compute; discriminate|].
  apply (X10_space_realfluid 12 12 (fun _ => F32.c1) (fun _ => F32.c1)
           sample_rand sample_app);
    [lia|lia|split; reflexivity|vm_compute; discriminate
    |vm_compute; discriminate].
Defined.

(** X11: the SPACE key of fluid.c: the centre [rand () % (W-2) + 1],
    [rand () % (H-2) + 1] is always an interior cell, so the injection of
    intensity 20 and its eight half-intensity neighbours are always
    written. *)
Theorem X11_space_fluid (W H : Z) (rand : nat -> Z) (s : FluidMain.App) :
  2 < W -> 2 < H -> wf W H (FluidMain.fluid s) ->
  0 <= rand (FluidMain.rand_calls s) ->
  0 <= rand (S (FluidMain.rand_calls s)) ->
  exists x y g',
    1 <= x <= W - 2 /\ 1 <= y <= H - 2 /\
    FluidMain.handle_event W H rand (SDL_KEYDOWN SDLK_SPACE) s
    = Some {| FluidMain.fluid := g';
              FluidMain.running := FluidMain.running s;
              FluidMain.mouse_down := FluidMain.mouse_down s;
              FluidMain.rand_calls := S (S (FluidMain.rand_calls s)) |} /\
    current g' = current (FluidMain.fluid s) /\
    forall x' y', in_grid W H x' y' ->
      cell W (previous g') x' y' =
        if decide (x' = x /\ y' = y)
        then F32.add (cell W (previous (FluidMain.fluid s)) x y) (F32.of_int 20)
        else if decide (-1 <= x' - x <= 1 /\ -1 <= y' - y <= 1)
        then F32.add (cell W (previous (FluidMain.fluid s)) x' y')
               (F32.mul (F32.of_int 20) F32.c0_5)
        else cell W (previous (FluidMain.fluid s)) x' y'.
Proof. apply fluid_space_spec. Qed.

Lemma X11_witness :
  2 < 12 /\ 2 < 12 /\ wf 12 12 (FluidMain.fluid sample_fluid_app) /\
  0 <= sample_rand (FluidMain.rand_calls sample_fluid_app) /\
  0 <= sample_rand (S (FluidMain.rand_calls sample_fluid_app)) /\
  exists x y g',
    1 <= x <= 12 - 2 /\ 1 <= y <= 12 - 2 /\
    FluidMain.handle_event 12 12 sample_rand (SDL_KEYDOWN SDLK_SPACE)
      sample_fluid_app
    = Some {| FluidMain.fluid := g';
              FluidMain.running := FluidMain.running sample_fluid_app;
              FluidMain.mouse_down := FluidMain.mouse_down sample_fluid_app;
              FluidMain.rand_calls :=
                S (S (FluidMain.rand_calls sample_fluid_app)) |} /\
    current g' = current (FluidMain.fluid sample_fluid_app) /\
    forall x' y', in_grid 12 12 x' y' ->
      cell 12 (previous g') x' y' =
        if decide (x' = x /\ y' = y)
        then F32.add (cell 12 (previous (FluidMain.fluid sample_fluid_app)) x y)
               (F32.of_int 20)
        else if decide (-1 <= x' - x <= 1 /\ -1 <= y' - y <= 1)
        then F32.add (cell 12 (previous (FluidMain.fluid sample_fluid_app)) x' y')
               (F32.mul (F32.of_int 20) F32.c0_5)
        else cell 12 (previous (FluidMain.fluid sample_fluid_app)) x' y'.
Proof.
  split; [lia|]. split; [lia|]. split; [split; reflexivity|].
  split; [vm_compute; discriminate|]. split; [vm_compute; discriminate|].
  apply (X11_space_fluid 12 12 sample_rand sample_fluid_app);
    [lia|lia|split; reflexivity|vm_compute; discriminate
    |vm_compute; discriminate].
Defined.

(** X12: point injections at two different cells commute: the field after
    [add_disturbance] at [(x1, y1)] then at [(x2, y2)] is the field after
    the two calls in the other order. *)
Theorem X12_injections_commute (W H : Z) (g : FluidGrid) (x1 y1 x2 y2 : Z)
    (a b : float) :
  wf W H g -> (x1, y1) <> (x2, y2) ->
  (g1 ← Gridfluid.add_disturbance W H g x1 y1 a;
   Gridfluid.add_disturbance W H g1 x2 y2 b)
  = (g2 ← Gridfluid.add_disturbance W H g x2 y2 b;
     Gridfluid.add_disturbance W H g2 x1 y1 a).
Proof. apply add_disturbance_commute. Qed.

Lemma X12_witness :
  wf 10 10 (Gridfluid.init_fluid 10 10) /\ (2, 2) <> (3, 2) /\
  (g1 ← Gridfluid.add_disturbance 10 10 (Gridfluid.init_fluid 10 10)
          2 2 F32.c1;
   Gridfluid.add_disturbance 10 10 g1 3 2 F32.c2)
  = (g2 ← Gridfluid.add_disturbance 10 10 (Gridfluid.init_fluid 10 10)
            3 2 F32.c2;
     Gridfluid.add_disturbance 10 10 g2 2 2 F32.c1).
Proof.
  split; [split; reflexivity|]. split; [discriminate|].
  apply (X12_injections_commute 10 10 (Gridfluid.init_fluid 10 10)
           2 2 3 2 F32.c1 F32.c2);
    [split; reflexivity|discriminate].
Defined.
